(** * myBCL-v2: email validator and submission pipeline

    A shallow embedding of the testable core of the landing page:

    - [FormValidator] (js/main.js): [validateEmail], [isSuspiciousEmail],
      [validateFormData];
    - [FormHandler] (js/components/form-handler.js): [handleSubmit],
      [submitToZoho], [makeApiCall], [getErrorMessage];
    - the serverless function (api/email-capture.js): [getZohoAccessToken],
      [subscribeToZohoCampaigns], [handler].

    JavaScript strings are sequences of UTF-16 code units, modelled as
    [list N].  Promises are modelled by explicit state passing: an
    asynchronous function is a function from the log of effects so far to an
    outcome (a returned value or a thrown error) and the extended log. *)

From Stdlib Require Import List NArith ZArith Bool Lia Ascii String DecimalString.
From Equations Require Import Equations.
From stdpp Require Import gmap strings.
Import ListNotations.

Local Open Scope N_scope.

(** ** JavaScript strings *)

Module JsString.

Definition jsstring : Type := list N.

(** A string literal of the source, as code units. *)
Definition lit (s : string) : jsstring :=
  map N_of_ascii (list_ascii_of_string s).

Definition ch (a : ascii) : N := N_of_ascii a.

(** Strict equality [s === t] of two strings. *)
Definition eqb (s t : jsstring) : bool := bool_decide (s = t).

(** Truthiness of a string: [!s] is true exactly for the empty string. *)
Definition truthy (s : jsstring) : bool :=
  match s with [] => false | _ :: _ => true end.

(** WhiteSpace and LineTerminator code points of ECMA-262, the ones
    [String.prototype.trim] strips. *)
Definition isLineTerminator (c : N) : bool :=
  (c =? 10) || (c =? 13) || (c =? 0x2028) || (c =? 0x2029).

Definition isWhiteSpace (c : N) : bool :=
  (c =? 9) || (c =? 11) || (c =? 12) || (c =? 32) || (c =? 0xA0)
  || (c =? 0x1680) || ((0x2000 <=? c) && (c <=? 0x200A))
  || (c =? 0x202F) || (c =? 0x205F) || (c =? 0x3000) || (c =? 0xFEFF)
  || isLineTerminator c.

Fixpoint trimStart (s : jsstring) : jsstring :=
  match s with
  | [] => []
  | c :: s' => if isWhiteSpace c then trimStart s' else s
  end.

Definition trimEnd (s : jsstring) : jsstring := rev (trimStart (rev s)).

Definition trim (s : jsstring) : jsstring := trimEnd (trimStart s).

(** [s.startsWith(p)] *)
Fixpoint startsWith (p s : jsstring) : bool :=
  match p, s with
  | [], _ => true
  | _ :: _, [] => false
  | a :: p', b :: s' => (a =? b) && startsWith p' s'
  end.

(** [s.includes(p)] *)
Fixpoint includes (s p : jsstring) : bool :=
  startsWith p s ||
  match s with
  | [] => false
  | _ :: s' => includes s' p
  end.

(** [s.split(sep)] for a one-unit separator. *)
Fixpoint split_from (sep : N) (cur : jsstring) (s : jsstring) : list jsstring :=
  match s with
  | [] => [rev cur]
  | c :: s' =>
      if c =? sep then rev cur :: split_from sep [] s'
      else split_from sep (c :: cur) s'
  end.

Definition split (sep : N) (s : jsstring) : list jsstring :=
  split_from sep [] s.

(** Basic Latin (ASCII) strings and their case mappings. *)
Definition isBasicLatin (s : jsstring) : Prop := Forall (fun c => c < 128) s.

Definition lowerLatin (c : N) : N :=
  if (65 <=? c) && (c <=? 90) then c + 32 else c.

Definition upperLatin (c : N) : N :=
  if (97 <=? c) && (c <=? 122) then c - 32 else c.

End JsString.
Import JsString.

(** ** The Unicode tables of the JavaScript runtime

    [String.prototype.toLowerCase] and [toUpperCase] are driven by the Unicode
    Character Database of the engine.  The tables are an interface of the
    development; what is known of them is their behaviour on Basic Latin. *)

Class Unicode : Type := {
  toLowerCase : jsstring -> jsstring;
  toUpperCase : jsstring -> jsstring;
  toLowerCase_latin :
    forall s, isBasicLatin s -> toLowerCase s = map lowerLatin s;
  toUpperCase_latin :
    forall s, isBasicLatin s -> toUpperCase s = map upperLatin s
}.

(** The tables that map Basic Latin letters and leave every other code unit
    alone. *)
Definition BasicLatinOnly : Unicode :=
  {| toLowerCase := map lowerLatin;
     toUpperCase := map upperLatin;
     toLowerCase_latin := fun s _ => eq_refl;
     toUpperCase_latin := fun s _ => eq_refl |}.

(** Canonicalize of ECMA-262 (22.2.5.6) for a pattern without the [u] flag:
    the upper case of the code unit when that is again one code unit, never
    folding a unit outside Basic Latin into Basic Latin. *)
Definition Canonicalize `{Unicode} (c : N) : N :=
  match toUpperCase [c] with
  | [cu] => if (128 <=? c) && (cu <? 128) then c else cu
  | _ => c
  end.

(** ** Regular expressions

    The patterns of the validator are regular apart from one back reference,
    [(.)\1{4,}], which gets constructors of its own.  [RegExp.prototype.test]
    only reports whether some match exists, so matching by derivatives
    decides it. *)

Module Regex.

Inductive Regex : Type :=
| Void                                   (* no string *)
| Eps                                    (* the empty string *)
| Class (ranges : list (N * N))          (* a literal or a bracket class *)
| Seq (r1 r2 : Regex)
| Alt (r1 r2 : Regex)
| Star (r : Regex)
| Rep (r : Regex) (lo hi : nat)          (* r{lo,hi} *)
| CaptureRun (n : nat)                   (* (.)\1{n,} *)
| SameRun (c : N) (n : nat).             (* \1{n,} once group 1 holds c *)

Definition Plus (r : Regex) : Regex := Seq r (Star r).
Definition Opt (r : Regex) : Regex := Alt r Eps.
Definition Chr (a : ascii) : Regex := Class [(ch a, ch a)].
Definition Str (s : string) : Regex :=
  fold_right (fun a r => Seq (Chr a) r) Eps (list_ascii_of_string s).
Definition rng (a b : ascii) : N * N := (ch a, ch b).
Definition one (a : ascii) : N * N := (ch a, ch a).

Fixpoint nullable (r : Regex) : bool :=
  match r with
  | Void => false
  | Eps => true
  | Class _ => false
  | Seq r1 r2 => nullable r1 && nullable r2
  | Alt r1 r2 => nullable r1 || nullable r2
  | Star _ => true
  | Rep r1 lo _ => Nat.eqb lo 0 || nullable r1
  | CaptureRun _ => false
  | SameRun _ n => Nat.eqb n 0
  end.

Definition seq' (r1 r2 : Regex) : Regex :=
  match r1, r2 with
  | Void, _ => Void
  | _, Void => Void
  | Eps, _ => r2
  | _, _ => Seq r1 r2
  end.

Definition alt' (r1 r2 : Regex) : Regex :=
  match r1, r2 with
  | Void, _ => r2
  | _, Void => r1
  | _, _ => Alt r1 r2
  end.

Definition inRanges (cs : list (N * N)) (c : N) : bool :=
  existsb (fun '(lo, hi) => (lo <=? c) && (c <=? hi)) cs.

Definition members (cs : list (N * N)) : list N :=
  flat_map (fun '(lo, hi) =>
              map N.of_nat (seq (N.to_nat lo) (S (N.to_nat hi) - N.to_nat lo)))
           cs.

Section Engine.
(** [canon] is [Canonicalize]; it is consulted under the [i] flag only. *)
Variable canon : N -> N.

Definition sameChar (ic : bool) (a b : N) : bool :=
  if ic then canon a =? canon b else a =? b.

Definition classMatches (ic : bool) (cs : list (N * N)) (c : N) : bool :=
  if ic then existsb (fun a => canon a =? canon c) (members cs)
  else inRanges cs c.

Fixpoint deriv (ic : bool) (r : Regex) (c : N) : Regex :=
  match r with
  | Void => Void
  | Eps => Void
  | Class cs => if classMatches ic cs c then Eps else Void
  | Seq r1 r2 =>
      alt' (seq' (deriv ic r1 c) r2)
           (if nullable r1 then deriv ic r2 c else Void)
  | Alt r1 r2 => alt' (deriv ic r1 c) (deriv ic r2 c)
  | Star r1 => seq' (deriv ic r1 c) (Star r1)
  | Rep r1 lo hi =>
      match hi with
      | O => Void
      | S hi' => seq' (deriv ic r1 c) (Rep r1 (Nat.pred lo) hi')
      end
  | CaptureRun n => if isLineTerminator c then Void else SameRun c n
  | SameRun c0 n => if sameChar ic c0 c then SameRun c0 (Nat.pred n) else Void
  end.

(** A match that starts at the head of [s]: it may stop anywhere unless
    the pattern ends in [$]. *)
Fixpoint matchHere (ic atEnd : bool) (r : Regex) (s : jsstring) : bool :=
  match s with
  | [] => nullable r
  | c :: s' =>
      (negb atEnd && nullable r) || matchHere ic atEnd (deriv ic r c) s'
  end.

(** Every start index is tried unless the pattern starts with [^]. *)
Fixpoint matchAnywhere (ic atEnd : bool) (r : Regex) (s : jsstring) : bool :=
  matchHere ic atEnd r s ||
  match s with
  | [] => false
  | _ :: s' => matchAnywhere ic atEnd r s'
  end.
End Engine.

(** What it means for a string to match an expression, read off ECMA-262:
    the matcher above is checked against it ([matchHere_spec]). *)
Inductive Matches (canon : N -> N) (ic : bool) : Regex -> jsstring -> Prop :=
| MEps : Matches canon ic Eps []
| MClass (cs : list (N * N)) (c : N) :
    classMatches canon ic cs c = true -> Matches canon ic (Class cs) [c]
| MSeq (r1 r2 : Regex) (s1 s2 : jsstring) :
    Matches canon ic r1 s1 -> Matches canon ic r2 s2 ->
    Matches canon ic (Seq r1 r2) (s1 ++ s2)
| MAltL (r1 r2 : Regex) (s : jsstring) :
    Matches canon ic r1 s -> Matches canon ic (Alt r1 r2) s
| MAltR (r1 r2 : Regex) (s : jsstring) :
    Matches canon ic r2 s -> Matches canon ic (Alt r1 r2) s
| MStarNil (r : Regex) : Matches canon ic (Star r) []
| MStarCons (r : Regex) (s1 s2 : jsstring) :
    Matches canon ic r s1 -> Matches canon ic (Star r) s2 ->
    Matches canon ic (Star r) (s1 ++ s2)
| MRepNil (r : Regex) (hi : nat) : Matches canon ic (Rep r 0 hi) []
| MRepCons (r : Regex) (lo hi : nat) (s1 s2 : jsstring) :
    Matches canon ic r s1 -> Matches canon ic (Rep r (Nat.pred lo) hi) s2 ->
    Matches canon ic (Rep r lo (S hi)) (s1 ++ s2)
| MCapture (n : nat) (c : N) (s : jsstring) :
    isLineTerminator c = false -> Matches canon ic (SameRun c n) s ->
    Matches canon ic (CaptureRun n) (c :: s)
| MSameNil (c : N) : Matches canon ic (SameRun c 0) []
| MSameCons (c : N) (n : nat) (d : N) (s : jsstring) :
    sameChar canon ic c d = true -> Matches canon ic (SameRun c (Nat.pred n)) s ->
    Matches canon ic (SameRun c n) (d :: s).

(** Expressions whose bounded repetitions repeat something non-empty, as all
    those of the validator do. *)
Fixpoint wfRegexb (r : Regex) : bool :=
  match r with
  | Seq r1 r2 => wfRegexb r1 && wfRegexb r2
  | Alt r1 r2 => wfRegexb r1 && wfRegexb r2
  | Star r1 => wfRegexb r1
  | Rep r1 _ _ => negb (nullable r1) && wfRegexb r1
  | _ => true
  end.

(** The classes and expressions that mention Basic Latin code units only. *)
Definition latinClassb (cs : list (N * N)) : bool :=
  forallb (fun p => snd p <? 128) cs.

Fixpoint latinRegexb (r : Regex) : bool :=
  match r with
  | Class cs => latinClassb cs
  | Seq r1 r2 => latinRegexb r1 && latinRegexb r2
  | Alt r1 r2 => latinRegexb r1 && latinRegexb r2
  | Star r1 => latinRegexb r1
  | Rep r1 _ _ => latinRegexb r1
  | SameRun c _ => c <? 128
  | _ => true
  end.

(** A regular expression literal [/^body$/i] with its anchors and flag. *)
Record RegExp : Type := {
  atStart : bool;
  body : Regex;
  atEnd : bool;
  ignoreCase : bool
}.

Definition test `{Unicode} (re : RegExp) (s : jsstring) : bool :=
  if atStart re
  then matchHere Canonicalize (ignoreCase re) (atEnd re) (body re) s
  else matchAnywhere Canonicalize (ignoreCase re) (atEnd re) (body re) s.

End Regex.
Import Regex.

(** ** FormValidator (js/main.js) *)

Module FormValidator.

(** [this.errors] *)
Module errors.
Definition REQUIRED : jsstring := lit "This field is required".
Definition INVALID_EMAIL : jsstring := lit "Please enter a valid email address".
Definition TOO_LONG : jsstring :=
  lit "Email address is too long (maximum 254 characters)".
Definition DISPOSABLE_EMAIL : jsstring := lit "Please use a permanent email address".
Definition GENERIC_ERROR : jsstring :=
  lit "Please check your email address and try again".
End errors.

(** [[a-zA-Z0-9.!#$%&'*+/=?^_`{|}~-]] *)
Definition localClass : list (N * N) :=
  [ rng "a" "z"; rng "A" "Z"; rng "0" "9"; one "."; one "!"; one "#"; one "$";
    one "%"; one "&"; one "'"; one "*"; one "+"; one "/"; one "="; one "?";
    one "^"; one "_"; one "`"; one "{"; one "|"; one "}"; one "~"; one "-" ]%char.

(** [[a-zA-Z0-9]] and [[a-zA-Z0-9-]] *)
Definition alnumClass : list (N * N) :=
  [ rng "a" "z"; rng "A" "Z"; rng "0" "9" ]%char.
Definition alnumHyphenClass : list (N * N) :=
  [ rng "a" "z"; rng "A" "Z"; rng "0" "9"; one "-" ]%char.

(** [[a-zA-Z0-9](?:[a-zA-Z0-9-]{0,61}[a-zA-Z0-9])?] *)
Definition domainLabel : Regex :=
  Seq (Class alnumClass)
      (Opt (Seq (Rep (Class alnumHyphenClass) 0 61) (Class alnumClass))).

(** [this.emailRegex] *)
Definition emailRegex : RegExp :=
  {| atStart := true;
     body := Seq (Plus (Class localClass))
                 (Seq (Chr "@")
                      (Seq domainLabel (Star (Seq (Chr ".") domainLabel))));
     atEnd := true;
     ignoreCase := false |}.

(** [this.disposableDomains] *)
Definition disposableDomains : list jsstring :=
  [ lit "10minutemail.com"; lit "tempmail.org"; lit "guerrillamail.com";
    lit "mailinator.com"; lit "temp-mail.org"; lit "throwaway.email" ].

(** The patterns of [isSuspiciousEmail], in source order. *)
Definition suspiciousPatterns : list RegExp :=
  [ {| atStart := true;  body := Str "test@";       atEnd := false; ignoreCase := true |};
    {| atStart := true;  body := Str "fake@";       atEnd := false; ignoreCase := true |};
    {| atStart := true;  body := Str "spam@";       atEnd := false; ignoreCase := true |};
    {| atStart := true;  body := Str "noreply@";    atEnd := false; ignoreCase := true |};
    {| atStart := false; body := Str "example.com"; atEnd := true;  ignoreCase := true |};
    {| atStart := false; body := Str "localhost";   atEnd := true;  ignoreCase := true |};
    {| atStart := false; body := Str ".local";      atEnd := true;  ignoreCase := true |};
    {| atStart := true;  body := Seq (Plus (Class [rng "0" "9"]%char)) (Chr "@");
       atEnd := false; ignoreCase := false |};
    {| atStart := true;  body := Seq (Rep (Class [rng "a" "z"]%char) 1 1) (Chr "@");
       atEnd := false; ignoreCase := true |};
    {| atStart := false; body := Seq (CaptureRun 4) (Chr "@");
       atEnd := false; ignoreCase := true |} ].

Record ValidationResult : Type := {
  isValid : bool;
  error : option jsstring;
  value : jsstring
}.

(** The result of [validateFormData]: [errors.email] and [data.email] are the
    only properties ever set. *)
Record FormValidation : Type := {
  formIsValid : bool;
  errors_email : option jsstring;
  data_email : option jsstring
}.

Section Validator.
Context `{U : Unicode}.

Definition isSuspiciousEmail (email : jsstring) : bool :=
  existsb (fun pattern => test pattern email) suspiciousPatterns.

(** [validateEmail(email)]; [None] is a [null] or [undefined] argument. *)
Definition validateEmail (email : option jsstring) : ValidationResult :=
  let value :=
    match email with
    | Some (c :: e) => toLowerCase (trim (c :: e))
    | _ => []
    end in
  if negb (truthy value) then
    {| isValid := false; error := Some errors.REQUIRED; value := value |}
  else if (254 <? length value)%nat then
    {| isValid := false; error := Some errors.TOO_LONG; value := value |}
  else if negb (test emailRegex value) then
    {| isValid := false; error := Some errors.INVALID_EMAIL; value := value |}
  else
    let domain := nth_error (split (ch "@") value) 1 in
    if match domain with
       | Some d => existsb (JsString.eqb d) disposableDomains
       | None => false
       end
    then {| isValid := false; error := Some errors.DISPOSABLE_EMAIL; value := value |}
    else if isSuspiciousEmail value then
      {| isValid := false; error := Some errors.INVALID_EMAIL; value := value |}
    else {| isValid := true; error := None; value := value |}.

(** [validateFormData(formData)], with [formData.get('email')] as argument. *)
Definition validateFormData (email : option jsstring) : FormValidation :=
  let emailResult := validateEmail email in
  if negb (isValid emailResult)
  then {| formIsValid := false; errors_email := error emailResult; data_email := None |}
  else {| formIsValid := true; errors_email := None; data_email := Some (value emailResult) |}.

End Validator.
End FormValidator.
Import FormValidator.

(** The shape [emailRegex] describes, in words of its own: a domain is a
    list of labels joined by dots; a label has 1 to 63 units, letters, digits
    and hyphens, and neither starts nor ends with a hyphen. *)
Definition isDomainLabel (l : jsstring) : bool :=
  match l with
  | [] => false
  | c :: m =>
      inRanges alnumClass c
      && forallb (inRanges alnumHyphenClass) m
      && inRanges alnumClass (List.last m c)
      && (length l <=? 63)%nat
  end.

Definition dotted (labels : list jsstring) : jsstring :=
  match labels with
  | [] => []
  | l0 :: ls => l0 ++ flat_map (fun l => ch "." :: l) ls
  end.

Definition isAddressShape (local : jsstring) (labels : list jsstring) : bool :=
  JsString.truthy local
  && forallb (inRanges localClass) local
  && negb (Nat.eqb (length labels) 0)
  && forallb isDomainLabel labels.

(** ** JSON values and asynchronous effects *)

Module Js.

(** A parsed JSON value; numbers are kept as integers, only their being zero
    or not is ever inspected. *)
#[warnings="-register-all"]
Inductive Json : Type :=
| JNull
| JBool (b : bool)
| JNum (z : Z)
| JStr (s : jsstring)
| JArr (items : list Json)
| JObj (fields : list (jsstring * Json)).

(** A JavaScript value read from a property: [None] is [undefined]. *)
Definition Value : Type := option Json.

Definition truthy (v : Value) : bool :=
  match v with
  | None => false
  | Some JNull => false
  | Some (JBool b) => b
  | Some (JNum z) => negb (z =? 0)%Z
  | Some (JStr s) => JsString.truthy s
  | Some (JArr _) => true
  | Some (JObj _) => true
  end.

Fixpoint lookup (k : jsstring) (fields : list (jsstring * Json)) : Value :=
  match fields with
  | [] => None
  | (k', v) :: rest => if JsString.eqb k k' then Some v else lookup k rest
  end.

(** [j.k] for one of the property names the source reads ([email], [source],
    [error], [access_token], [code], [message]): [None] when reading from
    [null] throws a TypeError, [Some v] otherwise.  Only objects own such
    properties. *)
Definition prop (j : Json) (k : string) : option Value :=
  match j with
  | JNull => None
  | JObj fields => Some (lookup (lit k) fields)
  | _ => Some None
  end.

(** [a || b] *)
Definition or_else (a b : Value) : Value := if truthy a then a else b.

(** Strict equality with a string literal: [v === s]. *)
Definition is_str (v : Value) (s : jsstring) : bool :=
  match v with
  | Some (JStr t) => JsString.eqb t s
  | _ => false
  end.

(** The outcome of running a piece of code: it returns or it throws. *)
Inductive Outcome (E A : Type) : Type :=
| Returned (a : A)
| Thrown (e : E).
Arguments Returned {E A} a.
Arguments Thrown {E A} e.

(** An asynchronous computation over a log of effects of type [L], oldest
    first, with errors of type [E]. *)
Definition Async (L E A : Type) : Type := list L -> Outcome E A * list L.

Definition ret {L E A} (a : A) : Async L E A := fun l => (Returned a, l).

Definition throw {L E A} (e : E) : Async L E A := fun l => (Thrown e, l).

Definition bind {L E A B} (m : Async L E A) (k : A -> Async L E B) : Async L E B :=
  fun l =>
    match m l with
    | (Returned a, l') => k a l'
    | (Thrown e, l') => (Thrown e, l')
    end.

Definition emit {L E} (x : L) : Async L E unit := fun l => (Returned tt, l ++ [x]).

(** [try { m } catch (e) { h e }] *)
Definition try_catch {L E A} (m : Async L E A) (h : E -> Async L E A) : Async L E A :=
  fun l =>
    match m l with
    | (Returned a, l') => (Returned a, l')
    | (Thrown e, l') => h e l'
    end.

(** Lifting a value that may have failed to be produced. *)
Definition or_throw {L E A} (o : option A) (e : E) : Async L E A :=
  match o with
  | Some a => ret a
  | None => throw e
  end.

End Js.
Import Js.

Notation "'let*' x ':=' m 'in' k" := (bind m (fun x => k))
  (at level 10, x pattern, m at level 100, k at level 200).
Notation "m ';;' k" := (bind m (fun _ => k))
  (at level 100, k at level 200, right associativity).

(** ** The serverless function (api/email-capture.js) *)

Module EmailCapture.

(** Errors thrown inside the function, by the statement that throws them. *)
Inductive ZohoError : Type :=
| CredentialsNotConfigured          (* 'Zoho OAuth credentials not configured' *)
| ListKeyNotConfigured              (* 'Zoho Campaigns list key not configured' *)
| TokenRefreshFailed (status : N) (detail : Value)
                                    (* `Failed to refresh token: ${data.error || response.status}` *)
| InvalidZohoResponse               (* 'Invalid response from Zoho API' *)
| ZohoApiStatus (status : N) (data : Json)
                                    (* `Zoho API error: ${response.status} - ...` *)
| ZohoApiCode (detail : Value)      (* `Zoho API error: ${data.message || data.code}` *)
| FetchRejected                     (* fetch() rejected: the network failed *)
| JsonSyntaxError                   (* response.json() rejected *)
| TypeError.                        (* a property of null, a call of a non-function *)

(** What an upstream endpoint answers: the call is rejected, or a response
    arrives with a status and a body, whose parse by [JSON.parse] is [json]. *)
Record HttpResponse : Type := {
  status : N;
  text : jsstring;
  json : option Json
}.

Inductive FetchResult : Type :=
| Rejects
| Responds (r : HttpResponse).

Definition ok (r : HttpResponse) : bool := (200 <=? status r) && (status r <=? 299).

Record TokenRequest : Type := {
  refresh_token : jsstring;
  client_id : jsstring;
  client_secret : jsstring
}.

Record BulkRequest : Type := {
  oauthtoken : Value;        (* the Authorization header carries it *)
  listkey : jsstring;
  emailids : Json
}.

(** The two upstream endpoints. *)
Record Upstream : Type := {
  tokenEndpoint : TokenRequest -> FetchResult;
  bulkEndpoint : BulkRequest -> FetchResult
}.

Inductive Effect : Type :=
| FetchToken (r : TokenRequest)
| FetchBulk (r : BulkRequest)
| ConsoleLog (what : string)
| ConsoleError (what : string) (e : option ZohoError).

Definition isFetch (x : Effect) : bool :=
  match x with
  | FetchToken _ | FetchBulk _ => true
  | _ => false
  end.

(** The outbound network calls recorded in a log. *)
Definition fetches (l : list Effect) : list Effect := List.filter isFetch l.

Inductive Body : Type :=
| NoBody                    (* res.end() *)
| JsonBody (j : Json).      (* res.json(j) *)

Record Response : Type := {
  statusCode : N;
  headers : list (string * string);
  resBody : Body
}.

Record Request : Type := {
  method : jsstring;
  body : Value
}.

Definition corsHeaders : list (string * string) :=
  [ ("Access-Control-Allow-Origin", "*");
    ("Access-Control-Allow-Methods", "POST, OPTIONS");
    ("Access-Control-Allow-Headers", "Content-Type") ]%string.

Definition successMessage : jsstring :=
  lit "Thank you! We'll notify you as soon as the agenda is available.".
Definition softMessage : jsstring :=
  lit "Thank you for your interest! We'll be in touch soon.".
Definition invalidMessage : jsstring := lit "Please provide a valid email address".
Definition methodMessage : jsstring := lit "Method not allowed".
Definition errorMessage : jsstring := lit "An error occurred. Please try again.".
Definition defaultSource : jsstring := lit "career-launch-landing".

Section Function.
(** [process.env] and the upstream services. *)
Variable env : gmap string jsstring.
Variable upstream : Upstream.

Local Abbreviation M := (Async Effect ZohoError).

(** [!process.env.NAME] is false: the variable is set and not empty. *)
Definition configured (name : string) : option jsstring :=
  match env !! name with
  | Some (c :: v) => Some (c :: v)
  | _ => None
  end.

Definition fetchToken (r : TokenRequest) : M HttpResponse :=
  emit (FetchToken r);;
  match tokenEndpoint upstream r with
  | Rejects => throw FetchRejected
  | Responds resp => ret resp
  end.

Definition fetchBulk (r : BulkRequest) : M HttpResponse :=
  emit (FetchBulk r);;
  match bulkEndpoint upstream r with
  | Rejects => throw FetchRejected
  | Responds resp => ret resp
  end.

Definition getZohoAccessToken : M Value :=
  match configured "ZOHO_CAMPAIGNS_CLIENT_ID",
        configured "ZOHO_CAMPAIGNS_CLIENT_SECRET",
        configured "ZOHO_CAMPAIGNS_REFRESH_TOKEN" with
  | Some clientId, Some clientSecret, Some refreshToken =>
      let* response :=
        fetchToken {| refresh_token := refreshToken;
                      client_id := clientId;
                      client_secret := clientSecret |} in
      let* data := or_throw (json response) JsonSyntaxError in
      let* failed :=
        (if negb (ok response) then ret true
         else let* e := or_throw (prop data "error") TypeError in
              ret (truthy e)) in
      if (failed : bool) then
        let* e := or_throw (prop data "error") TypeError in
        throw (TokenRefreshFailed (status response) e)
      else
        or_throw (prop data "access_token") TypeError
  | _, _, _ => throw CredentialsNotConfigured
  end.

Definition subscribeToZohoCampaigns (email : Json) (source : Json) : M Json :=
  match configured "ZOHO_CAMPAIGNS_LIST_KEY" with
  | None => throw ListKeyNotConfigured
  | Some listKey =>
      let* accessToken := getZohoAccessToken in
      emit (ConsoleLog "Zoho API request for email:");;
      (* accessToken.substring(0, 20) is a call only a string allows *)
      (if truthy accessToken
       then match accessToken with
            | Some (JStr _) => ret tt
            | _ => throw TypeError
            end
       else ret tt);;
      emit (ConsoleLog "Access token:");;
      let* response :=
        fetchBulk {| oauthtoken := accessToken;
                     listkey := listKey;
                     emailids := email |} in
      emit (ConsoleLog "Zoho API raw response:");;
      let* data :=
        try_catch (or_throw (json response) JsonSyntaxError)
                  (fun _ =>
                     emit (ConsoleError "Failed to parse Zoho response as JSON" None);;
                     throw InvalidZohoResponse) in
      if negb (ok response) then throw (ZohoApiStatus (status response) data)
      else
        let* code := or_throw (prop data "code") TypeError in
        if truthy code && negb (is_str code (lit "0")) then
          let* message := or_throw (prop data "message") TypeError in
          throw (ZohoApiCode (or_else message code))
        else ret data
  end.

(** [email.includes('@')]: a string is searched for the character, an array
    for an element equal to the string; any other truthy value has no
    [includes] to call. *)
Definition includesAt (email : Json) : option bool :=
  match email with
  | JStr s => Some (includes s (lit "@"))
  | JArr items => Some (existsb (fun x => is_str (Some x) (lit "@")) items)
  | _ => None
  end.

Definition respond (code : N) (b : Body) : Response :=
  {| statusCode := code; headers := corsHeaders; resBody := b |}.

Definition message_only (m : jsstring) : Body :=
  JsonBody (JObj [(lit "message", JStr m)]).

Definition acknowledgment (m : jsstring) (email source : Json) : Body :=
  JsonBody (JObj [(lit "message", JStr m); (lit "email", email); (lit "source", source)]).

(** [source || 'career-launch-landing'] *)
Definition sourceOrDefault (source : Value) : Json :=
  match or_else source (Some (JStr defaultSource)) with
  | Some s => s
  | None => JStr defaultSource
  end.

(** The body of the outer [try] of [handler]. *)
Definition capture (req : Request) : M Response :=
  let* b := or_throw (match body req with
                      | None | Some JNull => None
                      | Some b => Some b
                      end) TypeError in
  let* email := or_throw (prop b "email") TypeError in
  let* source := or_throw (prop b "source") TypeError in
  match email with
  | Some e =>
      if negb (truthy email) then ret (respond 400 (message_only invalidMessage))
      else
        let* hasAt := or_throw (includesAt e) TypeError in
        if negb hasAt then ret (respond 400 (message_only invalidMessage))
        else
          let emailSource := sourceOrDefault source in
          try_catch
            (subscribeToZohoCampaigns e emailSource;;
             emit (ConsoleLog "Email subscribed to Zoho Campaigns:");;
             ret (respond 200 (acknowledgment successMessage e emailSource)))
            (fun zohoError =>
               emit (ConsoleError "Zoho Campaigns error:" (Some zohoError));;
               emit (ConsoleError "Full error:" (Some zohoError));;
               emit (ConsoleLog "Email captured (Zoho failed):");;
               ret (respond 200 (acknowledgment softMessage e emailSource)))
  | None => ret (respond 400 (message_only invalidMessage))
  end.

(** [handler(req, res)]: the response sent and the log it leaves. *)
Definition handler (req : Request) (l : list Effect) : Response * list Effect :=
  if JsString.eqb (method req) (lit "OPTIONS") then (respond 200 NoBody, l)
  else if negb (JsString.eqb (method req) (lit "POST"))
  then (respond 405 (message_only methodMessage), l)
  else
    match capture req l with
    | (Returned r, l') => (r, l')
    | (Thrown e, l') =>
        (respond 500 (message_only errorMessage),
         l' ++ [ConsoleError "Error in email capture:" (Some e)])
    end.

End Function.

(** The caller's view of a response: [response.ok] and the [message] shown. *)
Definition response_ok (r : Response) : bool :=
  (200 <=? statusCode r) && (statusCode r <=? 299).

Definition userMessage (r : Response) : Value :=
  match resBody r with
  | JsonBody j => match prop j "message" with Some v => v | None => None end
  | NoBody => None
  end.

(** A bulk-subscribe answer that [subscribeToZohoCampaigns] treats as a
    failure: the call is rejected, the body is not JSON, the status is not a
    success, or the JSON body carries a [code] other than ['0'] (or is
    [null]). *)
Definition bulkFails (r : FetchResult) : bool :=
  match r with
  | Rejects => true
  | Responds resp =>
      match json resp with
      | None => true
      | Some data =>
          negb (ok resp)
          || match prop data "code" with
             | None => true
             | Some code => truthy code && negb (is_str code (lit "0"))
             end
      end
  end.

(** One of the three OAuth credentials is absent from the environment. *)
Definition credentialsAbsent (env : gmap string jsstring) : Prop :=
  configured env "ZOHO_CAMPAIGNS_CLIENT_ID" = None
  \/ configured env "ZOHO_CAMPAIGNS_CLIENT_SECRET" = None
  \/ configured env "ZOHO_CAMPAIGNS_REFRESH_TOKEN" = None.

(** The token request is built from the three credentials of the
    environment. *)
Definition credentialsOf (env : gmap string jsstring) (t : TokenRequest) : Prop :=
  configured env "ZOHO_CAMPAIGNS_CLIENT_ID" = Some (client_id t)
  /\ configured env "ZOHO_CAMPAIGNS_CLIENT_SECRET" = Some (client_secret t)
  /\ configured env "ZOHO_CAMPAIGNS_REFRESH_TOKEN" = Some (refresh_token t).

(** A token answer that [getZohoAccessToken] treats as a failure: the call is
    rejected, the body is not JSON, the status is not a success, or the JSON
    body is [null] or carries a truthy [error]. *)
Definition tokenFails (r : FetchResult) : bool :=
  match r with
  | Rejects => true
  | Responds resp =>
      match json resp with
      | None => true
      | Some data =>
          negb (ok resp)
          || match prop data "error" with
             | None => true
             | Some e => truthy e
             end
      end
  end.

(** The [access_token] read from a token answer ([undefined] when there is
    none), and whether [subscribeToZohoCampaigns] can go on with it: it
    calls [substring] on a truthy token, which only a string has. *)
Definition accessTokenOf (r : FetchResult) : Value :=
  match r with
  | Rejects => None
  | Responds resp =>
      match json resp with
      | Some d => match prop d "access_token" with Some v => v | None => None end
      | None => None
      end
  end.

Definition tokenUsable (tok : Value) : bool :=
  negb (truthy tok) || match tok with Some (JStr _) => true | _ => false end.

(** Everything a subscription needs: the list key and the credentials in the
    environment, a token answer that is no failure and gives a usable token,
    and an answer to the bulk request made with it that is no failure. *)
Definition subscribes (env : gmap string jsstring) (upstream : Upstream)
           (email : Json) : Prop :=
  exists key t,
    configured env "ZOHO_CAMPAIGNS_LIST_KEY" = Some key
    /\ credentialsOf env t
    /\ tokenFails (tokenEndpoint upstream t) = false
    /\ tokenUsable (accessTokenOf (tokenEndpoint upstream t)) = true
    /\ bulkFails (bulkEndpoint upstream
                    {| oauthtoken := accessTokenOf (tokenEndpoint upstream t);
                       listkey := key;
                       emailids := email |}) = false.

Definition isBulk (x : Effect) : bool :=
  match x with
  | FetchBulk _ => true
  | _ => false
  end.

(** Sample surroundings: a configured environment, one without the client
    secret, an upstream that works, one whose bulk endpoint answers 500. *)
Module Scenario.

Definition env : gmap string jsstring :=
  <["ZOHO_CAMPAIGNS_CLIENT_ID" := lit "1000.ABC"]>
  (<["ZOHO_CAMPAIGNS_CLIENT_SECRET" := lit "s3cr3t"]>
   (<["ZOHO_CAMPAIGNS_REFRESH_TOKEN" := lit "1000.refresh"]>
    (<["ZOHO_CAMPAIGNS_LIST_KEY" := lit "listkey"]> ∅))).

Definition envNoSecret : gmap string jsstring :=
  <["ZOHO_CAMPAIGNS_CLIENT_SECRET" := []]> env.

Definition tokenOk : FetchResult :=
  Responds {| status := 200;
              text := lit "{...}";
              json := Some (JObj [(lit "access_token", JStr (lit "1000.token"))]) |}.

Definition upstreamOk : Upstream :=
  {| tokenEndpoint := fun _ => tokenOk;
     bulkEndpoint := fun _ =>
       Responds {| status := 200;
                   text := lit "{...}";
                   json := Some (JObj [(lit "code", JStr (lit "0"))]) |} |}.

Definition upstream500 : Upstream :=
  {| tokenEndpoint := fun _ => tokenOk;
     bulkEndpoint := fun _ =>
       Responds {| status := 500;
                   text := lit "{...}";
                   json := Some (JObj [(lit "message", JStr (lit "Internal Server Error"))]) |} |}.

(** The token endpoint answers 401 with an [error]. *)
Definition upstreamNoToken : Upstream :=
  {| tokenEndpoint := fun _ =>
       Responds {| status := 401;
                   text := lit "{...}";
                   json := Some (JObj [(lit "error", JStr (lit "invalid_client"))]) |};
     bulkEndpoint := bulkEndpoint upstreamOk |}.

Definition fields : list (jsstring * Json) :=
  [(lit "email", JStr (lit "jane.doe@schoolboard.org"))].

Definition post : Request :=
  {| method := lit "POST"; body := Some (JObj fields) |}.

Definition get : Request :=
  {| method := lit "GET"; body := None |}.

End Scenario.

End EmailCapture.

(** ** FormHandler (js/components/form-handler.js) *)

Module FormHandler.

(** [this.apiConfig] *)
Record ApiConfig : Type := {
  endpoint : jsstring;
  timeout : N;
  maxRetries : nat;
  retryDelay : N
}.

Definition apiConfig : ApiConfig :=
  {| endpoint := lit "https://forms.zohopublic.com/api/v1/json/forms/{form_id}/entries";
     timeout := 10000;
     maxRetries := 3;
     retryDelay := 1000 |}.

(** A value that reaches a [catch] clause or [handleError]: a string, an
    [Error] (or [DOMException]) with its [message], or [null]/[undefined]. *)
Inductive ErrorValue : Type :=
| EStr (s : jsstring)
| EErr (message : jsstring)
| ENullish.

Record Payload : Type := {
  email : jsstring;
  source : jsstring;
  timestamp : jsstring;
  referrer : jsstring;
  userAgent : jsstring;
  event : jsstring
}.

(** The object [makeApiCall] and [simulateApiCall] resolve to. *)
Record ApiResult : Type := {
  success : bool;
  data : Value;
  error : option jsstring
}.

(** How one [fetch] settles when it is left alone: it rejects with a network
    error, or a response arrives, whose body [response.json()] parses or
    rejects with a message. *)
Inductive Settle : Type :=
| NetworkError (message : jsstring)
| Response (status : N) (statusText : jsstring) (json : Json + jsstring).

(** One exchange with the endpoint: after [latency] milliseconds it settles. *)
Record Exchange : Type := {
  latency : N;
  settles : Settle
}.

Inductive TimerAction : Type :=
| ResetForm
| RemoveSuccessClass
| ClearAnnouncement.

Inductive Effect : Type :=
| Fetch (p : Payload)                     (* an outbound network request *)
| Delay (ms : N)                          (* await this.delay(ms) *)
| Console (what : string)
| Random                                  (* Math.random() *)
| SetTimeout (ms : N) (a : TimerAction).

Definition isFetch (x : Effect) : bool :=
  match x with Fetch _ => true | _ => false end.
Definition isRandom (x : Effect) : bool :=
  match x with Random => true | _ => false end.
Definition isDelay (x : Effect) : bool :=
  match x with Delay _ => true | _ => false end.

(** The number of outbound requests in a log. *)
Definition fetchCount (l : list Effect) : nat := length (List.filter isFetch l).

(** The page's surroundings: where it is served from, what the network
    answers to the n-th request, the message of the engine's AbortError, the
    draws of [Math.random] (as the test [< 0.9]) and the clock. *)
Record Browser : Type := {
  hostname : jsstring;
  protocol : jsstring;
  net : nat -> Exchange;
  abortMessage : jsstring;
  randomBelow09 : nat -> bool;
  document_referrer : jsstring;
  navigator_userAgent : jsstring;
  isoNow : jsstring;
  dateNow : N
}.

(** The state of one form instance, with the part of the page it owns. *)
Record Form : Type := {
  isSubmitting : bool;
  submitAttempts : nat;
  emailInput_value : jsstring;
  emailInput_disabled : bool;
  button_loading : bool;         (* class 'loading', disabled, aria-busy *)
  button_success : bool;         (* class 'success' *)
  errorShown : option jsstring;  (* the field's error element, when visible *)
  successText : jsstring;
  successVisible : bool;
  announcement : jsstring
}.

Definition decimal (n : N) : jsstring :=
  lit (DecimalString.NilZero.string_of_uint (N.to_uint n)).

Definition okStatus (st : N) : bool := (200 <=? st) && (st <=? 299).

(** [getErrorMessage(error)]; [None] when [errorMessage.includes] is not a
    function and the call throws a TypeError. *)
Definition networkSentence : jsstring :=
  lit "Please check your internet connection and try again.".
Definition timeoutSentence : jsstring := lit "Request timed out. Please try again.".
Definition invalidSentence : jsstring :=
  lit "Invalid email address. Please check and try again.".
Definition rateSentence : jsstring :=
  lit "Too many requests. Please wait a moment and try again.".
Definition serviceSentence : jsstring :=
  lit "Service temporarily unavailable. Please try again in a few minutes.".
Definition unknownSentence : jsstring := lit "Something went wrong. Please try again.".

(** [error?.message || error], when it is a string. *)
Definition errorMessageOf (error : ErrorValue) : option jsstring :=
  match error with
  | EStr s => Some s
  | EErr m => if JsString.truthy m then Some m else None
  | ENullish => None
  end.

Definition sentenceFor (errorMessage : jsstring) : jsstring :=
  if includes errorMessage (lit "Failed to fetch")
     || includes errorMessage (lit "NetworkError") then networkSentence
  else if includes errorMessage (lit "timeout")
          || includes errorMessage (lit "aborted") then timeoutSentence
  else if includes errorMessage (lit "400") then invalidSentence
  else if includes errorMessage (lit "429") then rateSentence
  else if includes errorMessage (lit "500") || includes errorMessage (lit "502")
          || includes errorMessage (lit "503") then serviceSentence
  else unknownSentence.

Definition getErrorMessage (error : ErrorValue) : option jsstring :=
  match errorMessageOf error with
  | Some errorMessage => Some (sentenceFor errorMessage)
  | None => None
  end.

(** One of the specific cases of [getErrorMessage] applies. *)
Definition matchesSpecific (errorMessage : jsstring) : bool :=
  includes errorMessage (lit "Failed to fetch")
  || includes errorMessage (lit "NetworkError")
  || includes errorMessage (lit "timeout")
  || includes errorMessage (lit "aborted")
  || includes errorMessage (lit "400")
  || includes errorMessage (lit "429")
  || includes errorMessage (lit "500")
  || includes errorMessage (lit "502")
  || includes errorMessage (lit "503").

Definition sentences : list jsstring :=
  [ networkSentence; timeoutSentence; invalidSentence; rateSentence;
    serviceSentence; unknownSentence ].

(** [result.error || 'Submission failed'] *)
Definition errorOrDefault (result : ApiResult) : jsstring :=
  match error result with
  | Some m => if JsString.truthy m then m else lit "Submission failed"
  | None => lit "Submission failed"
  end.

Section Instance.
Context `{U : Unicode}.
Variable cfg : ApiConfig.
Variable browser : Browser.

(** [isDevelopment()] *)
Definition isDevelopment : bool :=
  JsString.eqb (hostname browser) (lit "localhost")
  || JsString.eqb (hostname browser) (lit "127.0.0.1")
  || JsString.eqb (protocol browser) (lit "file:")
  || includes (hostname browser) (lit "dev")
  || includes (hostname browser) (lit "staging").

(** How the [try] block of [makeApiCall] ends for one exchange: the result
    is returned, or an error reaches the [catch] clause together with
    [controller.signal.aborted].  The timer aborts the request when it has
    not settled within [timeout] milliseconds. *)
Definition outcomeOf (x : Exchange) : ApiResult + ErrorValue * bool :=
  if timeout cfg <=? latency x then inr (EErr (abortMessage browser), true)
  else
    match settles x with
    | NetworkError m => inr (EErr m, false)
    | Response st stText body =>
        if negb (okStatus st)
        then inr (EErr (lit "API Error: " ++ decimal st ++ lit " " ++ stText), false)
        else match body with
             | inl result =>
                 inl {| success := true; data := Some result; error := None |}
             | inr m => inr (EErr m, false)
             end
    end.

(** The [try] block of [makeApiCall]: the request is issued and answered by
    the next exchange of the network. *)
Definition attempt (payload : Payload) (l : list Effect)
  : (ApiResult + ErrorValue * bool) * list Effect :=
  (outcomeOf (net browser (fetchCount l)), l ++ [Fetch payload]).

(** [makeApiCall(payload, retryCount)] *)
Equations? makeApiCall (payload : Payload) (retryCount : nat) (l : list Effect)
  : Outcome ErrorValue ApiResult * list Effect
  by wf (maxRetries cfg - retryCount)%nat lt :=
makeApiCall payload retryCount l with attempt payload l := {
  | (inl result, l1) := (Returned result, l1);
  | (inr (error, aborted), l1) with decide (retryCount < maxRetries cfg)%nat := {
      | left _ with aborted := {
          | false :=
              makeApiCall payload (S retryCount)
                (l1 ++ [Delay (retryDelay cfg * N.of_nat (retryCount + 1))]);
          | true := (Thrown error, l1) };
      | right _ := (Thrown error, l1) } }.
Proof. lia. Qed.

(** The effects of an attempt that is followed by [n] retries, starting at
    [retryCount]: requests separated by the backoff delays. *)
Fixpoint retryTrace (payload : Payload) (retryCount n : nat) : list Effect :=
  match n with
  | O => [Fetch payload]
  | S n' =>
      Fetch payload
      :: Delay (retryDelay cfg * N.of_nat (retryCount + 1))
      :: retryTrace payload (S retryCount) n'
  end.

(** [simulateApiCall(payload)] *)
Definition simulateApiCall (payload : Payload) (l : list Effect)
  : Outcome ErrorValue ApiResult * list Effect :=
  let l1 := l ++ [Console "Development mode: Simulating Zoho API call"; Delay 1500] in
  let draw := randomBelow09 browser (length (List.filter isRandom l1)) in
  let l2 := l1 ++ [Random] in
  if draw then
    (Returned {| success := true;
                 data := Some (JObj [ (lit "id", JStr (lit "test-" ++ decimal (dateNow browser)));
                                      (lit "email", JStr (email payload));
                                      (lit "status", JStr (lit "subscribed")) ]);
                 error := None |}, l2)
  else (Thrown (EErr (lit "Simulated API failure for testing")), l2).

(** [submitToZoho(data)] with [data.email] as argument. *)
Definition payloadOf (data_email : jsstring) : Payload :=
  {| email := data_email;
     source := lit "myblueprint-career-launch-landing";
     timestamp := isoNow browser;
     referrer := if JsString.truthy (document_referrer browser)
                 then document_referrer browser else lit "direct";
     userAgent := navigator_userAgent browser;
     event := lit "career-launch-agenda-signup" |}.

Definition submitToZoho (payload : Payload) (l : list Effect)
  : Outcome ErrorValue ApiResult * list Effect :=
  if isDevelopment then simulateApiCall payload l
  else makeApiCall payload 0 l.

(** [setLoadingState(loading)] *)
Definition setLoadingState (loading : bool) (f : Form) : Form :=
  {| isSubmitting := isSubmitting f;
     submitAttempts := submitAttempts f;
     emailInput_value := emailInput_value f;
     emailInput_disabled := loading;
     button_loading := loading;
     button_success := button_success f;
     errorShown := errorShown f;
     successText := successText f;
     successVisible := successVisible f;
     announcement := announcement f |}.

Definition set_isSubmitting (b : bool) (f : Form) : Form :=
  {| isSubmitting := b;
     submitAttempts := submitAttempts f;
     emailInput_value := emailInput_value f;
     emailInput_disabled := emailInput_disabled f;
     button_loading := button_loading f;
     button_success := button_success f;
     errorShown := errorShown f;
     successText := successText f;
     successVisible := successVisible f;
     announcement := announcement f |}.

(** [validator.showError(emailInput, message)] and [validator.clearError]. *)
Definition set_error (e : option jsstring) (f : Form) : Form :=
  {| isSubmitting := isSubmitting f;
     submitAttempts := submitAttempts f;
     emailInput_value := emailInput_value f;
     emailInput_disabled := emailInput_disabled f;
     button_loading := button_loading f;
     button_success := button_success f;
     errorShown := e;
     successText := successText f;
     successVisible := successVisible f;
     announcement := announcement f |}.

(** [announceToScreenReader(message)] *)
Definition announceToScreenReader (message : jsstring) (f : Form) (l : list Effect)
  : Form * list Effect :=
  ({| isSubmitting := isSubmitting f;
      submitAttempts := submitAttempts f;
      emailInput_value := emailInput_value f;
      emailInput_disabled := emailInput_disabled f;
      button_loading := button_loading f;
      button_success := button_success f;
      errorShown := errorShown f;
      successText := successText f;
      successVisible := successVisible f;
      announcement := message |},
   l ++ [SetTimeout 1000 ClearAnnouncement]).

(** [showSuccess(message)] *)
Definition showSuccess (message : jsstring) (f : Form) : Form :=
  {| isSubmitting := isSubmitting f;
     submitAttempts := submitAttempts f;
     emailInput_value := emailInput_value f;
     emailInput_disabled := emailInput_disabled f;
     button_loading := button_loading f;
     button_success := button_success f;
     errorShown := None;
     successText := message;
     successVisible := true;
     announcement := announcement f |}.

(** [handleSuccess(result)] *)
Definition handleSuccess (f : Form) (l : list Effect) : Form * list Effect :=
  let f1 := showSuccess
              (lit "Thank you! We'll notify you as soon as the agenda is available.") f in
  let '(f2, l2) :=
    announceToScreenReader
      (lit "Email submitted successfully. You will receive notifications about the career launch agenda.")
      f1 l in
  ({| isSubmitting := isSubmitting f2;
      submitAttempts := submitAttempts f2;
      emailInput_value := emailInput_value f2;
      emailInput_disabled := emailInput_disabled f2;
      button_loading := button_loading f2;
      button_success := true;
      errorShown := errorShown f2;
      successText := successText f2;
      successVisible := successVisible f2;
      announcement := announcement f2 |},
   l2 ++ [SetTimeout 5000 ResetForm; SetTimeout 3000 RemoveSuccessClass]).

(** [handleError(error)]; [None] when [getErrorMessage] throws. *)
Definition handleError (error : ErrorValue) (f : Form) (l : list Effect)
  : option (Form * list Effect) :=
  match getErrorMessage error with
  | Some message =>
      Some (announceToScreenReader (lit "Form submission failed: " ++ message)
                                   (set_error (Some message) f) l)
  | None => None
  end.

(** [resetForm()] *)
Definition resetForm (f : Form) : Form :=
  {| isSubmitting := false;
     submitAttempts := 0;
     emailInput_value := [];
     emailInput_disabled := emailInput_disabled f;
     button_loading := button_loading f;
     button_success := false;
     errorShown := None;
     successText := successText f;
     successVisible := false;
     announcement := announcement f |}.

(** [handleSubmit(e)] up to its [await]: the form after the synchronous part,
    and the payload handed to [submitToZoho] when a submission starts.
    [new FormData(form)] leaves out a disabled control. *)
Definition handleSubmit_begin (f : Form) : Form * option Payload :=
  if isSubmitting f then (f, None)
  else
    let formData_email :=
      if emailInput_disabled f then None else Some (emailInput_value f) in
    let validation := validateFormData formData_email in
    if negb (formIsValid validation) then
      (match errors_email validation with
       | Some m => if JsString.truthy m then set_error (Some m) f else f
       | None => f
       end, None)
    else
      match data_email validation with
      | Some e => (setLoadingState true (set_isSubmitting true f), Some (payloadOf e))
      | None => (f, None)
      end.

(** [handleSubmit(e)] after the [await]: the [try] body, the [catch] clause
    and the [finally] clause.  The flag tells whether an error escapes. *)
Definition handleSubmit_end (outcome : Outcome ErrorValue ApiResult)
           (f : Form) (l : list Effect) : Form * list Effect * bool :=
  let '(f1, l1, escaped) :=
    match outcome with
    | Returned result =>
        if success result then
          let '(f1, l1) := handleSuccess f l in
          (f1, l1 ++ [Console "Conversion tracked:"], false)
        else
          match handleError (EStr (errorOrDefault result)) f l with
          | Some (f1, l1) => (f1, l1, false)
          | None => (f, l, true)
          end
    | Thrown error =>
        let l0 := l ++ [Console "Form submission error:"] in
        match getErrorMessage error with
        | Some m =>
            match handleError (EStr m) f l0 with
            | Some (f1, l1) => (f1, l1, false)
            | None => (f, l0, true)
            end
        | None => (f, l0, true)
        end
    end in
  (setLoadingState false (set_isSubmitting false f1), l1, escaped).

(** [handleSubmit(e)] when nothing else happens while it awaits. *)
Definition handleSubmit (f : Form) (l : list Effect) : Form * list Effect * bool :=
  match handleSubmit_begin f with
  | (f1, Some payload) =>
      let '(outcome, l1) := submitToZoho payload l in
      handleSubmit_end outcome f1 l1
  | (f1, None) => (f1, l, false)
  end.

(** The page: the form, the submissions whose [await] is pending, the log. *)
Record Page : Type := {
  form : Form;
  awaiting : list Payload;
  log : list Effect
}.

Inductive Event : Type :=
| SubmitEvent            (* the form's submit event *)
| EnterKey               (* Enter in the email field *)
| Click                  (* a click on the submit button *)
| Settled                (* the oldest pending submitToZoho settles *)
| Fire (a : TimerAction).

Definition submit (p : Page) : Page :=
  match handleSubmit_begin (form p) with
  | (f, Some payload) =>
      {| form := f; awaiting := awaiting p ++ [payload]; log := log p |}
  | (f, None) => {| form := f; awaiting := awaiting p; log := log p |}
  end.

Definition step (ev : Event) (p : Page) : Page :=
  match ev with
  | SubmitEvent => submit p
  | EnterKey => submit p
  | Click =>
      (* the click listener prevents the default action while submitting;
         otherwise the browser dispatches the submit event *)
      if isSubmitting (form p) then p else submit p
  | Settled =>
      match awaiting p with
      | [] => p
      | payload :: rest =>
          let '(outcome, l1) := submitToZoho payload (log p) in
          let '(f, l2, _) := handleSubmit_end outcome (form p) l1 in
          {| form := f; awaiting := rest; log := l2 |}
      end
  | Fire ResetForm =>
      {| form := resetForm (form p); awaiting := awaiting p; log := log p |}
  | Fire RemoveSuccessClass =>
      {| form := {| isSubmitting := isSubmitting (form p);
                    submitAttempts := submitAttempts (form p);
                    emailInput_value := emailInput_value (form p);
                    emailInput_disabled := emailInput_disabled (form p);
                    button_loading := button_loading (form p);
                    button_success := false;
                    errorShown := errorShown (form p);
                    successText := successText (form p);
                    successVisible := successVisible (form p);
                    announcement := announcement (form p) |};
         awaiting := awaiting p; log := log p |}
  | Fire ClearAnnouncement =>
      {| form := {| isSubmitting := isSubmitting (form p);
                    submitAttempts := submitAttempts (form p);
                    emailInput_value := emailInput_value (form p);
                    emailInput_disabled := emailInput_disabled (form p);
                    button_loading := button_loading (form p);
                    button_success := button_success (form p);
                    errorShown := errorShown (form p);
                    successText := successText (form p);
                    successVisible := successVisible (form p);
                    announcement := [] |};
         awaiting := awaiting p; log := log p |}
  end.

Definition run (evs : list Event) (p : Page) : Page :=
  fold_left (fun q ev => step ev q) evs p.

End Instance.

(** A freshly set up form with a value typed into the email field. *)
Definition initialForm (v : jsstring) : Form :=
  {| isSubmitting := false;
     submitAttempts := 0;
     emailInput_value := v;
     emailInput_disabled := false;
     button_loading := false;
     button_success := false;
     errorShown := None;
     successText := [];
     successVisible := false;
     announcement := [] |}.

(** The engine gives each of its errors a message: the AbortError of an
    aborted request, the TypeError of a failed one, the error of a body
    that does not parse. *)
Definition messagesPresent (browser : Browser) : Prop :=
  abortMessage browser <> []
  /\ forall n,
       match settles (net browser n) with
       | NetworkError m => m <> []
       | Response _ _ (inr m) => m <> []
       | Response _ _ (inl _) => True
       end.

(** The values [getErrorMessage] is called with: what [submitToZoho] throws
    into the [catch] clause of [handleSubmit], the sentence that clause hands
    on to [handleError], and the error of a result without success. *)
Inductive reachable : ErrorValue -> Prop :=
| thrown_by_submit (cfg : ApiConfig) (browser : Browser) (payload : Payload)
                   (l l' : list Effect) (e : ErrorValue) :
    messagesPresent browser ->
    submitToZoho cfg browser payload l = (Thrown e, l') ->
    reachable e
| mapped_in_catch (e : ErrorValue) (m : jsstring) :
    reachable e ->
    getErrorMessage e = Some m ->
    reachable (EStr m)
| failed_result (result : ApiResult) :
    success result = false ->
    reachable (EStr (errorOrDefault result)).

(** Sample surroundings: the production host, with a network that never
    answers in time, that always answers 400, that always answers 200. *)
Module Scenario.

Definition browserWith (x : Exchange) : Browser :=
  {| hostname := lit "careerlaunch.myblueprint.ca";
     protocol := lit "https:";
     net := fun _ => x;
     abortMessage := lit "The user aborted a request.";
     randomBelow09 := fun _ => true;
     document_referrer := [];
     navigator_userAgent := lit "Mozilla/5.0";
     isoNow := lit "2025-12-02T09:00:00.000Z";
     dateNow := 1764666000000 |}.

Definition neverInTime : Exchange :=
  {| latency := 60000; settles := NetworkError (lit "Failed to fetch") |}.

Definition offline : Exchange :=
  {| latency := 5; settles := NetworkError (lit "Failed to fetch") |}.

Definition badRequest : Exchange :=
  {| latency := 120; settles := Response 400 (lit "Bad Request") (inl JNull) |}.

Definition accepted : Exchange :=
  {| latency := 120; settles := Response 200 (lit "OK") (inl (JObj [])) |}.

Definition payload : Payload :=
  payloadOf (browserWith accepted) (lit "jane.doe@schoolboard.org").

(** The page opened from a development host. *)
Definition localhost : Browser :=
  {| hostname := lit "localhost";
     protocol := lit "http:";
     net := fun _ => accepted;
     abortMessage := lit "The user aborted a request.";
     randomBelow09 := fun _ => true;
     document_referrer := [];
     navigator_userAgent := lit "Mozilla/5.0";
     isoNow := lit "2025-12-02T09:00:00.000Z";
     dateNow := 1764666000000 |}.

(** A network that is down for the first two requests. *)
Definition flaky : Browser :=
  {| hostname := lit "careerlaunch.myblueprint.ca";
     protocol := lit "https:";
     net := fun n => if (n <? 2)%nat then offline else accepted;
     abortMessage := lit "The user aborted a request.";
     randomBelow09 := fun _ => true;
     document_referrer := [];
     navigator_userAgent := lit "Mozilla/5.0";
     isoNow := lit "2025-12-02T09:00:00.000Z";
     dateNow := 1764666000000 |}.

Definition start : Page :=
  {| form := initialForm (lit "jane.doe@schoolboard.org"); awaiting := []; log := [] |}.

End Scenario.

End FormHandler.

(** ** The image rotator (class [ImageRotator])

    The rotator's fields, its two image elements and the part of the
    browser it talks to: the table of live intervals and the rotations whose
    transition timer has not fired yet.  [images] is the list left by
    [preloadImages]. *)

Module ImageRotator.

Record Options : Type := {
  interval : N;
  fadeDuration : N;
  pauseOnHover : bool;
  pauseOnVisibilityChange : bool
}.

Definition defaultOptions : Options :=
  {| interval := 4000; fadeDuration := 300;
     pauseOnHover := true; pauseOnVisibilityChange := true |}.

Record ImageElement : Type := {
  src : jsstring;
  alt : jsstring;
  opacity : N;
  zIndex : N
}.

Record Rotator : Type := {
  options : Options;
  images : list jsstring;
  currentIndex : nat;
  intervalId : option nat;
  isPaused : bool;
  isVisible : bool;
  currentImageElement : ImageElement;
  nextImageElement : ImageElement;
  timers : list nat;        (* the intervals the browser keeps alive *)
  nextTimerId : nat;        (* the id the next setInterval returns *)
  transitions : list nat    (* nextIndex of each rotateToNext that awaits *)
}.

Definition defaultImages : list jsstring :=
  [ lit "images/careers/career-tech-woman.jpg";
    lit "images/careers/career-engineering.jpg";
    lit "images/careers/career-diverse-team.jpg";
    lit "images/careers/career-healthcare.jpg";
    lit "images/careers/career-business-meeting.jpg";
    lit "images/careers/career-construction.jpg";
    lit "images/careers/career-office-work.jpg";
    lit "images/careers/career-collaboration.jpg";
    lit "images/careers/career-meeting-room.jpg";
    lit "images/careers/career-modern-workspace.jpg" ].

Definition altTexts : list jsstring :=
  [ lit "Technology professional working on computer in modern office environment";
    lit "Engineering team collaborating on technical project with blueprints";
    lit "Diverse group of professionals discussing career opportunities";
    lit "Healthcare professional in medical setting providing patient care";
    lit "Business professionals in meeting discussing strategic planning";
    lit "Construction worker in safety gear on active building site";
    lit "Office workers collaborating in contemporary workplace setting";
    lit "Team members working together on collaborative project";
    lit "Professional meeting in modern conference room environment";
    lit "Modern workspace with professionals collaborating in bright office setting" ].

(** [generateAltText(index)]: [altTexts[index] || '...'] *)
Definition generateAltText (index : nat) : jsstring :=
  match nth_error altTexts index with
  | Some t => if JsString.truthy t then t
              else lit "Career professionals in various work environments"
  | None => lit "Career professionals in various work environments"
  end.

Definition set_isPaused (b : bool) (r : Rotator) : Rotator :=
  {| options := options r; images := images r; currentIndex := currentIndex r;
     intervalId := intervalId r; isPaused := b; isVisible := isVisible r;
     currentImageElement := currentImageElement r;
     nextImageElement := nextImageElement r;
     timers := timers r; nextTimerId := nextTimerId r;
     transitions := transitions r |}.

Definition set_isVisible (b : bool) (r : Rotator) : Rotator :=
  {| options := options r; images := images r; currentIndex := currentIndex r;
     intervalId := intervalId r; isPaused := isPaused r; isVisible := b;
     currentImageElement := currentImageElement r;
     nextImageElement := nextImageElement r;
     timers := timers r; nextTimerId := nextTimerId r;
     transitions := transitions r |}.

(** [pause()] and [resume()] *)
Definition pause (r : Rotator) : Rotator := set_isPaused true r.
Definition resume (r : Rotator) : Rotator := set_isPaused false r.

(** [startRotation()]: [setInterval] registers a new interval and returns
    its id. *)
Definition startRotation (r : Rotator) : Rotator :=
  if (length (images r) <=? 1)%nat then r
  else
    {| options := options r; images := images r; currentIndex := currentIndex r;
       intervalId := Some (nextTimerId r);
       isPaused := isPaused r; isVisible := isVisible r;
       currentImageElement := currentImageElement r;
       nextImageElement := nextImageElement r;
       timers := timers r ++ [nextTimerId r];
       nextTimerId := S (nextTimerId r);
       transitions := transitions r |}.

(** [stop()]: [clearInterval] removes the interval from the table. *)
Definition stop (r : Rotator) : Rotator :=
  let r1 :=
    match intervalId r with
    | Some id =>
        {| options := options r; images := images r;
           currentIndex := currentIndex r;
           intervalId := None;
           isPaused := isPaused r; isVisible := isVisible r;
           currentImageElement := currentImageElement r;
           nextImageElement := nextImageElement r;
           timers := List.filter (fun t => negb (Nat.eqb t id)) (timers r);
           nextTimerId := nextTimerId r;
           transitions := transitions r |}
    | None => r
    end in
  set_isPaused true r1.

(** [restart()] *)
Definition restart (r : Rotator) : Rotator :=
  startRotation (set_isPaused false (stop r)).

(** [rotateToNext()] up to its [await]: the next image is put in place and
    the cross-fade starts. *)
Definition rotateToNext_begin (r : Rotator) : Rotator :=
  if (length (images r) <=? 1)%nat then r
  else
    let nextIndex := ((currentIndex r + 1) mod length (images r))%nat in
    {| options := options r; images := images r; currentIndex := currentIndex r;
       intervalId := intervalId r; isPaused := isPaused r; isVisible := isVisible r;
       currentImageElement :=
         {| src := src (currentImageElement r);
            alt := alt (currentImageElement r);
            opacity := 0;
            zIndex := zIndex (currentImageElement r) |};
       nextImageElement :=
         {| src := nth nextIndex (images r) [];
            alt := generateAltText nextIndex;
            opacity := 1;
            zIndex := zIndex (nextImageElement r) |};
       timers := timers r; nextTimerId := nextTimerId r;
       transitions := transitions r ++ [nextIndex] |}.

(** [rotateToNext()] after its [await]: [swapImageElements()], then the
    index is updated. *)
Definition rotateToNext_end (nextIndex : nat) (r : Rotator) : Rotator :=
  {| options := options r; images := images r; currentIndex := nextIndex;
     intervalId := intervalId r; isPaused := isPaused r; isVisible := isVisible r;
     currentImageElement :=
       {| src := src (nextImageElement r); alt := alt (nextImageElement r);
          opacity := 1; zIndex := 2 |};
     nextImageElement :=
       {| src := src (currentImageElement r); alt := alt (currentImageElement r);
          opacity := 0; zIndex := 1 |};
     timers := timers r; nextTimerId := nextTimerId r;
     transitions := transitions r |}.

(** What happens to a rotator: an interval of the browser fires, the
    transition timer of the [k]-th waiting rotation fires, the pointer enters
    or leaves the container, the tab is hidden or shown, or a method is
    called from outside. *)
Inductive Event : Type :=
| IntervalFires (id : nat)
| TransitionEnds (k : nat)
| MouseEnter
| MouseLeave
| VisibilityChange (hidden : bool)
| CallPause
| CallResume
| CallStop
| CallRestart.

Definition step (ev : Event) (r : Rotator) : Rotator :=
  match ev with
  | IntervalFires id =>
      if existsb (Nat.eqb id) (timers r) then
        if negb (isPaused r) && isVisible r then rotateToNext_begin r else r
      else r
  | TransitionEnds k =>
      match nth_error (transitions r) k with
      | Some nextIndex =>
          rotateToNext_end nextIndex
            {| options := options r; images := images r;
               currentIndex := currentIndex r;
               intervalId := intervalId r;
               isPaused := isPaused r; isVisible := isVisible r;
               currentImageElement := currentImageElement r;
               nextImageElement := nextImageElement r;
               timers := timers r; nextTimerId := nextTimerId r;
               transitions := firstn k (transitions r)
                              ++ skipn (S k) (transitions r) |}
      | None => r
      end
  | MouseEnter => if pauseOnHover (options r) then pause r else r
  | MouseLeave => if pauseOnHover (options r) then resume r else r
  | VisibilityChange hidden =>
      if pauseOnVisibilityChange (options r) then
        if hidden then set_isVisible false (pause r)
        else
          let r1 := set_isVisible true r in
          if negb (isPaused r1) then resume r1 else r1
      else r
  | CallPause => pause r
  | CallResume => resume r
  | CallStop => stop r
  | CallRestart => restart r
  end.

Definition run (evs : list Event) (r : Rotator) : Rotator :=
  fold_left (fun q ev => step ev q) evs r.

(** The rotator as [init()] leaves it, for the image element [el] found in
    the page. *)
Definition init (opts : Options) (imgs : list jsstring) (el : ImageElement)
  : Rotator :=
  startRotation
    {| options := opts; images := imgs; currentIndex := 0;
       intervalId := None; isPaused := false; isVisible := true;
       currentImageElement :=
         {| src := src el; alt := alt el; opacity := opacity el; zIndex := 2 |};
       nextImageElement :=
         {| src := src el; alt := alt el; opacity := 0; zIndex := 1 |};
       timers := []; nextTimerId := 1; transitions := [] |}.

(** Events that neither resume nor restart the rotation. *)
Definition resumes (ev : Event) : bool :=
  match ev with
  | MouseLeave | CallResume | CallRestart => true
  | _ => false
  end.

(** One full rotation: the interval fires and the transition ends before
    anything else happens. *)
Definition rotation (id : nat) : list Event := [IntervalFires id; TransitionEnds 0].

Definition heroImage : ImageElement :=
  {| src := lit "images/careers/career-tech-woman.jpg";
     alt := lit "Career professionals";
     opacity := 1; zIndex := 0 |}.

End ImageRotator.

(** ** Arrow-key navigation of the bento grid (class [MyBlueprintCareerLaunch]) *)

Module BentoNavigation.

Inductive Key : Type := ArrowUp | ArrowDown | OtherKey.

(** [handleBentoNavigation(e)] for a grid of [boxes] boxes: [target] is
    [bentoBoxes.indexOf(e.target)], [None] for -1; the result is the index
    of the box that receives the focus, [None] when the handler returns
    without focusing anything. *)
Definition handleBentoNavigation (boxes : nat) (target : option nat) (key : Key)
  : option nat :=
  match target with
  | None => None
  | Some currentIndex =>
      match key with
      | ArrowUp =>
          let nextIndex := Z.max 0 (Z.of_nat currentIndex - 1) in
          if (nextIndex <? Z.of_nat boxes)%Z then Some (Z.to_nat nextIndex) else None
      | ArrowDown =>
          let nextIndex := Z.min (Z.of_nat boxes - 1) (Z.of_nat currentIndex + 1) in
          if ((0 <=? nextIndex) && (nextIndex <? Z.of_nat boxes))%Z
          then Some (Z.to_nat nextIndex) else None
      | OtherKey => None
      end
  end.

(** The focused element after a key, when the elements [0 .. boxes - 1] are
    the bento boxes: the focus stays where it is when the handler focuses
    nothing. *)
Definition press (boxes : nat) (focus : nat) (key : Key) : nat :=
  let target := if (focus <? boxes)%nat then Some focus else None in
  match handleBentoNavigation boxes target key with
  | Some i => i
  | None => focus
  end.

End BentoNavigation.

(** ** Validation while typing ([validateEmailRealTime], [handleValidation])

    The email field with the two [input] listeners and the [blur] listener
    that [setupEventListeners] of the form handler installs.  All timeouts
    have the same delay, so they fire in the order they were set. *)

Module RealTimeValidation.
Import FormHandler.

Record Field : Type := {
  fieldForm : Form;
  timeoutId : option nat;          (* [let timeoutId] of validateEmailRealTime *)
  liveTimeouts : list nat;         (* the timeouts the browser still holds *)
  nextTimeoutId : nat;             (* the id the next setTimeout returns *)
  validated : list jsstring        (* the values [validate] has been run on *)
}.

Inductive Event : Type :=
| InputEvent (v : jsstring)     (* the user changes the field's value to v *)
| Blur
| TimeoutFires.                 (* the oldest live timeout fires *)

Definition set_value (v : jsstring) (f : Form) : Form :=
  {| isSubmitting := isSubmitting f;
     submitAttempts := submitAttempts f;
     emailInput_value := v;
     emailInput_disabled := emailInput_disabled f;
     button_loading := button_loading f;
     button_success := button_success f;
     errorShown := errorShown f;
     successText := successText f;
     successVisible := successVisible f;
     announcement := announcement f |}.

(** [handleValidation(result)] *)
Definition handleValidation (result : ValidationResult) (f : Form) : Form :=
  if isValid result then set_error None f
  else
    match FormValidator.error result with
    | Some e =>
        if JsString.truthy e && (0 <? length (emailInput_value f))%nat
        then set_error (Some e) f
        else f
    | None => f
    end.

Section WithTables.
Context `{U : Unicode}.

(** The closure [validate] of [validateEmailRealTime], with
    [handleValidation] as callback. *)
Definition validate (s : Field) : Field :=
  let result := validateEmail (Some (emailInput_value (fieldForm s))) in
  {| fieldForm := handleValidation result (fieldForm s);
     timeoutId := timeoutId s;
     liveTimeouts := liveTimeouts s;
     nextTimeoutId := nextTimeoutId s;
     validated := validated s ++ [emailInput_value (fieldForm s)] |}.

Definition clearTimeout (id : option nat) (live : list nat) : list nat :=
  match id with
  | Some i => List.filter (fun t => negb (Nat.eqb t i)) live
  | None => live
  end.

Definition step (ev : Event) (s : Field) : Field :=
  match ev with
  | InputEvent v =>
      let f1 := set_value v (fieldForm s) in
      (* the listener of validateEmailRealTime *)
      let live := clearTimeout (timeoutId s) (liveTimeouts s) in
      (* the listener that clears the success message *)
      let f2 := if successVisible f1 then resetForm f1 else f1 in
      {| fieldForm := f2;
         timeoutId := Some (nextTimeoutId s);
         liveTimeouts := live ++ [nextTimeoutId s];
         nextTimeoutId := S (nextTimeoutId s);
         validated := validated s |}
  | Blur => validate s
  | TimeoutFires =>
      match liveTimeouts s with
      | [] => s
      | _ :: rest =>
          validate {| fieldForm := fieldForm s;
                      timeoutId := timeoutId s;
                      liveTimeouts := rest;
                      nextTimeoutId := nextTimeoutId s;
                      validated := validated s |}
      end
  end.

Definition run (evs : list Event) (s : Field) : Field :=
  fold_left (fun q ev => step ev q) evs s.

End WithTables.

(** The field of a freshly set up form. *)
Definition fresh : Field :=
  {| fieldForm := initialForm [];
     timeoutId := None; liveTimeouts := []; nextTimeoutId := 1;
     validated := [] |}.

End RealTimeValidation.

(** ** [sanitizeInput] of the validator

    The three patterns of [sanitizeInput] are sequences of one-unit tests,
    one of them with a greedy [\w+] in the middle.  [String.prototype.replace]
    with a [g] flag removes the matches from left to right, each search
    starting where the previous match ended. *)

Module Sanitizer.

Inductive Atom : Type :=
| One (cs : list (N * N))       (* one unit of the class *)
| Many1 (cs : list (N * N)).    (* [cs+], greedy *)

Definition literal (s : string) : list Atom :=
  map (fun a => One [one a]) (list_ascii_of_string s).

(** [[<>]] *)
Definition angleBrackets : list Atom := [One [one "<"; one ">"]%char].

(** [javascript:] *)
Definition javascriptScheme : list Atom := literal "javascript:".

(** [\w] is [[A-Za-z0-9_]] *)
Definition wordClass : list (N * N) :=
  [ rng "a" "z"; rng "A" "Z"; rng "0" "9"; one "_" ]%char.

(** [on\w+=] *)
Definition onHandler : list Atom :=
  literal "on" ++ [Many1 wordClass; One [one "="%char]].

Section Engine.
Context `{U : Unicode}.
(** the [i] flag of the pattern *)
Variable ic : bool.

Definition unitMatches (cs : list (N * N)) (c : N) : bool :=
  classMatches Canonicalize ic cs c.

(** The length of the longest prefix of units of the class. *)
Fixpoint runLength (cs : list (N * N)) (s : jsstring) : nat :=
  match s with
  | c :: s' => if unitMatches cs c then S (runLength cs s') else 0
  | [] => 0
  end.

(** A greedy repetition gives back one unit at a time until the rest of the
    pattern matches: [k] units are tried first, then [k - 1], down to one. *)
Fixpoint backtrack (rest : jsstring -> option nat) (s : jsstring) (k : nat)
  : option nat :=
  match k with
  | O => None
  | S k' =>
      match rest (skipn k s) with
      | Some n => Some (k + n)%nat
      | None => backtrack rest s k'
      end
  end.

(** The length of the match of the pattern at the start of [s], if any. *)
Fixpoint matchAtoms (atoms : list Atom) (s : jsstring) : option nat :=
  match atoms with
  | [] => Some 0%nat
  | One cs :: atoms' =>
      match s with
      | c :: s' =>
          if unitMatches cs c
          then option_map S (matchAtoms atoms' s')
          else None
      | [] => None
      end
  | Many1 cs :: atoms' =>
      backtrack (matchAtoms atoms') s (runLength cs s)
  end.

(** [s.replace(/pattern/g, '')]: [skip] units of a match found earlier are
    still to be dropped. *)
Fixpoint removeFrom (atoms : list Atom) (skip : nat) (s : jsstring) : jsstring :=
  match s with
  | [] => []
  | c :: s' =>
      match skip with
      | S k => removeFrom atoms k s'
      | O =>
          match matchAtoms atoms s with
          | Some (S k) => removeFrom atoms k s'
          | _ => c :: removeFrom atoms 0 s'
          end
      end
  end.

Definition removeAll (atoms : list Atom) (s : jsstring) : jsstring :=
  removeFrom atoms 0 s.

End Engine.

(** [sanitizeInput(input)]; [None] is an argument that is not a string. *)
Definition sanitizeInput `{U : Unicode} (input : option jsstring) : jsstring :=
  match input with
  | None => []
  | Some s =>
      removeAll true onHandler
        (removeAll true javascriptScheme
           (removeAll false angleBrackets (trim s)))
  end.

End Sanitizer.

(** * Properties *)

(** ** Strings *)

Lemma eqb_eq (s t : jsstring) : JsString.eqb s t = true <-> s = t.
Proof. unfold JsString.eqb. apply bool_decide_eq_true. Qed.

Lemma truthy_nonempty (s : jsstring) : JsString.truthy s = true <-> s <> [].
Proof. destruct s; simpl; split; congruence. Qed.


Lemma in_skipn {A : Type} (n : nat) (l : list A) (x : A) :
  In x (skipn n l) -> In x l.
Proof.
  revert l. induction n as [|n IH]; intros [|a l]; cbn; try tauto.
  intros H. right. auto.
Qed.

Lemma trimStart_latin (s : jsstring) : isBasicLatin s -> isBasicLatin (trimStart s).
Proof.
  unfold isBasicLatin. induction 1 as [|c s Hc Hs IH]; simpl.
  - constructor.
  - destruct (isWhiteSpace c); [exact IH | constructor; assumption].
Qed.

Lemma rev_latin (s : jsstring) : isBasicLatin s -> isBasicLatin (rev s).
Proof.
  unfold isBasicLatin. rewrite !List.Forall_forall.
  intros H c Hc. apply H. now apply List.in_rev.
Qed.

Lemma trim_latin (s : jsstring) : isBasicLatin s -> isBasicLatin (trim s).
Proof.
  intros H. unfold trim, trimEnd.
  now apply rev_latin, trimStart_latin, rev_latin, trimStart_latin.
Qed.

Lemma lowerLatin_lt (c : N) : c < 128 -> lowerLatin c < 128.
Proof.
  unfold lowerLatin. intros H.
  destruct (65 <=? c) eqn:E1, (c <=? 90) eqn:E2; simpl; try assumption.
  apply N.leb_le in E2. lia.
Qed.

Lemma map_lowerLatin_latin (s : jsstring) :
  isBasicLatin s -> isBasicLatin (map lowerLatin s).
Proof.
  unfold isBasicLatin. induction 1; simpl; constructor; auto using lowerLatin_lt.
Qed.

Lemma latin_check (s : jsstring) :
  forallb (fun c => c <? 128) s = true -> isBasicLatin s.
Proof.
  unfold isBasicLatin. rewrite List.forallb_forall, List.Forall_forall.
  intros H c Hc. apply N.ltb_lt. now apply H.
Qed.

(** ** The Unicode tables *)

Section Tables.
Context `{U : Unicode}.

Lemma toLowerCase_nil : toLowerCase [] = [].
Proof. rewrite toLowerCase_latin; [reflexivity | constructor]. Qed.

Lemma Canonicalize_latin (c : N) : c < 128 -> Canonicalize c = upperLatin c.
Proof.
  intros Hc. unfold Canonicalize.
  rewrite toUpperCase_latin by (repeat constructor; assumption).
  simpl. apply N.leb_gt in Hc. rewrite Hc. reflexivity.
Qed.

End Tables.

(** ** The matcher decides matching *)

Section EngineCorrect.
Variable canon : N -> N.
Variable ic : bool.

Local Notation "r =~ s" := (Matches canon ic r s) (at level 70).

Lemma nullable_matches (r : Regex) : r =~ [] -> nullable r = true.
Proof.
  intros H. remember [] as s eqn:Hs.
  induction H; simpl; try discriminate; auto.
  - apply app_eq_nil in Hs as [-> ->]. rewrite IHMatches1, IHMatches2; auto.
  - rewrite IHMatches; auto.
  - rewrite IHMatches, orb_true_r; auto.
  - apply app_eq_nil in Hs as [-> ->]. rewrite IHMatches1, orb_true_r; auto.
Qed.

Lemma matches_nullable (r : Regex) :
  wfRegexb r = true -> nullable r = true -> r =~ [].
Proof.
  induction r; simpl; intros Hwf H; try discriminate.
  - constructor.
  - apply andb_prop in H as [H1 H2]. apply andb_prop in Hwf as [W1 W2].
    apply (MSeq _ _ r1 r2 [] []); auto.
  - apply andb_prop in Hwf as [W1 W2].
    apply orb_prop in H as [H | H]; [apply MAltL | apply MAltR]; auto.
  - constructor.
  - apply andb_prop in Hwf as [W1 W2]. apply negb_true_iff in W1.
    rewrite W1, orb_false_r in H. apply Nat.eqb_eq in H. subst. constructor.
  - apply Nat.eqb_eq in H. subst. constructor.
Qed.

Lemma seq'_spec (r1 r2 : Regex) (s : jsstring) : seq' r1 r2 =~ s <-> Seq r1 r2 =~ s.
Proof.
  split.
  - destruct r1, r2; simpl; intros H; try exact H; try (now inversion H);
      (apply (MSeq _ _ Eps _ [] s); [apply MEps | exact H]).
  - intros H. inversion H as [| |a b s1 s2 H1 H2| | | | | | | | |]; subst.
    destruct r1, r2; simpl; try (now constructor); try (now inversion H1);
      try (now inversion H2); inversion H1; subst; exact H2.
Qed.

Lemma alt'_spec (r1 r2 : Regex) (s : jsstring) : alt' r1 r2 =~ s <-> Alt r1 r2 =~ s.
Proof.
  split.
  - destruct r1, r2; simpl; intros H; try exact H;
      try (now apply MAltL); try (now apply MAltR).
  - intros H. inversion H; subst;
      destruct r1, r2; simpl; try assumption;
      try (now apply MAltL); try (now apply MAltR);
      match goal with H : Void =~ _ |- _ => inversion H end.
Qed.

Lemma star_cons_inv (r : Regex) (c : N) (s : jsstring) :
  Star r =~ (c :: s) ->
  exists s1 s2, s = s1 ++ s2 /\ r =~ (c :: s1) /\ Star r =~ s2.
Proof.
  intros H. remember (Star r) as r' eqn:Hr. remember (c :: s) as t eqn:Ht.
  revert s Ht. induction H; intros s0 Ht; try discriminate.
  injection Hr as ->. destruct s1 as [|d s1].
  - apply IHMatches2; auto.
  - injection Ht as -> <-. exists s1, s2. auto.
Qed.

Lemma seq'_wf (r1 r2 : Regex) :
  wfRegexb r1 = true -> wfRegexb r2 = true -> wfRegexb (seq' r1 r2) = true.
Proof.
  intros H1 H2. destruct r1, r2; simpl in *; auto;
    rewrite ?H1, ?H2; try reflexivity; apply andb_true_intro; auto.
Qed.

Lemma alt'_wf (r1 r2 : Regex) :
  wfRegexb r1 = true -> wfRegexb r2 = true -> wfRegexb (alt' r1 r2) = true.
Proof.
  intros H1 H2. destruct r1, r2; simpl in *; auto;
    rewrite ?H1, ?H2; try reflexivity; apply andb_true_intro; auto.
Qed.

Lemma deriv_wf (r : Regex) (c : N) :
  wfRegexb r = true -> wfRegexb (deriv canon ic r c) = true.
Proof.
  intros Hr. induction r; simpl in *; auto.
  - destruct (classMatches _ _ _ _); reflexivity.
  - apply andb_prop in Hr as [H1 H2].
    apply alt'_wf; [apply seq'_wf; auto|].
    destruct (nullable r1); auto.
  - apply andb_prop in Hr as [H1 H2]. apply alt'_wf; auto.
  - apply seq'_wf; auto.
  - destruct hi; [reflexivity|]. apply andb_prop in Hr as [H1 H2].
    apply seq'_wf; auto. simpl. now rewrite H1, H2.
  - destruct (isLineTerminator c); reflexivity.
  - destruct (sameChar _ _ _ _); reflexivity.
Qed.

Lemma seq_inv (r1 r2 : Regex) (s : jsstring) :
  Seq r1 r2 =~ s -> exists s1 s2, s = s1 ++ s2 /\ r1 =~ s1 /\ r2 =~ s2.
Proof. intros H. inversion H; subst; eauto. Qed.

Lemma alt_inv (r1 r2 : Regex) (s : jsstring) : Alt r1 r2 =~ s -> r1 =~ s \/ r2 =~ s.
Proof. intros H. inversion H; subst; auto. Qed.

Lemma rep_inv (r : Regex) (lo hi : nat) (s : jsstring) :
  Rep r lo hi =~ s ->
  (lo = 0%nat /\ s = [])
  \/ exists hi' s1 s2,
       hi = S hi' /\ s = s1 ++ s2 /\ r =~ s1 /\ Rep r (Nat.pred lo) hi' =~ s2.
Proof. intros H. inversion H; subst; [left | right]; eauto 8. Qed.

Lemma capture_inv (n : nat) (s : jsstring) :
  CaptureRun n =~ s ->
  exists c t, s = c :: t /\ isLineTerminator c = false /\ SameRun c n =~ t.
Proof. intros H. inversion H; subst; eauto. Qed.

Lemma same_inv (c : N) (n : nat) (s : jsstring) :
  SameRun c n =~ s ->
  (n = 0%nat /\ s = [])
  \/ exists d t, s = d :: t /\ sameChar canon ic c d = true
                  /\ SameRun c (Nat.pred n) =~ t.
Proof. intros H. inversion H; subst; [left | right]; eauto. Qed.

(** The derivative by [c] matches [s] exactly when the expression matches
    [c :: s]. *)
Lemma deriv_spec (r : Regex) (c : N) (s : jsstring) :
  wfRegexb r = true ->
  deriv canon ic r c =~ s <-> r =~ (c :: s).
Proof.
  revert s. induction r; intros s Hwf; simpl in *.
  - split; intros H; inversion H.
  - split; intros H; inversion H.
  - destruct (classMatches canon ic ranges c) eqn:E; split; intros H.
    + inversion H; subst. now constructor.
    + inversion H; subst. constructor.
    + inversion H.
    + inversion H; subst. congruence.
  - apply andb_prop in Hwf as [W1 W2].
    rewrite alt'_spec. split; intros H.
    + apply alt_inv in H as [H | H].
      * apply seq'_spec, seq_inv in H as (s1 & s2 & -> & Ha & Hb).
        apply (MSeq _ _ r1 r2 (c :: s1) s2); [now apply IHr1 | assumption].
      * destruct (nullable r1) eqn:En; [|inversion H].
        apply (MSeq _ _ r1 r2 [] (c :: s)); [now apply matches_nullable|].
        now apply IHr2.
    + apply seq_inv in H as (s1 & s2 & Hs & Ha & Hb).
      destruct s1 as [|d s1].
      * simpl in Hs. subst s2. apply MAltR.
        rewrite (nullable_matches _ Ha). now apply IHr2.
      * injection Hs as -> ->. apply MAltL. apply seq'_spec.
        constructor; [now apply IHr1 | assumption].
  - apply andb_prop in Hwf as [W1 W2].
    rewrite alt'_spec. split; intros H.
    + apply alt_inv in H as [H | H];
        [apply MAltL; now apply IHr1 | apply MAltR; now apply IHr2].
    + apply alt_inv in H as [H | H];
        [apply MAltL; now apply IHr1 | apply MAltR; now apply IHr2].
  - rewrite seq'_spec. split; intros H.
    + apply seq_inv in H as (s1 & s2 & -> & Ha & Hb).
      apply (MStarCons _ _ r (c :: s1) s2); [now apply IHr | assumption].
    + apply star_cons_inv in H as (s1 & s2 & -> & H1 & H2).
      constructor; [now apply IHr | assumption].
  - apply andb_prop in Hwf as [W1 W2]. apply negb_true_iff in W1.
    destruct hi as [|hi].
    + split; intros H; [inversion H|].
      apply rep_inv in H as [[_ H] | (hi' & _ & _ & H & _)]; discriminate.
    + rewrite seq'_spec. split; intros H.
      * apply seq_inv in H as (s1 & s2 & -> & Ha & Hb).
        apply (MRepCons _ _ r lo hi (c :: s1) s2); [now apply IHr | assumption].
      * apply rep_inv in H as [[_ H] | (hi' & s1 & s2 & Hh & Hs & Ha & Hb)];
          [discriminate|].
        injection Hh as <-. destruct s1 as [|d s1].
        -- apply nullable_matches in Ha. congruence.
        -- injection Hs as -> ->. constructor; [now apply IHr | assumption].
  - destruct (isLineTerminator c) eqn:E; split; intros H.
    + inversion H.
    + apply capture_inv in H as (d & t & [= <- <-] & Hl & _). congruence.
    + now constructor.
    + apply capture_inv in H as (d & t & [= <- <-] & _ & H). exact H.
  - destruct (sameChar canon ic c0 c) eqn:E; split; intros H.
    + now constructor.
    + apply same_inv in H as [[_ H] | (d & t & [= <- <-] & _ & H)];
        [discriminate | exact H].
    + inversion H.
    + apply same_inv in H as [[_ H] | (d & t & [= <- <-] & H & _)];
        [discriminate | congruence].
Qed.

(** [matchHere] finds a prefix that matches, the whole string under [$]. *)
Lemma matchHere_spec (e : bool) (s : jsstring) (r : Regex) :
  wfRegexb r = true ->
  matchHere canon ic e r s = true
  <-> exists mid post, s = mid ++ post /\ r =~ mid /\ (e = true -> post = []).
Proof.
  revert r. induction s as [|c s IH]; intros r Hwf; simpl.
  - split.
    + intros H. exists [], []. repeat split. now apply matches_nullable.
    + intros (mid & post & Hs & Hm & _). symmetry in Hs.
      apply app_eq_nil in Hs as [-> ->]. now apply nullable_matches.
  - rewrite orb_true_iff, andb_true_iff, negb_true_iff, (IH _ (deriv_wf r c Hwf)).
    split.
    + intros [[He Hn] | (mid & post & -> & Hm & Hp)].
      * exists [], (c :: s). repeat split; [now apply matches_nullable | congruence].
      * exists (c :: mid), post. repeat split; [now apply deriv_spec | assumption].
    + intros (mid & post & Hs & Hm & Hp). destruct mid as [|d mid].
      * left. simpl in Hs. subst post. split; [|now apply nullable_matches].
        destruct e; [specialize (Hp eq_refl); discriminate | reflexivity].
      * injection Hs as -> ->. right. exists mid, post.
        repeat split; [now apply deriv_spec | assumption].
Qed.

(** [matchAnywhere] finds a matching substring, a suffix under [$]. *)
Lemma matchAnywhere_spec (e : bool) (r : Regex) (s : jsstring) :
  wfRegexb r = true ->
  matchAnywhere canon ic e r s = true
  <-> exists pre mid post,
        s = pre ++ mid ++ post /\ r =~ mid /\ (e = true -> post = []).
Proof.
  intros Hwf. induction s as [|c s IH]; cbn [matchAnywhere].
  - rewrite orb_false_r, (matchHere_spec e [] r Hwf). split.
    + intros (mid & post & Hs & H). exists [], mid, post. auto.
    + intros (pre & mid & post & Hs & H). symmetry in Hs.
      apply app_eq_nil in Hs as [-> Hs]. exists mid, post. auto.
  - rewrite orb_true_iff, (matchHere_spec e (c :: s) r Hwf), IH. split.
    + intros [(mid & post & Hs & H) | (pre & mid & post & -> & H)].
      * exists [], mid, post. auto.
      * exists (c :: pre), mid, post. auto.
    + intros (pre & mid & post & Hs & H). destruct pre as [|d pre].
      * left. exists mid, post. auto.
      * injection Hs as -> ->. right. exists pre, mid, post. auto.
Qed.

End EngineCorrect.

(** [RegExp.prototype.test]: some substring matches the body, from the
    start of the string under [^] and up to its end under [$]. *)
Lemma test_spec `{U : Unicode} (re : RegExp) (s : jsstring) :
  wfRegexb (body re) = true ->
  test re s = true
  <-> exists pre mid post,
        s = pre ++ mid ++ post
        /\ Matches Canonicalize (ignoreCase re) (body re) mid
        /\ (atStart re = true -> pre = [])
        /\ (atEnd re = true -> post = []).
Proof.
  intros Hwf. unfold test. destruct (atStart re).
  - rewrite (matchHere_spec _ _ _ _ _ Hwf). split.
    + intros (mid & post & Hs & Hm & Hp). exists [], mid, post. auto.
    + intros (pre & mid & post & Hs & Hm & Hpre & Hp).
      rewrite (Hpre eq_refl) in Hs. exists mid, post. auto.
  - rewrite (matchAnywhere_spec _ _ _ _ _ Hwf). split.
    + intros (pre & mid & post & Hs & Hm & Hp). exists pre, mid, post.
      repeat split; auto. discriminate.
    + intros (pre & mid & post & Hs & Hm & _ & Hp). exists pre, mid, post. auto.
Qed.

(** ** The matcher reads the tables on Basic Latin only *)

Section EngineAgreement.
Variables canon1 canon2 : N -> N.
Hypothesis canon_agree : forall c, c < 128 -> canon1 c = canon2 c.

Lemma members_latin (cs : list (N * N)) :
  latinClassb cs = true -> forall a, In a (members cs) -> a < 128.
Proof.
  unfold latinClassb, members. intros H a Ha.
  apply List.in_flat_map in Ha as [[lo hi] [Hin Ha]].
  rewrite List.forallb_forall in H. specialize (H _ Hin). simpl in H.
  apply N.ltb_lt in H.
  apply List.in_map_iff in Ha as [k [<- Hk]].
  apply List.in_seq in Hk. lia.
Qed.

Lemma classMatches_agree (ic : bool) (cs : list (N * N)) (c : N) :
  latinClassb cs = true -> c < 128 ->
  classMatches canon1 ic cs c = classMatches canon2 ic cs c.
Proof.
  intros Hcs Hc. unfold classMatches. destruct ic; [|reflexivity].
  pose proof (members_latin cs Hcs) as Hm. revert Hm.
  generalize (members cs). intros m Hm.
  induction m as [|a m IH]; simpl; [reflexivity|].
  rewrite IH by (intros b Hb; apply Hm; now right).
  rewrite (canon_agree a) by (apply Hm; now left).
  rewrite (canon_agree c) by assumption. reflexivity.
Qed.

Lemma seq'_latin (r1 r2 : Regex) :
  latinRegexb r1 = true -> latinRegexb r2 = true -> latinRegexb (seq' r1 r2) = true.
Proof.
  intros H1 H2. destruct r1, r2; simpl in *; auto;
    rewrite ?H1, ?H2; try reflexivity; apply andb_true_intro; auto.
Qed.

Lemma alt'_latin (r1 r2 : Regex) :
  latinRegexb r1 = true -> latinRegexb r2 = true -> latinRegexb (alt' r1 r2) = true.
Proof.
  intros H1 H2. destruct r1, r2; simpl in *; auto;
    rewrite ?H1, ?H2; try reflexivity; apply andb_true_intro; auto.
Qed.

Lemma deriv_latin (canon : N -> N) (ic : bool) (r : Regex) (c : N) :
  latinRegexb r = true -> c < 128 -> latinRegexb (deriv canon ic r c) = true.
Proof.
  intros Hr Hc. induction r; simpl in *; auto.
  - destruct (classMatches _ _ _ _); reflexivity.
  - apply andb_prop in Hr as [H1 H2].
    apply alt'_latin; [apply seq'_latin; auto|].
    destruct (nullable r1); auto.
  - apply andb_prop in Hr as [H1 H2]. apply alt'_latin; auto.
  - apply seq'_latin; auto.
  - destruct hi; [reflexivity|]. apply seq'_latin; auto.
  - destruct (isLineTerminator c); simpl; [reflexivity|]. now apply N.ltb_lt.
  - destruct (sameChar _ _ _ _); simpl; auto.
Qed.

Lemma deriv_agree (ic : bool) (r : Regex) (c : N) :
  latinRegexb r = true -> c < 128 -> deriv canon1 ic r c = deriv canon2 ic r c.
Proof.
  intros Hr Hc. induction r; simpl in *; auto.
  - rewrite classMatches_agree; auto.
  - apply andb_prop in Hr as [H1 H2]. rewrite IHr1, IHr2; auto.
  - apply andb_prop in Hr as [H1 H2]. rewrite IHr1, IHr2; auto.
  - rewrite IHr; auto.
  - destruct hi; [reflexivity|]. rewrite IHr; auto.
  - unfold sameChar. destruct ic; [|reflexivity].
    apply N.ltb_lt in Hr. rewrite (canon_agree c0), (canon_agree c); auto.
Qed.

Lemma matchHere_agree (ic e : bool) (s : jsstring) :
  isBasicLatin s -> forall r, latinRegexb r = true ->
  matchHere canon1 ic e r s = matchHere canon2 ic e r s.
Proof.
  induction 1 as [|c s Hc Hs IH]; intros r Hr; simpl; [reflexivity|].
  rewrite (deriv_agree ic r c Hr Hc).
  rewrite IH; [reflexivity|]. now apply deriv_latin.
Qed.

Lemma matchAnywhere_agree (ic e : bool) (r : Regex) (s : jsstring) :
  isBasicLatin s -> latinRegexb r = true ->
  matchAnywhere canon1 ic e r s = matchAnywhere canon2 ic e r s.
Proof.
  intros Hs Hr. induction Hs as [|c s Hc Hs IH]; cbn [matchAnywhere].
  - reflexivity.
  - rewrite IH. f_equal.
    apply matchHere_agree; [now constructor | assumption].
Qed.

End EngineAgreement.

(** ** The validator *)

Section ValidatorFacts.
Context `{U : Unicode}.

Lemma test_latin (re : RegExp) (s : jsstring) :
  isBasicLatin s -> latinRegexb (body re) = true ->
  test (H := U) re s = test (H := BasicLatinOnly) re s.
Proof.
  intros Hs Hr. unfold test.
  assert (Hc : forall c, c < 128 ->
                 Canonicalize (H := U) c = Canonicalize (H := BasicLatinOnly) c)
    by (intros c Hc; now rewrite !Canonicalize_latin).
  destruct (atStart re);
    [apply matchHere_agree | apply matchAnywhere_agree]; assumption.
Qed.

Lemma patterns_wf :
  wfRegexb (body emailRegex) = true
  /\ forallb (fun re => wfRegexb (body re)) suspiciousPatterns = true.
Proof. split; reflexivity. Qed.

Lemma suspiciousPatterns_latin :
  forallb (fun re => latinRegexb (body re)) suspiciousPatterns = true.
Proof. reflexivity. Qed.

Lemma isSuspiciousEmail_latin (s : jsstring) :
  isBasicLatin s ->
  isSuspiciousEmail (U := U) s = isSuspiciousEmail (U := BasicLatinOnly) s.
Proof.
  intros Hs. unfold isSuspiciousEmail.
  pose proof suspiciousPatterns_latin as Hp. revert Hp.
  generalize suspiciousPatterns. intros ps Hp.
  induction ps as [|re ps IH]; simpl in *; [reflexivity|].
  apply andb_prop in Hp as [Hre Hps].
  rewrite (test_latin re s Hs Hre), (IH Hps). reflexivity.
Qed.

(** On a Basic Latin input the result does not depend on the tables. *)
Lemma validateEmail_latin (raw : jsstring) :
  isBasicLatin raw ->
  validateEmail (U := U) (Some raw) = validateEmail (U := BasicLatinOnly) (Some raw).
Proof.
  intros Hraw. unfold validateEmail.
  destruct raw as [|c raw]; [reflexivity|].
  pose proof (trim_latin _ Hraw) as Ht.
  rewrite (toLowerCase_latin (Unicode := U)) by assumption.
  rewrite (toLowerCase_latin (Unicode := BasicLatinOnly)) by assumption.
  pose proof (map_lowerLatin_latin _ Ht) as Hv.
  set (v := map lowerLatin (trim (c :: raw))) in *.
  rewrite (test_latin emailRegex v Hv) by reflexivity.
  rewrite (isSuspiciousEmail_latin v Hv). reflexivity.
Qed.

(** The normalized value is the input trimmed, then lower-cased. *)
Lemma validateEmail_value (email : jsstring) :
  value (validateEmail (Some email)) = toLowerCase (trim email).
Proof.
  unfold validateEmail. destruct email as [|c e].
  - simpl. symmetry. apply toLowerCase_nil.
  - repeat match goal with
           | |- context [if ?b then _ else _] => destruct b
           end; reflexivity.
Qed.

(** A string that fails the syntax pattern is reported as INVALID_EMAIL. *)
Lemma validateEmail_bad_format (email : jsstring) :
  toLowerCase (trim email) <> [] ->
  (length (toLowerCase (trim email)) <= 254)%nat ->
  test emailRegex (toLowerCase (trim email)) = false ->
  error (validateEmail (Some email)) = Some errors.INVALID_EMAIL.
Proof.
  intros Hne Hlen Hre. unfold validateEmail. destruct email as [|c e].
  - exfalso. apply Hne. apply toLowerCase_nil.
  - set (v := toLowerCase (trim (c :: e))) in *.
    destruct v as [|a w]; [congruence|]. cbn [JsString.truthy negb].
    destruct (Nat.ltb_spec 254 (length (a :: w))); [lia|].
    rewrite Hre. reflexivity.
Qed.

End ValidatorFacts.

(** C5, as stated, fails: a string of 255 spaces is longer than 254 and is
    reported as REQUIRED, because the length is tested on the trimmed value. *)
Lemma validateEmail_blank_255_required :
  (254 < length (repeat 32%N 255))%nat
  /\ validateEmail (U := BasicLatinOnly) (Some (repeat 32%N 255))
     = {| isValid := false; error := Some errors.REQUIRED; value := [] |}
  /\ errors.REQUIRED <> errors.TOO_LONG.
Proof.
  split; [rewrite repeat_length; lia|].
  split; [vm_compute; reflexivity | discriminate].
Qed.

(** C5 (amended): for every input string whose normalized value (trimmed,
    then lower-cased) is longer than 254 code units, [validateEmail] returns
    the TOO_LONG error, with [isValid] false and the normalized value. *)
Theorem validateEmail_too_long `{U : Unicode} (raw : jsstring) :
  (254 < length (toLowerCase (trim raw)))%nat ->
  validateEmail (Some raw)
  = {| isValid := false;
       error := Some errors.TOO_LONG;
       value := toLowerCase (trim raw) |}.
Proof.
  intros Hlen. unfold validateEmail. destruct raw as [|c raw].
  - exfalso. revert Hlen. cbn [trim trimStart trimEnd rev app].
    rewrite toLowerCase_nil. simpl. lia.
  - set (v := toLowerCase (trim (c :: raw))) in *.
    destruct v as [|a w]; [simpl in Hlen; lia|].
    cbn [JsString.truthy negb].
    destruct (Nat.ltb_spec 254 (length (a :: w))); [reflexivity | lia].
Qed.

Lemma validateEmail_too_long_witness :
  (254 < length (toLowerCase (Unicode := BasicLatinOnly) (trim (repeat 97%N 255))))%nat
  /\ validateEmail (U := BasicLatinOnly) (Some (repeat 97%N 255))
     = {| isValid := false;
          error := Some errors.TOO_LONG;
          value := toLowerCase (Unicode := BasicLatinOnly) (trim (repeat 97%N 255)) |}.
Proof.
  split.
  - vm_compute. lia.
  - apply (validateEmail_too_long (U := BasicLatinOnly) (repeat 97%N 255)).
    vm_compute. lia.
Defined.

(** C6: ["user@example.com"] passes the syntax pattern and the denylist, is
    caught by the example-domain pattern of [isSuspiciousEmail] and is
    reported with INVALID_EMAIL, the error of a malformed address;
    ["jane.doe@schoolboard.org"] is valid. *)
Theorem validateEmail_example_domain `{U : Unicode} :
  validateEmail (Some (lit "user@example.com"))
  = {| isValid := false;
       error := Some errors.INVALID_EMAIL;
       value := lit "user@example.com" |}
  /\ test emailRegex (lit "user@example.com") = true
  /\ option_map (fun re => test re (lit "user@example.com"))
                (nth_error suspiciousPatterns 4) = Some true
  /\ isSuspiciousEmail (lit "user@example.com") = true
  /\ error (validateEmail (Some (lit "user.example.com")))
     = error (validateEmail (Some (lit "user@example.com")))
  /\ validateEmail (Some (lit "jane.doe@schoolboard.org"))
     = {| isValid := true;
          error := None;
          value := lit "jane.doe@schoolboard.org" |}.
Proof.
  assert (L1 : isBasicLatin (lit "user@example.com")) by (now apply latin_check).
  assert (L2 : isBasicLatin (lit "jane.doe@schoolboard.org")) by (now apply latin_check).
  assert (L3 : isBasicLatin (lit "user.example.com")) by (now apply latin_check).
  repeat apply conj.
  - rewrite (validateEmail_latin _ L1). vm_compute. reflexivity.
  - rewrite (test_latin emailRegex _ L1) by reflexivity. vm_compute. reflexivity.
  - cbn [nth_error suspiciousPatterns option_map].
    rewrite (test_latin _ _ L1) by reflexivity. vm_compute. reflexivity.
  - rewrite (isSuspiciousEmail_latin _ L1). vm_compute. reflexivity.
  - rewrite (validateEmail_latin _ L1), (validateEmail_latin _ L3).
    vm_compute. reflexivity.
  - rewrite (validateEmail_latin _ L2). vm_compute. reflexivity.
Qed.

(** C7: for every input string the result of [validateEmail] has [isValid]
    true exactly when its [error] is null, and its [value] is the input
    trimmed and lower-cased, whether or not validation succeeded. *)
Theorem validateEmail_result_invariant `{U : Unicode} (raw : jsstring) :
  let r := validateEmail (Some raw) in
  (isValid r = true <-> error r = None)
  /\ value r = toLowerCase (trim raw).
Proof.
  intros r. split; [|apply validateEmail_value].
  subst r. unfold validateEmail.
  repeat match goal with
         | |- context [if ?b then _ else _] => destruct b
         end; simpl; split; congruence.
Qed.

(** ** Further properties of the validator *)

Lemma trimStart_blank (s : jsstring) :
  forallb isWhiteSpace s = true -> trimStart s = [].
Proof.
  induction s as [|c s IH]; cbn [forallb trimStart]; [reflexivity|].
  intros H. apply andb_prop in H as [Hc Hs]. rewrite Hc. auto.
Qed.

Lemma trim_blank (s : jsstring) : forallb isWhiteSpace s = true -> trim s = [].
Proof.
  intros H. unfold trim, trimEnd. rewrite (trimStart_blank s H). reflexivity.
Qed.

Section MatchesBuild.
Variable canon : N -> N.
Variable ic : bool.

Lemma in_members (cs : list (N * N)) (c : N) :
  inRanges cs c = true -> In c (members cs).
Proof.
  unfold inRanges, members. rewrite List.existsb_exists.
  intros [[lo hi] [Hin Hc]]. apply andb_prop in Hc as [H1 H2].
  apply N.leb_le in H1, H2.
  apply List.in_flat_map. exists (lo, hi). split; [exact Hin|].
  apply List.in_map_iff. exists (N.to_nat c). split; [apply N2Nat.id|].
  apply List.in_seq. lia.
Qed.

Lemma classMatches_inRanges (cs : list (N * N)) (c : N) :
  inRanges cs c = true -> classMatches canon ic cs c = true.
Proof.
  intros H. unfold classMatches. destruct ic; [|exact H].
  apply List.existsb_exists. exists c. split; [now apply in_members|].
  apply N.eqb_refl.
Qed.

Lemma chars_match (s : list ascii) :
  Matches canon ic (fold_right (fun a r => Seq (Chr a) r) Eps s) (map N_of_ascii s).
Proof.
  induction s as [|a s IH]; cbn [fold_right map]; [apply MEps|].
  change (N_of_ascii a :: map N_of_ascii s)
    with ([N_of_ascii a] ++ map N_of_ascii s).
  apply MSeq; [|exact IH]. apply MClass, classMatches_inRanges.
  unfold inRanges, ch. cbn [existsb]. rewrite N.leb_refl. reflexivity.
Qed.

Lemma str_matches (s : string) : Matches canon ic (Str s) (lit s).
Proof. apply chars_match. Qed.

Lemma star_class_matches (cs : list (N * N)) (s : jsstring) :
  forallb (inRanges cs) s = true -> Matches canon ic (Star (Class cs)) s.
Proof.
  induction s as [|c s IH]; cbn [forallb]; [intros _; apply MStarNil|].
  intros H. apply andb_prop in H as [Hc Hs].
  change (c :: s) with ([c] ++ s).
  apply MStarCons; [|auto]. now apply MClass, classMatches_inRanges.
Qed.

Lemma plus_class_matches (cs : list (N * N)) (s : jsstring) :
  s <> [] -> forallb (inRanges cs) s = true ->
  Matches canon ic (Plus (Class cs)) s.
Proof.
  destruct s as [|c s]; [congruence|]. intros _ H. cbn [forallb] in H.
  apply andb_prop in H as [Hc Hs].
  change (c :: s) with ([c] ++ s). unfold Plus.
  apply MSeq; [|now apply star_class_matches].
  now apply MClass, classMatches_inRanges.
Qed.

Lemma same_run_matches (c : N) (n : nat) :
  Matches canon ic (SameRun c n) (repeat c n).
Proof.
  induction n as [|n IH]; cbn [repeat]; [apply MSameNil|].
  apply MSameCons; [|exact IH].
  unfold sameChar. destruct ic; apply N.eqb_refl.
Qed.

Lemma class_inv (cs : list (N * N)) (s : jsstring) :
  Matches canon ic (Class cs) s ->
  exists c, s = [c] /\ classMatches canon ic cs c = true.
Proof. intros H. inversion H; subst; eauto. Qed.

Lemma star_inv (r : Regex) (s : jsstring) :
  Matches canon ic (Star r) s ->
  exists parts, s = concat parts /\ Forall (Matches canon ic r) parts.
Proof.
  intros H. remember (Star r) as r' eqn:Hr.
  induction H; try discriminate.
  - exists []. split; [reflexivity | constructor].
  - injection Hr as ->. destruct (IHMatches2 eq_refl) as (parts & -> & Hp).
    exists (s1 :: parts). split; [reflexivity | now constructor].
Qed.

Lemma star_matches (r : Regex) (parts : list jsstring) :
  Forall (Matches canon ic r) parts -> Matches canon ic (Star r) (concat parts).
Proof.
  induction 1 as [|s parts Hs Hp IH]; cbn [concat]; [apply MStarNil|].
  now apply MStarCons.
Qed.

Lemma rep_class_matches (cs : list (N * N)) (hi : nat) (s : jsstring) :
  forallb (inRanges cs) s = true -> (length s <= hi)%nat ->
  Matches canon ic (Rep (Class cs) 0 hi) s.
Proof.
  revert hi. induction s as [|c s IH]; intros hi Hs Hlen; [apply MRepNil|].
  cbn [forallb] in Hs. apply andb_prop in Hs as [Hc Hs].
  destruct hi as [|hi]; [cbn in Hlen; lia|].
  change (c :: s) with ([c] ++ s).
  apply (MRepCons _ _ (Class cs) 0 hi);
    [now apply MClass, classMatches_inRanges|].
  apply IH; [exact Hs | cbn in Hlen; lia].
Qed.

End MatchesBuild.

(** What [emailRegex] matches.  The pattern has no [i] flag, so the tables
    play no part. *)
Section AddressShape.
Variable canon : N -> N.
Local Notation "r =~ s" := (Matches canon false r s) (at level 70).

Lemma chr_inv (a : ascii) (s : jsstring) : Chr a =~ s -> s = [ch a].
Proof.
  intros H. apply class_inv in H as (c & -> & Hc).
  cbn [classMatches inRanges existsb] in Hc.
  rewrite orb_false_r in Hc. apply andb_prop in Hc as [H1 H2].
  apply N.leb_le in H1, H2. f_equal. lia.
Qed.

Lemma chr_matches (a : ascii) : Chr a =~ [ch a].
Proof.
  apply MClass. cbn [classMatches inRanges existsb].
  rewrite N.leb_refl. reflexivity.
Qed.

Lemma star_class_inv (cs : list (N * N)) (s : jsstring) :
  Star (Class cs) =~ s -> forallb (inRanges cs) s = true.
Proof.
  intros H. apply star_inv in H as (parts & -> & Hp).
  induction Hp as [|p parts Hc _ IH]; [reflexivity|].
  apply class_inv in Hc as (c & -> & Hc). cbn [concat app forallb].
  now rewrite IH, andb_true_r.
Qed.

Lemma plus_class_inv (cs : list (N * N)) (s : jsstring) :
  Plus (Class cs) =~ s -> s <> [] /\ forallb (inRanges cs) s = true.
Proof.
  intros H. apply seq_inv in H as (s1 & s2 & -> & H1 & H2).
  apply class_inv in H1 as (c & -> & Hc). apply star_class_inv in H2.
  split; [discriminate|]. cbn [app forallb]. now rewrite H2, andb_true_r.
Qed.

Lemma rep_class_inv (cs : list (N * N)) (lo hi : nat) (s : jsstring) :
  Rep (Class cs) lo hi =~ s ->
  forallb (inRanges cs) s = true /\ (length s <= hi)%nat.
Proof.
  revert lo s. induction hi as [|hi IH]; intros lo s H;
    apply rep_inv in H as [[_ ->] | (hi' & s1 & s2 & Hh & -> & H1 & H2)];
    try (split; [reflexivity | cbn; lia]); [discriminate|].
  injection Hh as <-. apply class_inv in H1 as (c & -> & Hc).
  apply IH in H2 as [H2 Hlen]. cbn [app forallb length].
  split; [now rewrite H2, andb_true_r | lia].
Qed.

Lemma alnum_in_hyphen (c : N) :
  inRanges alnumClass c = true -> inRanges alnumHyphenClass c = true.
Proof.
  unfold inRanges. change alnumHyphenClass with (alnumClass ++ [one "-"%char]).
  rewrite existsb_app. intros ->. reflexivity.
Qed.

Lemma label_inv (s : jsstring) : domainLabel =~ s -> isDomainLabel s = true.
Proof.
  unfold domainLabel. intros H.
  apply seq_inv in H as (s1 & s2 & -> & H1 & H2).
  apply class_inv in H1 as (c & -> & Hc). cbn [classMatches] in Hc.
  apply alt_inv in H2 as [H2 | H2].
  - apply seq_inv in H2 as (m & t & -> & Hm & Ht).
    apply rep_class_inv in Hm as [Hm Hlen].
    apply class_inv in Ht as (d & -> & Hd). cbn [classMatches] in Hd.
    cbn [app isDomainLabel]. rewrite Hc, forallb_app, Hm, last_last, Hd.
    cbn [forallb]. rewrite (alnum_in_hyphen d Hd). cbn [andb].
    apply Nat.leb_le. cbn [length]. rewrite length_app. cbn [length]. lia.
  - inversion H2; subst. cbn [app isDomainLabel forallb List.last length].
    now rewrite Hc.
Qed.

Lemma label_matches (s : jsstring) : isDomainLabel s = true -> domainLabel =~ s.
Proof.
  unfold domainLabel. destruct s as [|c m]; [discriminate|].
  cbn [isDomainLabel]. intros H.
  apply andb_prop in H as [H Hlen]. apply andb_prop in H as [H Hlast].
  apply andb_prop in H as [Hc Hm]. apply Nat.leb_le in Hlen.
  change (c :: m) with ([c] ++ m). apply MSeq; [now apply MClass|].
  induction m as [|d m' _] using rev_ind.
  - apply MAltR, MEps.
  - rewrite last_last in Hlast. rewrite forallb_app in Hm.
    apply andb_prop in Hm as [Hm _].
    apply MAltL, MSeq; [|now apply MClass].
    apply rep_class_matches; [exact Hm|].
    cbn [length] in Hlen. rewrite length_app in Hlen. cbn [length] in Hlen. lia.
Qed.

Lemma labels_inv (s : jsstring) :
  Star (Seq (Chr ".") domainLabel) =~ s ->
  exists ls, s = flat_map (fun l => ch "." :: l) ls
             /\ forallb isDomainLabel ls = true.
Proof.
  intros H. apply star_inv in H as (parts & -> & Hp).
  induction Hp as [|p parts Hc _ (ls & IH & Hls)]; [now exists []|].
  apply seq_inv in Hc as (s1 & l & -> & H1 & Hl).
  apply chr_inv in H1 as ->. apply label_inv in Hl.
  exists (l :: ls). cbn [concat flat_map forallb app].
  rewrite IH, Hl, Hls. auto.
Qed.

Lemma labels_matches (ls : list jsstring) :
  forallb isDomainLabel ls = true ->
  Star (Seq (Chr ".") domainLabel) =~ flat_map (fun l => ch "." :: l) ls.
Proof.
  induction ls as [|l ls IH]; cbn [forallb flat_map]; [intros _; apply MStarNil|].
  intros H. apply andb_prop in H as [Hl Hls].
  change ((ch "." :: l) ++ flat_map (fun l0 => ch "." :: l0) ls)
    with (([ch "."] ++ l) ++ flat_map (fun l0 => ch "." :: l0) ls).
  apply MStarCons; [|auto].
  apply MSeq; [apply chr_matches | now apply label_matches].
Qed.

Lemma emailRegex_body_shape (v : jsstring) :
  body emailRegex =~ v
  <-> exists local labels,
        v = local ++ ch "@" :: dotted labels
        /\ isAddressShape local labels = true.
Proof.
  cbn [body emailRegex]. unfold isAddressShape. split.
  - intros H.
    apply seq_inv in H as (local & s2 & -> & Hlocal & H).
    apply seq_inv in H as (s3 & s4 & -> & Hat & H).
    apply seq_inv in H as (l0 & s5 & -> & Hl0 & H).
    apply plus_class_inv in Hlocal as [Hne Hlocal].
    apply chr_inv in Hat as ->. apply label_inv in Hl0.
    apply labels_inv in H as (ls & -> & Hls).
    exists local, (l0 :: ls). split; [reflexivity|].
    apply (proj2 (truthy_nonempty _)) in Hne.
    cbn [forallb length Nat.eqb negb]. now rewrite Hne, Hlocal, Hl0, Hls.
  - intros (local & labels & -> & H).
    apply andb_prop in H as [H Hls]. apply andb_prop in H as [H Hn].
    apply andb_prop in H as [Hne Hlocal].
    apply truthy_nonempty in Hne.
    destruct labels as [|l0 ls]; [discriminate|].
    cbn [forallb] in Hls. apply andb_prop in Hls as [Hl0 Hls].
    apply MSeq; [now apply plus_class_matches|].
    change (ch "@" :: dotted (l0 :: ls)) with ([ch "@"] ++ dotted (l0 :: ls)).
    apply MSeq; [apply chr_matches|]. cbn [dotted].
    apply MSeq; [now apply label_matches | now apply labels_matches].
Qed.

End AddressShape.

Lemma split_from_none (sep : N) (cur s : jsstring) :
  forallb (fun c => negb (c =? sep)) s = true ->
  split_from sep cur s = [rev cur ++ s].
Proof.
  revert cur. induction s as [|c s IH]; intros cur H; cbn [split_from].
  - now rewrite app_nil_r.
  - cbn [forallb] in H. apply andb_prop in H as [Hc Hs].
    apply negb_true_iff in Hc. rewrite Hc, (IH _ Hs).
    cbn [rev]. now rewrite <- app_assoc.
Qed.

Lemma split_from_first (sep : N) (cur l d : jsstring) :
  forallb (fun c => negb (c =? sep)) l = true ->
  split_from sep cur (l ++ sep :: d) = (rev cur ++ l) :: split_from sep [] d.
Proof.
  revert cur. induction l as [|c l IH]; intros cur H; cbn [app split_from].
  - now rewrite N.eqb_refl, app_nil_r.
  - cbn [forallb] in H. apply andb_prop in H as [Hc Hl].
    apply negb_true_iff in Hc. rewrite Hc, (IH _ Hl).
    cbn [rev]. now rewrite <- app_assoc.
Qed.

Lemma localClass_no_at (c : N) :
  inRanges localClass c = true -> negb (c =? ch "@") = true.
Proof.
  intros H. destruct (N.eqb_spec c (ch "@")) as [-> | _]; [|reflexivity].
  vm_compute in H. discriminate.
Qed.

Lemma alnumHyphen_no_at (c : N) :
  inRanges alnumHyphenClass c = true -> negb (c =? ch "@") = true.
Proof.
  intros H. destruct (N.eqb_spec c (ch "@")) as [-> | _]; [|reflexivity].
  vm_compute in H. discriminate.
Qed.

Lemma forallb_impl {A : Type} (f g : A -> bool) (l : list A) :
  (forall x, f x = true -> g x = true) ->
  forallb f l = true -> forallb g l = true.
Proof.
  intros Hfg. rewrite !List.forallb_forall. auto.
Qed.

Lemma label_no_at (l : jsstring) :
  isDomainLabel l = true -> forallb (fun c => negb (c =? ch "@")) l = true.
Proof.
  destruct l as [|c m]; [reflexivity|]. cbn [isDomainLabel forallb]. intros H.
  apply andb_prop in H as [H _]. apply andb_prop in H as [H _].
  apply andb_prop in H as [Hc Hm].
  rewrite (alnumHyphen_no_at c (alnum_in_hyphen c Hc)).
  exact (forallb_impl _ _ _ alnumHyphen_no_at Hm).
Qed.

Lemma dotted_no_at (labels : list jsstring) :
  forallb isDomainLabel labels = true ->
  forallb (fun c => negb (c =? ch "@")) (dotted labels) = true.
Proof.
  destruct labels as [|l0 ls]; [reflexivity|]. cbn [forallb dotted]. intros H.
  apply andb_prop in H as [H0 Hls]. rewrite forallb_app, (label_no_at _ H0).
  cbn [andb]. induction ls as [|l ls IH]; [reflexivity|].
  cbn [forallb flat_map app] in *. apply andb_prop in Hls as [Hl Hls].
  rewrite forallb_app, (label_no_at _ Hl), (IH Hls). reflexivity.
Qed.

Lemma domain_of_address (local : jsstring) (labels : list jsstring) :
  isAddressShape local labels = true ->
  nth_error (split (ch "@") (local ++ ch "@" :: dotted labels)) 1
  = Some (dotted labels).
Proof.
  unfold isAddressShape. intros H.
  apply andb_prop in H as [H Hls]. apply andb_prop in H as [H _].
  apply andb_prop in H as [_ Hlocal].
  unfold split.
  rewrite split_from_first by exact (forallb_impl _ _ _ localClass_no_at Hlocal).
  rewrite split_from_none by now apply dotted_no_at.
  reflexivity.
Qed.

Lemma disposable_labels (d : jsstring) :
  In d disposableDomains ->
  exists labels,
    d = dotted labels
    /\ negb (Nat.eqb (length labels) 0) && forallb isDomainLabel labels = true.
Proof.
  unfold disposableDomains. cbn [In].
  intros [<- | [<- | [<- | [<- | [<- | [<- | []]]]]]].
  - exists [lit "10minutemail"; lit "com"]. split; vm_compute; reflexivity.
  - exists [lit "tempmail"; lit "org"]. split; vm_compute; reflexivity.
  - exists [lit "guerrillamail"; lit "com"]. split; vm_compute; reflexivity.
  - exists [lit "mailinator"; lit "com"]. split; vm_compute; reflexivity.
  - exists [lit "temp-mail"; lit "org"]. split; vm_compute; reflexivity.
  - exists [lit "throwaway"; lit "email"]. split; vm_compute; reflexivity.
Qed.

Section ValidatorMore.
Context `{U : Unicode}.

Lemma suspicious_by (re : RegExp) (v pre mid post : jsstring) :
  In re suspiciousPatterns ->
  v = pre ++ mid ++ post ->
  Matches Canonicalize (ignoreCase re) (body re) mid ->
  (atStart re = true -> pre = []) ->
  (atEnd re = true -> post = []) ->
  isSuspiciousEmail v = true.
Proof.
  intros Hin Hv Hm Hpre Hpost. unfold isSuspiciousEmail.
  apply List.existsb_exists. exists re. split; [exact Hin|].
  apply test_spec.
  - pose proof (proj2 patterns_wf) as Hwf.
    rewrite List.forallb_forall in Hwf. now apply Hwf.
  - exists pre, mid, post. auto.
Qed.

Lemma suspicious_never_valid (raw : jsstring) :
  isSuspiciousEmail (toLowerCase (trim raw)) = true ->
  isValid (validateEmail (Some raw)) = false.
Proof.
  intros Hs. unfold validateEmail. destruct raw as [|c e]; [reflexivity|].
  rewrite Hs.
  repeat match goal with
         | |- context [if ?b then _ else _] => destruct b
         end; reflexivity.
Qed.

(** X13: a missing value, the empty string and a string of white space only
    are all reported as REQUIRED, with the empty string as value; the form
    data is then invalid and carries no email. *)
Theorem validateEmail_blank (email : option jsstring) :
  (email = None \/ exists raw, email = Some raw /\ forallb isWhiteSpace raw = true) ->
  validateEmail email
  = {| isValid := false; error := Some errors.REQUIRED; value := [] |}
  /\ validateFormData email
     = {| formIsValid := false; errors_email := Some errors.REQUIRED;
          data_email := None |}.
Proof.
  intros H.
  assert (Hv : validateEmail email
               = {| isValid := false; error := Some errors.REQUIRED; value := [] |}).
  { destruct H as [-> | (raw & -> & Hraw)]; [reflexivity|].
    unfold validateEmail. destruct raw as [|c e]; [reflexivity|].
    rewrite (trim_blank _ Hraw), toLowerCase_nil. reflexivity. }
  split; [exact Hv|]. unfold validateFormData. rewrite Hv. reflexivity.
Qed.

(** X14: an address whose normalized value starts with [test@], [fake@],
    [spam@] or [noreply@], or ends with [example.com], [localhost] or
    [.local], is never valid. *)
Theorem validateEmail_suspicious_literal (raw : jsstring) :
  ((exists p rest,
       In p [lit "test@"; lit "fake@"; lit "spam@"; lit "noreply@"]
       /\ toLowerCase (trim raw) = p ++ rest)
   \/ (exists pre s,
          In s [lit "example.com"; lit "localhost"; lit ".local"]
          /\ toLowerCase (trim raw) = pre ++ s)) ->
  isValid (validateEmail (Some raw)) = false.
Proof.
  intros H. apply suspicious_never_valid.
  destruct H as [(p & rest & Hp & Hv) | (pre & s & Hs & Hv)].
  - cbn [In] in Hp.
    destruct Hp as [<- | [<- | [<- | [<- | []]]]].
    + apply (suspicious_by (nth 0 suspiciousPatterns emailRegex) _ [] (lit "test@") rest);
        [now left | exact Hv | apply str_matches | auto | discriminate].
    + apply (suspicious_by (nth 1 suspiciousPatterns emailRegex) _ [] (lit "fake@") rest);
        [now right; left | exact Hv | apply str_matches | auto | discriminate].
    + apply (suspicious_by (nth 2 suspiciousPatterns emailRegex) _ [] (lit "spam@") rest);
        [now do 2 right; left | exact Hv | apply str_matches | auto | discriminate].
    + apply (suspicious_by (nth 3 suspiciousPatterns emailRegex) _ [] (lit "noreply@") rest);
        [now do 3 right; left | exact Hv | apply str_matches | auto | discriminate].
  - cbn [In] in Hs. rewrite <- (app_nil_r s) in Hv.
    destruct Hs as [<- | [<- | [<- | []]]].
    + apply (suspicious_by (nth 4 suspiciousPatterns emailRegex) _ pre (lit "example.com") []);
        [now do 4 right; left | exact Hv | apply str_matches | discriminate | auto].
    + apply (suspicious_by (nth 5 suspiciousPatterns emailRegex) _ pre (lit "localhost") []);
        [now do 5 right; left | exact Hv | apply str_matches | discriminate | auto].
    + apply (suspicious_by (nth 6 suspiciousPatterns emailRegex) _ pre (lit ".local") []);
        [now do 6 right; left | exact Hv | apply str_matches | discriminate | auto].
Qed.

(** X15: an address is never valid when, in its normalized value, the part
    before the first [@] is all digits or a single letter [a-z], or when
    some code unit other than a line terminator occurs five times in a row
    just before an [@]. *)
Theorem validateEmail_suspicious_local (raw : jsstring) :
  ((exists ds rest,
       ds <> [] /\ forallb (inRanges [rng "0" "9"]%char) ds = true
       /\ toLowerCase (trim raw) = ds ++ ch "@" :: rest)
   \/ (exists c rest,
          inRanges [rng "a" "z"]%char c = true
          /\ toLowerCase (trim raw) = c :: ch "@" :: rest)
   \/ (exists pre c rest,
          isLineTerminator c = false
          /\ toLowerCase (trim raw) = pre ++ repeat c 5 ++ ch "@" :: rest)) ->
  isValid (validateEmail (Some raw)) = false.
Proof.
  intros H. apply suspicious_never_valid.
  destruct H as [(ds & rest & Hne & Hds & Hv)
                | [(c & rest & Hc & Hv) | (pre & c & rest & Hc & Hv)]].
  - apply (suspicious_by (nth 7 suspiciousPatterns emailRegex) _ []
             (ds ++ [ch "@"]) rest);
      [now do 7 right; left | | | auto | discriminate].
    + rewrite Hv, <- app_assoc. reflexivity.
    + apply MSeq; [now apply plus_class_matches|].
      apply MClass, classMatches_inRanges. reflexivity.
  - apply (suspicious_by (nth 8 suspiciousPatterns emailRegex) _ []
             (([c] ++ []) ++ [ch "@"]) rest);
      [now do 8 right; left | exact Hv | | auto | discriminate].
    apply MSeq.
    + apply (MRepCons _ _ (Class [rng "a" "z"]%char) 1 0);
        [now apply MClass, classMatches_inRanges | apply MRepNil].
    + apply MClass, classMatches_inRanges. reflexivity.
  - apply (suspicious_by (nth 9 suspiciousPatterns emailRegex) _ pre
             ((c :: repeat c 4) ++ [ch "@"]) rest);
      [now do 9 right; left | | | discriminate | discriminate].
    + rewrite Hv, <- !app_assoc. reflexivity.
    + apply MSeq; [apply MCapture; [exact Hc | apply same_run_matches]|].
      apply MClass, classMatches_inRanges. reflexivity.
Qed.

Lemma emailRegex_shape (v : jsstring) :
  test emailRegex v = true
  <-> exists local labels,
        v = local ++ ch "@" :: dotted labels
        /\ isAddressShape local labels = true.
Proof.
  rewrite (test_spec emailRegex v (proj1 patterns_wf)).
  rewrite <- (emailRegex_body_shape Canonicalize). split.
  - intros (pre & mid & post & -> & Hm & Hpre & Hpost).
    rewrite (Hpre eq_refl), (Hpost eq_refl), app_nil_r. exact Hm.
  - intros Hm. exists [], v, []. rewrite app_nil_r. auto.
Qed.

Lemma disposable_spec (d : jsstring) :
  existsb (JsString.eqb d) disposableDomains = true <-> In d disposableDomains.
Proof.
  rewrite List.existsb_exists. split.
  - intros (x & Hin & Hx). apply eqb_eq in Hx. now subst.
  - intros Hin. exists d. split; [exact Hin | now apply eqb_eq].
Qed.

(** X16: what [validateEmail] accepts.  A string is valid exactly when its
    normalized value (trimmed, lower-cased) is a non-empty run of the
    allowed local units, one [@] and a domain of dot-separated labels, has
    at most 254 units, has a domain outside the disposable list and matches
    none of the suspicious patterns. *)
Theorem validateEmail_valid_iff (raw : jsstring) :
  isValid (validateEmail (Some raw)) = true
  <-> exists local labels,
        toLowerCase (trim raw) = local ++ ch "@" :: dotted labels
        /\ isAddressShape local labels = true
        /\ (length (toLowerCase (trim raw)) <= 254)%nat
        /\ ~ In (dotted labels) disposableDomains
        /\ isSuspiciousEmail (toLowerCase (trim raw)) = false.
Proof.
  unfold validateEmail. destruct raw as [|c e].
  - cbn [trim trimStart trimEnd rev app]. rewrite toLowerCase_nil. split.
    + discriminate.
    + intros (local & labels & H & _). destruct local; discriminate.
  - remember (toLowerCase (trim (c :: e))) as v eqn:Ev. clear Ev. split.
    + destruct v as [|a w]; [discriminate|]. cbn [JsString.truthy negb].
      destruct (Nat.ltb_spec 254 (length (a :: w))) as [|Hlen]; [discriminate|].
      destruct (test emailRegex (a :: w)) eqn:Ht; [|discriminate].
      apply emailRegex_shape in Ht as (local & labels & Hv & Hshape).
      rewrite Hv in *. rewrite (domain_of_address _ _ Hshape). cbn [negb].
      destruct (existsb _ disposableDomains) eqn:Hd; [discriminate|].
      destruct (isSuspiciousEmail _) eqn:Hs; [discriminate|].
      intros _. exists local, labels. repeat split; auto.
      intros Hin. apply disposable_spec in Hin. congruence.
    + intros (local & labels & Hv & Hshape & Hlen & Hd & Hs).
      assert (Ht : test emailRegex v = true)
        by (apply emailRegex_shape; eauto).
      subst v. rewrite Hs, Ht, (domain_of_address _ _ Hshape).
      destruct (existsb _ disposableDomains) eqn:E;
        [apply disposable_spec in E; contradiction|].
      destruct (Nat.ltb_spec 254 (length (local ++ ch "@" :: dotted labels)))
        as [|_]; [lia|].
      destruct local; reflexivity.
Qed.

(** X17: an address with a well-formed local part and a domain of the
    disposable list is reported as DISPOSABLE_EMAIL, also when it would
    match a suspicious pattern: the denylist is consulted first. *)
Theorem validateEmail_disposable (raw local d : jsstring) :
  toLowerCase (trim raw) = local ++ ch "@" :: d ->
  local <> [] ->
  forallb (inRanges localClass) local = true ->
  In d disposableDomains ->
  (length (toLowerCase (trim raw)) <= 254)%nat ->
  validateEmail (Some raw)
  = {| isValid := false;
       error := Some errors.DISPOSABLE_EMAIL;
       value := toLowerCase (trim raw) |}.
Proof.
  intros Hv Hne Hlocal Hd Hlen.
  destruct (disposable_labels d Hd) as (labels & -> & Hls).
  assert (Hshape : isAddressShape local labels = true).
  { unfold isAddressShape. apply truthy_nonempty in Hne.
    rewrite Hne, Hlocal. exact Hls. }
  unfold validateEmail. destruct raw as [|c e].
  - exfalso. revert Hv. cbn [trim trimStart trimEnd rev app].
    rewrite toLowerCase_nil. destruct local; discriminate.
  - remember (toLowerCase (trim (c :: e))) as v eqn:Ev. clear Ev.
    assert (Ht : test emailRegex v = true)
      by (apply emailRegex_shape; eauto).
    subst v. rewrite Ht, (domain_of_address _ _ Hshape).
    rewrite (proj2 (disposable_spec _) Hd).
    destruct (Nat.ltb_spec 254 (length (local ++ ch "@" :: dotted labels)))
      as [|_]; [lia|].
    destruct local; [congruence | reflexivity].
Qed.

(** *** Normalizing twice *)

Lemma trimStart_head (s : jsstring) :
  match trimStart s with [] => True | c :: _ => isWhiteSpace c = false end.
Proof.
  induction s as [|a s IH]; cbn [trimStart]; [exact I|].
  destruct (isWhiteSpace a) eqn:E; [exact IH | exact E].
Qed.

Lemma trimStart_fixed (t : jsstring) :
  match t with [] => True | c :: _ => isWhiteSpace c = false end ->
  trimStart t = t.
Proof. destruct t as [|c t]; [reflexivity|]. cbn [trimStart]. now intros ->. Qed.

Lemma trimStart_split (s : jsstring) : exists p, s = p ++ trimStart s.
Proof.
  induction s as [|a s [p IH]]; [now exists []|]. cbn [trimStart].
  destruct (isWhiteSpace a); [|now exists []].
  exists (a :: p). cbn [app]. now f_equal.
Qed.

Lemma trimEnd_head (u : jsstring) :
  match u with [] => True | c :: _ => isWhiteSpace c = false end ->
  match trimEnd u with [] => True | c :: _ => isWhiteSpace c = false end.
Proof.
  intros Hu. unfold trimEnd.
  destruct (trimStart_split (rev u)) as [p Hp].
  apply (f_equal (@rev N)) in Hp. rewrite rev_involutive, rev_app_distr in Hp.
  destruct (rev (trimStart (rev u))) as [|c t]; [exact I|].
  rewrite Hp in Hu. exact Hu.
Qed.

Lemma trim_idempotent (s : jsstring) : trim (trim s) = trim s.
Proof.
  unfold trim at 1. rewrite (trimStart_fixed (trim s)).
  - unfold trim, trimEnd. rewrite rev_involutive.
    now rewrite (trimStart_fixed _ (trimStart_head _)).
  - apply trimEnd_head, trimStart_head.
Qed.

Lemma isWhiteSpace_lowerLatin (c : N) :
  isWhiteSpace (lowerLatin c) = isWhiteSpace c.
Proof.
  unfold lowerLatin.
  destruct (N.leb_spec 65 c), (N.leb_spec c 90); cbn [andb]; try reflexivity.
  unfold isWhiteSpace, isLineTerminator.
  repeat match goal with
         | |- context [?a =? ?b] => destruct (N.eqb_spec a b); [lia|]
         | |- context [?a <=? ?b] => destruct (N.leb_spec a b); [try lia|]
         end; try reflexivity; cbn [andb orb];
  repeat match goal with
         | |- context [?a <=? ?b] => destruct (N.leb_spec a b); try lia
         end; reflexivity.
Qed.

Lemma trimStart_lowerLatin (s : jsstring) :
  trimStart (map lowerLatin s) = map lowerLatin (trimStart s).
Proof.
  induction s as [|a s IH]; [reflexivity|]. cbn [map trimStart].
  rewrite isWhiteSpace_lowerLatin. destruct (isWhiteSpace a); [exact IH | reflexivity].
Qed.

Lemma trim_lowerLatin (s : jsstring) :
  trim (map lowerLatin s) = map lowerLatin (trim s).
Proof.
  unfold trim, trimEnd.
  now rewrite trimStart_lowerLatin, <- map_rev, trimStart_lowerLatin, map_rev.
Qed.

Lemma lowerLatin_idempotent (c : N) : lowerLatin (lowerLatin c) = lowerLatin c.
Proof.
  unfold lowerLatin.
  destruct (N.leb_spec 65 c), (N.leb_spec c 90); cbn [andb];
    destruct (N.leb_spec 65 (c + 32)), (N.leb_spec (c + 32) 90); cbn [andb];
    try lia; try reflexivity;
    destruct (N.leb_spec 65 c), (N.leb_spec c 90); cbn [andb]; lia.
Qed.

(** X27: validation is stable under its own normalization: for a Basic
    Latin input, validating the value a result carries gives that same
    result again, so the normalized address can be validated anew without
    a change of verdict. *)
Theorem validateEmail_normalized_again (raw : jsstring) :
  isBasicLatin raw ->
  validateEmail (Some (value (validateEmail (Some raw))))
  = validateEmail (Some raw).
Proof.
  intros Hraw. rewrite validateEmail_value.
  rewrite (toLowerCase_latin (trim raw)) by now apply trim_latin.
  assert (Hfix : toLowerCase (trim (map lowerLatin (trim raw)))
                 = map lowerLatin (trim raw)).
  { rewrite trim_lowerLatin, trim_idempotent.
    rewrite toLowerCase_latin by now apply map_lowerLatin_latin, trim_latin.
    rewrite map_map. apply map_ext. exact lowerLatin_idempotent. }
  destruct raw as [|c e]; [reflexivity|].
  unfold validateEmail at 2.
  rewrite (toLowerCase_latin (trim (c :: e))) by now apply trim_latin.
  remember (map lowerLatin (trim (c :: e))) as v eqn:E.
  unfold validateEmail. destruct v as [|a w]; [reflexivity|].
  rewrite Hfix. reflexivity.
Qed.

End ValidatorMore.

Lemma validateEmail_normalized_again_witness :
  validateEmail (U := BasicLatinOnly)
    (Some (value (validateEmail (U := BasicLatinOnly)
                    (Some (lit "  Jane.Doe@SchoolBoard.org ")))))
  = validateEmail (U := BasicLatinOnly) (Some (lit "  Jane.Doe@SchoolBoard.org ")).
Proof.
  apply (validateEmail_normalized_again (U := BasicLatinOnly)
           (lit "  Jane.Doe@SchoolBoard.org ")).
  now apply latin_check.
Defined.

Lemma validateEmail_blank_witness :
  validateEmail (U := BasicLatinOnly) (Some (lit "   "))
  = {| isValid := false; error := Some errors.REQUIRED; value := [] |}
  /\ validateFormData (U := BasicLatinOnly) (Some (lit "   "))
     = {| formIsValid := false; errors_email := Some errors.REQUIRED;
          data_email := None |}.
Proof.
  apply (validateEmail_blank (U := BasicLatinOnly) (Some (lit "   "))).
  right. exists (lit "   "). split; reflexivity.
Defined.

Lemma validateEmail_suspicious_literal_witness :
  isValid (validateEmail (U := BasicLatinOnly) (Some (lit " Test@Gmail.com "))) = false.
Proof.
  apply (validateEmail_suspicious_literal (U := BasicLatinOnly)
           (lit " Test@Gmail.com ")).
  left. exists (lit "test@"), (lit "gmail.com").
  split; [left; reflexivity | vm_compute; reflexivity].
Defined.

Lemma validateEmail_suspicious_local_witness :
  isValid (validateEmail (U := BasicLatinOnly) (Some (lit "20251202@gmail.com"))) = false.
Proof.
  apply (validateEmail_suspicious_local (U := BasicLatinOnly)
           (lit "20251202@gmail.com")).
  left. exists (lit "20251202"), (lit "gmail.com").
  split; [discriminate|]. split; vm_compute; reflexivity.
Defined.

Lemma validateEmail_disposable_witness :
  validateEmail (U := BasicLatinOnly) (Some (lit "Test@Mailinator.com"))
  = {| isValid := false;
       error := Some errors.DISPOSABLE_EMAIL;
       value := toLowerCase (Unicode := BasicLatinOnly)
                  (trim (lit "Test@Mailinator.com")) |}.
Proof.
  apply (validateEmail_disposable (U := BasicLatinOnly)
           (lit "Test@Mailinator.com") (lit "test") (lit "mailinator.com")).
  - vm_compute. reflexivity.
  - discriminate.
  - vm_compute. reflexivity.
  - do 3 right. left. reflexivity.
  - vm_compute. lia.
Defined.

(** ** The serverless function *)

Module EmailCaptureFacts.
Import EmailCapture.

Ltac run_async :=
  unfold bind, ret, throw, emit, try_catch, or_throw; simpl.

Section Facts.
Variable env : gmap string jsstring.
Variable upstream : Upstream.

(** Without one of the credentials the token is not asked for. *)
Lemma getZohoAccessToken_unconfigured (l : list Effect) :
  credentialsAbsent env ->
  getZohoAccessToken env upstream l = (Thrown CredentialsNotConfigured, l).
Proof.
  unfold credentialsAbsent, getZohoAccessToken. intros [H | [H | H]]; rewrite H.
  - reflexivity.
  - destruct (configured env "ZOHO_CAMPAIGNS_CLIENT_ID"); reflexivity.
  - destruct (configured env "ZOHO_CAMPAIGNS_CLIENT_ID");
      destruct (configured env "ZOHO_CAMPAIGNS_CLIENT_SECRET"); reflexivity.
Qed.

Lemma subscribe_unconfigured (email source : Json) (l : list Effect) :
  credentialsAbsent env ->
  exists e, subscribeToZohoCampaigns env upstream email source l = (Thrown e, l)
            /\ (e = CredentialsNotConfigured \/ e = ListKeyNotConfigured).
Proof.
  intros H. unfold subscribeToZohoCampaigns.
  destruct (configured env "ZOHO_CAMPAIGNS_LIST_KEY").
  - exists CredentialsNotConfigured. split; [|now left].
    unfold bind. rewrite (getZohoAccessToken_unconfigured l H). reflexivity.
  - exists ListKeyNotConfigured. split; [reflexivity | now right].
Qed.

(** When every answer of the bulk endpoint is a failure, the subscription
    throws, whatever the environment and the token endpoint do. *)
Lemma subscribe_bulk_fails (email source : Json) (l : list Effect) :
  (forall r, bulkFails (bulkEndpoint upstream r) = true) ->
  exists e l', subscribeToZohoCampaigns env upstream email source l = (Thrown e, l').
Proof.
  intros Hbulk. unfold subscribeToZohoCampaigns, fetchBulk.
  destruct (configured env "ZOHO_CAMPAIGNS_LIST_KEY") as [listKey|];
    [|eexists; eexists; reflexivity].
  unfold bind at 1.
  destruct (getZohoAccessToken env upstream l) as [[token|e] l1];
    [|eexists; eexists; reflexivity].
  run_async.
  destruct (truthy token); [destruct token as [[| | |t| |]|]|]; simpl; eauto.
  all: match goal with
       | |- context [bulkEndpoint upstream ?r] =>
           pose proof (Hbulk r) as Hr; unfold bulkFails in Hr;
           destruct (bulkEndpoint upstream r) as [|resp]; simpl; [eauto|]
       end.
  all: destruct (json resp) as [data|]; simpl; [|eauto].
  all: destruct (ok resp); simpl in Hr |- *; [|eauto].
  all: unfold ret, throw; destruct (prop data "code") as [code|]; [|eauto].
  all: rewrite Hr; destruct (prop data "message"); eauto.
Qed.

(** A POST whose body is an object with a string [email] containing '@'
    passes the checks of [handler]; what is sent depends on the subscription
    only through the message. *)
Lemma handler_accepts (req : Request) (fields : list (jsstring * Json))
      (email : jsstring) (l : list Effect) :
  method req = lit "POST" ->
  body req = Some (JObj fields) ->
  lookup (lit "email") fields = Some (JStr email) ->
  includes email (lit "@") = true ->
  handler env upstream req l =
  match subscribeToZohoCampaigns env upstream (JStr email)
          (sourceOrDefault (lookup (lit "source") fields)) l with
  | (Returned _, l1) =>
      (respond 200 (acknowledgment successMessage (JStr email)
                      (sourceOrDefault (lookup (lit "source") fields))),
       l1 ++ [ConsoleLog "Email subscribed to Zoho Campaigns:"])
  | (Thrown z, l1) =>
      (respond 200 (acknowledgment softMessage (JStr email)
                      (sourceOrDefault (lookup (lit "source") fields))),
       l1 ++ [ConsoleError "Zoho Campaigns error:" (Some z);
              ConsoleError "Full error:" (Some z);
              ConsoleLog "Email captured (Zoho failed):"])
  end.
Proof.
  intros Hm Hb He Hat. unfold handler, capture. rewrite Hm, Hb.
  change (JsString.eqb (lit "POST") (lit "OPTIONS")) with false.
  change (JsString.eqb (lit "POST") (lit "POST")) with true.
  cbn [negb]. run_async. rewrite He. simpl.
  assert (Ht : JsString.truthy email = true)
    by (destruct email; [discriminate Hat | reflexivity]).
  rewrite Ht, Hat. simpl.
  destruct (subscribeToZohoCampaigns env upstream (JStr email)
              (sourceOrDefault (lookup (lit "source") fields)) l) as [[d|z] l1].
  - reflexivity.
  - simpl. rewrite <- !app_assoc. reflexivity.
Qed.

(** Such a request is answered with status 200 and one of the two
    acknowledgments, whatever the subscription does. *)
Lemma handler_accepts_200 (req : Request) (fields : list (jsstring * Json))
      (email : jsstring) (l : list Effect) :
  method req = lit "POST" ->
  body req = Some (JObj fields) ->
  lookup (lit "email") fields = Some (JStr email) ->
  includes email (lit "@") = true ->
  statusCode (fst (handler env upstream req l)) = 200
  /\ (userMessage (fst (handler env upstream req l)) = Some (JStr successMessage)
      \/ userMessage (fst (handler env upstream req l)) = Some (JStr softMessage)).
Proof.
  intros Hm Hb He Hat. rewrite (handler_accepts req fields email l Hm Hb He Hat).
  destruct (subscribeToZohoCampaigns _ _ _ _ _) as [[d|z] l1]; simpl; auto.
Qed.

Lemma fetches_app (l1 l2 : list Effect) : fetches (l1 ++ l2) = fetches l1 ++ fetches l2.
Proof. unfold fetches. apply List.filter_app. Qed.

(** C1: when the bulk-subscribe call fails for any reason (it is rejected,
    answers with a non-success status such as 500, with a body that is not
    JSON, or with a non-zero provider code), a POST with a well-formed email
    is still answered with status 200 and the non-empty soft acknowledgment;
    the error is written to the console only. *)
Theorem handler_soft_failure (req : Request) (fields : list (jsstring * Json))
        (email : jsstring) (l : list Effect) :
  method req = lit "POST" ->
  body req = Some (JObj fields) ->
  lookup (lit "email") fields = Some (JStr email) ->
  includes email (lit "@") = true ->
  (forall r, bulkFails (bulkEndpoint upstream r) = true) ->
  exists z l1,
    handler env upstream req l
    = (respond 200 (acknowledgment softMessage (JStr email)
                      (sourceOrDefault (lookup (lit "source") fields))),
       l1 ++ [ConsoleError "Zoho Campaigns error:" (Some z);
              ConsoleError "Full error:" (Some z);
              ConsoleLog "Email captured (Zoho failed):"])
    /\ response_ok (fst (handler env upstream req l)) = true
    /\ statusCode (fst (handler env upstream req l)) = 200
    /\ userMessage (fst (handler env upstream req l)) = Some (JStr softMessage)
    /\ softMessage <> [].
Proof.
  intros Hm Hb He Hat Hbulk.
  destruct (subscribe_bulk_fails (JStr email)
              (sourceOrDefault (lookup (lit "source") fields)) l Hbulk)
    as (z & l1 & Hs).
  exists z, l1.
  rewrite (handler_accepts req fields email l Hm Hb He Hat), Hs.
  repeat split. discriminate.
Qed.

(** C4: when one of the three OAuth credentials is absent, the token step
    throws before any request is made, nothing is retried, no outbound call
    appears in the log, and a POST with a well-formed email is answered with
    status 200 and the same soft acknowledgment as any upstream failure. *)
Theorem handler_missing_credentials (req : Request) (fields : list (jsstring * Json))
        (email : jsstring) (l : list Effect) :
  credentialsAbsent env ->
  method req = lit "POST" ->
  body req = Some (JObj fields) ->
  lookup (lit "email") fields = Some (JStr email) ->
  includes email (lit "@") = true ->
  getZohoAccessToken env upstream l = (Thrown CredentialsNotConfigured, l)
  /\ exists z,
      (z = CredentialsNotConfigured \/ z = ListKeyNotConfigured)
      /\ handler env upstream req l
         = (respond 200 (acknowledgment softMessage (JStr email)
                           (sourceOrDefault (lookup (lit "source") fields))),
            l ++ [ConsoleError "Zoho Campaigns error:" (Some z);
                  ConsoleError "Full error:" (Some z);
                  ConsoleLog "Email captured (Zoho failed):"])
      /\ fetches (snd (handler env upstream req l)) = fetches l
      /\ statusCode (fst (handler env upstream req l)) = 200
      /\ userMessage (fst (handler env upstream req l)) = Some (JStr softMessage).
Proof.
  intros Habs Hm Hb He Hat.
  split; [now apply getZohoAccessToken_unconfigured|].
  destruct (subscribe_unconfigured (JStr email)
              (sourceOrDefault (lookup (lit "source") fields)) l Habs)
    as (z & Hs & Hz).
  exists z. split; [exact Hz|].
  rewrite (handler_accepts req fields email l Hm Hb He Hat), Hs.
  repeat split. cbn [snd]. rewrite fetches_app. simpl. apply app_nil_r.
Qed.

(** C10: a request whose method is neither POST nor OPTIONS is answered with
    status 405 and a JSON body with a [message] field; the body of the
    request is not looked at and the log is left as it was, so nothing is
    validated and no outbound call is made. *)
Theorem handler_method_not_allowed (req : Request) (l : list Effect) :
  method req <> lit "POST" ->
  method req <> lit "OPTIONS" ->
  handler env upstream req l = (respond 405 (message_only methodMessage), l)
  /\ statusCode (fst (handler env upstream req l)) = 405
  /\ userMessage (fst (handler env upstream req l)) = Some (JStr methodMessage)
  /\ fetches (snd (handler env upstream req l)) = fetches l.
Proof.
  intros Hpost Hopt. unfold handler.
  destruct (JsString.eqb (method req) (lit "OPTIONS")) eqn:E1;
    [apply eqb_eq in E1; contradiction|].
  destruct (JsString.eqb (method req) (lit "POST")) eqn:E2;
    [apply eqb_eq in E2; contradiction|].
  repeat split.
Qed.

(** *** Further properties of the function *)

(** What the outer [try] of [handler] returns is one of three responses. *)
Lemma capture_returned (req : Request) (l l' : list Effect) (r : Response) :
  capture env upstream req l = (Returned r, l') ->
  r = respond 400 (message_only invalidMessage)
  \/ exists e s, r = respond 200 (acknowledgment successMessage e s)
                 \/ r = respond 200 (acknowledgment softMessage e s).
Proof.
  unfold capture, bind, or_throw, ret, throw, try_catch, emit.
  destruct (body req) as [b|]; [|discriminate].
  destruct b; try discriminate;
    cbn [prop];
    try (intros H; inversion H; now left).
  destruct (lookup (lit "email") fields) as [e|];
    [|intros H; inversion H; now left].
  destruct (truthy (Some e)); cbn [negb]; [|intros H; inversion H; now left].
  destruct (includesAt e) as [[|]|]; cbn [negb]; try discriminate;
    [|intros H; inversion H; now left].
  destruct (subscribeToZohoCampaigns env upstream e _ l) as [[d|z] l1];
    intros H; inversion H; right; eauto.
Qed.

(** X1: every response carries the three CORS headers; its status is 200,
    400, 405 or 500; apart from the answer to a preflight, it carries a
    non-empty [message]. *)
Theorem handler_response_shape (req : Request) (l : list Effect) :
  let r := fst (handler env upstream req l) in
  headers r = corsHeaders
  /\ (statusCode r = 200 \/ statusCode r = 400
      \/ statusCode r = 405 \/ statusCode r = 500)
  /\ ((resBody r = NoBody /\ method req = lit "OPTIONS")
      \/ exists m, userMessage r = Some (JStr m) /\ m <> []).
Proof.
  unfold handler.
  destruct (JsString.eqb (method req) (lit "OPTIONS")) eqn:E1.
  - apply eqb_eq in E1. simpl. auto 6.
  - destruct (JsString.eqb (method req) (lit "POST")); cbn [negb].
    + destruct (capture env upstream req l) as [[r|z] l'] eqn:Ec; cbn [fst].
      * apply capture_returned in Ec as [-> | (e & s & [-> | ->])]; simpl;
          (split; [reflexivity|]); (split; [tauto|]); right; eexists;
          (split; [reflexivity | discriminate]).
      * simpl. split; [reflexivity|]. split; [tauto|]. right. eexists.
        split; [reflexivity | discriminate].
    + simpl. split; [reflexivity|]. split; [tauto|]. right. eexists.
      split; [reflexivity | discriminate].
Qed.

(** X2: a POST whose body has no [email], a falsy one, or a string or array
    that does not contain '@', is answered 400 with the invalid-address
    message; nothing is logged and no outbound call is made. *)
Theorem handler_invalid_email (req : Request) (b : Json) (v : Value)
        (l : list Effect) :
  method req = lit "POST" ->
  body req = Some b ->
  prop b "email" = Some v ->
  (truthy v = false \/ exists e, v = Some e /\ includesAt e = Some false) ->
  handler env upstream req l = (respond 400 (message_only invalidMessage), l).
Proof.
  intros Hm Hb Hp Hv.
  unfold handler, capture, bind, or_throw, ret, throw, try_catch, emit.
  rewrite Hm, Hb.
  change (JsString.eqb (lit "POST") (lit "OPTIONS")) with false.
  change (JsString.eqb (lit "POST") (lit "POST")) with true.
  cbn [negb].
  destruct b; try discriminate; cbn [prop] in Hp |- *; injection Hp as <-;
    try reflexivity.
  destruct (lookup (lit "email") fields) as [e|]; [|reflexivity].
  destruct Hv as [Hv | (e' & [= <-] & He)].
  - rewrite Hv. reflexivity.
  - destruct (truthy (Some e)); cbn [negb]; [rewrite He|]; reflexivity.
Qed.

(** X3: a POST without a body, with a [null] body, or whose [email] is a
    truthy value without an [includes] method (a number, [true], an object)
    is answered 500 with the generic message; the TypeError is logged and no
    outbound call is made. *)
Theorem handler_uncaught_error (req : Request) (l : list Effect) :
  method req = lit "POST" ->
  (body req = None \/ body req = Some JNull
   \/ exists b e, body req = Some b /\ prop b "email" = Some (Some e)
                  /\ truthy (Some e) = true /\ includesAt e = None) ->
  handler env upstream req l
  = (respond 500 (message_only errorMessage),
     l ++ [ConsoleError "Error in email capture:" (Some TypeError)]).
Proof.
  intros Hm Hb.
  unfold handler, capture, bind, or_throw, ret, throw, try_catch, emit.
  rewrite Hm.
  change (JsString.eqb (lit "POST") (lit "OPTIONS")) with false.
  change (JsString.eqb (lit "POST") (lit "POST")) with true.
  cbn [negb].
  destruct Hb as [-> | [-> | (b & e & -> & Hp & Ht & Hi)]]; try reflexivity.
  destruct b; try discriminate; cbn [prop] in Hp |- *; injection Hp as Hp.
  rewrite Hp, Ht. cbn [negb]. rewrite Hi. reflexivity.
Qed.

(** The token step either finds a credential missing, or asks the token
    endpoint once, with the credentials of the environment, and returns
    the [access_token] of the answer exactly when the answer is no failure. *)
Lemma getZohoAccessToken_cases (l : list Effect) :
  (credentialsAbsent env
   /\ getZohoAccessToken env upstream l = (Thrown CredentialsNotConfigured, l))
  \/ exists t,
      credentialsOf env t
      /\ ((tokenFails (tokenEndpoint upstream t) = true
           /\ exists z, getZohoAccessToken env upstream l
                        = (Thrown z, l ++ [FetchToken t]))
          \/ (tokenFails (tokenEndpoint upstream t) = false
              /\ exists resp d tok,
                  tokenEndpoint upstream t = Responds resp
                  /\ json resp = Some d
                  /\ prop d "access_token" = Some tok
                  /\ getZohoAccessToken env upstream l
                     = (Returned tok, l ++ [FetchToken t]))).
Proof.
  unfold getZohoAccessToken, credentialsAbsent.
  destruct (configured env "ZOHO_CAMPAIGNS_CLIENT_ID") as [cid|] eqn:E1;
    [|left; auto].
  destruct (configured env "ZOHO_CAMPAIGNS_CLIENT_SECRET") as [sec|] eqn:E2;
    [|left; auto].
  destruct (configured env "ZOHO_CAMPAIGNS_REFRESH_TOKEN") as [ref|] eqn:E3;
    [|left; auto].
  right.
  exists {| refresh_token := ref; client_id := cid; client_secret := sec |}.
  split; [unfold credentialsOf; cbn [client_id client_secret refresh_token]; auto|].
  unfold fetchToken, tokenFails. unfold bind, emit, or_throw, ret, throw.
  cbv beta iota zeta.
  match goal with
  | |- context [tokenEndpoint upstream ?t] =>
      destruct (tokenEndpoint upstream t) as [|resp]
  end; cbv beta iota zeta; [left; eauto|].
  destruct (json resp) as [d|] eqn:Ej; cbv beta iota zeta; [|left; eauto].
  destruct (ok resp); cbn [negb orb]; cbv beta iota zeta.
  - destruct (prop d "error") as [e|] eqn:Ee; cbv beta iota zeta;
      [|left; eauto].
    destruct (truthy e); cbv beta iota zeta; [left; eauto|].
    destruct (prop d "access_token") as [tok|] eqn:Et.
    + right. split; [reflexivity|]. exists resp, d, tok. auto.
    + destruct d; discriminate.
  - destruct (prop d "error"); cbv beta iota zeta; left; eauto.
Qed.

(** X4: one call of [subscribeToZohoCampaigns] makes no request, or one
    token request, or one token request followed by one bulk request; the
    token request carries the credentials of the environment, and the bulk
    request carries the list key of the environment, the email it was given
    and the [access_token] the token endpoint answered. *)
Theorem subscribe_fetch_order (email source : Json) (l : list Effect) :
  exists added,
    snd (subscribeToZohoCampaigns env upstream email source l) = l ++ added
    /\ (fetches added = []
        \/ exists t,
            credentialsOf env t
            /\ (fetches added = [FetchToken t]
                \/ exists resp d tok key,
                    tokenEndpoint upstream t = Responds resp
                    /\ json resp = Some d
                    /\ prop d "access_token" = Some tok
                    /\ configured env "ZOHO_CAMPAIGNS_LIST_KEY" = Some key
                    /\ fetches added
                       = [ FetchToken t;
                           FetchBulk {| oauthtoken := tok;
                                        listkey := key;
                                        emailids := email |} ])).
Proof.
  unfold subscribeToZohoCampaigns.
  destruct (configured env "ZOHO_CAMPAIGNS_LIST_KEY") as [key|] eqn:Ek;
    [|exists []; split; [symmetry; apply app_nil_r | now left]].
  unfold bind at 1.
  destruct (getZohoAccessToken_cases l)
    as [[_ ->] | (t & Ht & [[_ [z ->]] | [_ (resp & d & tok & Hr & Hj & Hp & ->)]])].
  - exists []. split; [symmetry; apply app_nil_r | now left].
  - exists [FetchToken t]. split; [reflexivity|]. right. exists t. auto.
  - unfold fetchBulk. unfold bind, emit, or_throw, ret, throw, try_catch.
    cbv beta iota zeta.
    assert (Hleaf1 : forall tail,
      fetches tail = [] ->
      fetches (FetchToken t :: tail) = [] \/
      exists t0, credentialsOf env t0 /\
        (fetches (FetchToken t :: tail) = [FetchToken t0] \/
         exists resp0 d0 tok0 key0,
           tokenEndpoint upstream t0 = Responds resp0 /\ json resp0 = Some d0
           /\ prop d0 "access_token" = Some tok0
           /\ Some key = Some key0
           /\ fetches (FetchToken t :: tail)
              = [FetchToken t0;
                 FetchBulk {| oauthtoken := tok0; listkey := key0;
                              emailids := email |}])).
    { intros tail Htail. right. exists t. split; [exact Ht|]. left.
      cbn [fetches List.filter isFetch]. fold (fetches tail). now rewrite Htail. }
    assert (Hleaf2 : forall mid tail,
      fetches mid = [] -> fetches tail = [] ->
      fetches (FetchToken t :: mid
               ++ FetchBulk {| oauthtoken := tok; listkey := key;
                               emailids := email |} :: tail) = [] \/
      exists t0, credentialsOf env t0 /\
        (fetches (FetchToken t :: mid
                  ++ FetchBulk {| oauthtoken := tok; listkey := key;
                                  emailids := email |} :: tail)
         = [FetchToken t0] \/
         exists resp0 d0 tok0 key0,
           tokenEndpoint upstream t0 = Responds resp0 /\ json resp0 = Some d0
           /\ prop d0 "access_token" = Some tok0
           /\ Some key = Some key0
           /\ fetches (FetchToken t :: mid
                       ++ FetchBulk {| oauthtoken := tok; listkey := key;
                                       emailids := email |} :: tail)
              = [FetchToken t0;
                 FetchBulk {| oauthtoken := tok0; listkey := key0;
                              emailids := email |}])).
    { intros mid tail Hmid Htail. right. exists t. split; [exact Ht|]. right.
      exists resp, d, tok, key. repeat (split; [assumption || reflexivity|]).
      cbn [fetches List.filter isFetch]. fold (fetches (mid ++ FetchBulk
        {| oauthtoken := tok; listkey := key; emailids := email |} :: tail)).
      rewrite fetches_app, Hmid. cbn [fetches List.filter isFetch app].
      fold (fetches tail). now rewrite Htail. }
    destruct (truthy tok); [destruct tok as [[| | |ts| |]|]|];
      cbv beta iota zeta.
    all: try (cbn [snd]; rewrite <- ?app_assoc; cbn [app]; eexists;
              split; [reflexivity | apply Hleaf1; reflexivity]).
    all: match goal with
         | |- context [bulkEndpoint upstream ?b] =>
             destruct (bulkEndpoint upstream b) as [|resp0]
         end; cbv beta iota zeta.
    all: try destruct (json resp0) as [d0|]; cbv beta iota zeta.
    all: try destruct (ok resp0); cbn [negb]; cbv beta iota zeta.
    all: try destruct (prop d0 "code") as [code|]; cbv beta iota zeta.
    all: try destruct (truthy code && negb (is_str code (lit "0")));
      cbv beta iota zeta.
    all: try destruct (prop d0 "message"); cbv beta iota zeta.
    all: cbn [snd]; rewrite <- ?app_assoc; cbn [app]; eexists;
      (split; [reflexivity|]).
    all: match goal with
         | |- context [FetchToken _ :: ?a :: ?b :: FetchBulk _ :: ?tail] =>
             apply (Hleaf2 [a; b] tail); reflexivity
         end.
Qed.

Lemma credentialsOf_unique (t1 t2 : TokenRequest) :
  credentialsOf env t1 -> credentialsOf env t2 -> t1 = t2.
Proof.
  unfold credentialsOf. destruct t1, t2. cbn.
  intros (A1 & B1 & C1) (A2 & B2 & C2). congruence.
Qed.

(** Once the token step has returned, the subscription returns exactly when
    the token is usable and the bulk answer is no failure. *)
Lemma subscribe_with_token (email source : Json) (key : jsstring) (tok : Value)
      (l l1 : list Effect) :
  configured env "ZOHO_CAMPAIGNS_LIST_KEY" = Some key ->
  getZohoAccessToken env upstream l = (Returned tok, l1) ->
  if tokenUsable tok
     && negb (bulkFails (bulkEndpoint upstream
                           {| oauthtoken := tok; listkey := key;
                              emailids := email |}))
  then exists d l', subscribeToZohoCampaigns env upstream email source l
                    = (Returned d, l')
  else exists z l', subscribeToZohoCampaigns env upstream email source l
                    = (Thrown z, l').
Proof.
  intros Hk Ht. unfold subscribeToZohoCampaigns. rewrite Hk.
  unfold fetchBulk, tokenUsable, bulkFails.
  unfold bind, emit, or_throw, ret, throw, try_catch. rewrite Ht.
  cbv beta iota zeta.
  destruct (truthy tok); [destruct tok as [[| | |ts| |]|]|];
    cbn [negb orb andb]; cbv beta iota zeta; eauto.
  all: match goal with
       | |- context [bulkEndpoint upstream ?b] =>
           destruct (bulkEndpoint upstream b) as [|resp0]
       end; cbn [negb orb andb]; cbv beta iota zeta; eauto.
  all: destruct (json resp0) as [d0|]; cbn [negb orb andb];
    cbv beta iota zeta; eauto.
  all: destruct (ok resp0); cbn [negb orb andb]; cbv beta iota zeta; eauto.
  all: destruct (prop d0 "code") as [code|]; cbn [negb orb andb];
    cbv beta iota zeta; eauto.
  all: destruct (truthy code && negb (is_str code (lit "0")));
    cbn [negb orb andb]; cbv beta iota zeta; eauto.
  all: destruct (prop d0 "message"); cbv beta iota zeta; eauto.
Qed.

Lemma subscribe_returns_iff (email source : Json) (l : list Effect) :
  (exists d l', subscribeToZohoCampaigns env upstream email source l
                = (Returned d, l'))
  <-> subscribes env upstream email.
Proof.
  assert (Htok : forall t resp d tok,
            tokenEndpoint upstream t = Responds resp -> json resp = Some d ->
            prop d "access_token" = Some tok ->
            accessTokenOf (tokenEndpoint upstream t) = tok).
  { intros t resp d tok Hr Hj Hp. unfold accessTokenOf. now rewrite Hr, Hj, Hp. }
  destruct (configured env "ZOHO_CAMPAIGNS_LIST_KEY") as [key|] eqn:Ek.
  2:{ split.
      - intros (d & l' & H). unfold subscribeToZohoCampaigns in H.
        rewrite Ek in H. discriminate.
      - intros (key & t & Hk & _). congruence. }
  destruct (getZohoAccessToken_cases l)
    as [[Habs Hg] | (t & Ht & [[Hf [z Hg]] | [Hf (resp & d & tok & Hr & Hj & Hp & Hg)]])].
  - split.
    + intros (d & l' & H). unfold subscribeToZohoCampaigns in H.
      rewrite Ek in H. unfold bind at 1 in H. rewrite Hg in H. discriminate.
    + intros (key' & t & _ & (A & B & C) & _).
      destruct Habs as [H | [H | H]]; congruence.
  - split.
    + intros (d & l' & H). unfold subscribeToZohoCampaigns in H.
      rewrite Ek in H. unfold bind at 1 in H. rewrite Hg in H. discriminate.
    + intros (key' & t' & _ & Ht' & Hf' & _).
      rewrite (credentialsOf_unique t' t Ht' Ht) in Hf'. congruence.
  - pose proof (subscribe_with_token email source key tok l _ Ek Hg) as Hs.
    pose proof (Htok t resp d tok Hr Hj Hp) as Ha.
    split.
    + intros (d0 & l' & H). exists key, t. rewrite Ha.
      destruct (tokenUsable tok); cbn [andb] in Hs.
      * destruct (bulkFails _); cbn [negb] in Hs; [|auto].
        destruct Hs as (z & l2 & Hs). congruence.
      * destruct Hs as (z & l2 & Hs). congruence.
    + intros (key' & t' & Hk' & Ht' & _ & Hu & Hb).
      rewrite (credentialsOf_unique t' t Ht' Ht), Ha in Hu, Hb.
      assert (key' = key) as -> by congruence.
      rewrite Hu, Hb in Hs. exact Hs.
Qed.

(** X5: a POST with a well-formed email is answered with the success
    message exactly when the environment holds the list key and the three
    credentials, the token answer is no failure and gives a usable token,
    and the bulk answer is no failure; in every other case the answer is the
    soft acknowledgment. *)
Theorem handler_success_iff (req : Request) (fields : list (jsstring * Json))
        (email : jsstring) (l : list Effect) :
  method req = lit "POST" ->
  body req = Some (JObj fields) ->
  lookup (lit "email") fields = Some (JStr email) ->
  includes email (lit "@") = true ->
  statusCode (fst (handler env upstream req l)) = 200
  /\ (userMessage (fst (handler env upstream req l)) = Some (JStr successMessage)
      <-> subscribes env upstream (JStr email))
  /\ (userMessage (fst (handler env upstream req l)) = Some (JStr softMessage)
      <-> ~ subscribes env upstream (JStr email)).
Proof.
  intros Hm Hb He Hat.
  rewrite (handler_accepts req fields email l Hm Hb He Hat).
  rewrite <- (subscribe_returns_iff (JStr email)
                (sourceOrDefault (lookup (lit "source") fields)) l).
  destruct (subscribeToZohoCampaigns env upstream (JStr email) _ l)
    as [[d|z] l1]; cbn [fst userMessage resBody respond acknowledgment prop lookup];
    (split; [reflexivity|]).
  - change (lookup (lit "message") _) with (Some (JStr successMessage)).
    split; split; eauto; try discriminate.
    intros H. exfalso. apply H. eauto.
  - change (lookup (lit "message") _) with (Some (JStr softMessage)).
    split; split; try discriminate; auto.
    + intros (d & l' & H). discriminate.
    + intros _ (d & l' & H). discriminate.
Qed.

(** X6: when the token answer is a failure, the subscription throws after
    the token request: the bulk endpoint is never called. *)
Theorem subscribe_token_failure (email source : Json) (l : list Effect) :
  (forall t, tokenFails (tokenEndpoint upstream t) = true) ->
  exists z l',
    subscribeToZohoCampaigns env upstream email source l = (Thrown z, l')
    /\ List.filter isBulk l' = List.filter isBulk l.
Proof.
  intros Hfail. unfold subscribeToZohoCampaigns.
  destruct (configured env "ZOHO_CAMPAIGNS_LIST_KEY") as [key|];
    [|eexists; eexists; split; reflexivity].
  unfold bind at 1.
  destruct (getZohoAccessToken_cases l)
    as [[_ ->] | (t & Ht & [[_ [z ->]] | [Hf _]])].
  - eexists; eexists; split; reflexivity.
  - eexists; eexists; split; [reflexivity|].
    rewrite List.filter_app. cbn. apply app_nil_r.
  - rewrite Hfail in Hf. discriminate.
Qed.

End Facts.

(** The upstream-500 scenario, step by step: the token is fetched, the bulk
    call is made with it, its status 500 is thrown and caught. *)
Example handler_upstream_500 :
  handler Scenario.env Scenario.upstream500 Scenario.post []
  = (respond 200 (acknowledgment softMessage (JStr (lit "jane.doe@schoolboard.org"))
                    (JStr defaultSource)),
     let failure :=
       ZohoApiStatus 500
         (JObj [(lit "message", JStr (lit "Internal Server Error"))]) in
     [ FetchToken {| refresh_token := lit "1000.refresh";
                     client_id := lit "1000.ABC";
                     client_secret := lit "s3cr3t" |};
       ConsoleLog "Zoho API request for email:";
       ConsoleLog "Access token:";
       FetchBulk {| oauthtoken := Some (JStr (lit "1000.token"));
                    listkey := lit "listkey";
                    emailids := JStr (lit "jane.doe@schoolboard.org") |};
       ConsoleLog "Zoho API raw response:";
       ConsoleError "Zoho Campaigns error:" (Some failure);
       ConsoleError "Full error:" (Some failure);
       ConsoleLog "Email captured (Zoho failed):" ]).
Proof. vm_compute. reflexivity. Qed.

Example handler_upstream_ok :
  fst (handler Scenario.env Scenario.upstreamOk Scenario.post [])
  = respond 200 (acknowledgment successMessage (JStr (lit "jane.doe@schoolboard.org"))
                   (JStr defaultSource)).
Proof. vm_compute. reflexivity. Qed.

Example handler_options :
  handler Scenario.env Scenario.upstreamOk
    {| method := lit "OPTIONS"; body := None |} []
  = (respond 200 NoBody, []).
Proof. reflexivity. Qed.

Example handler_empty_body :
  handler Scenario.env Scenario.upstreamOk
    {| method := lit "POST"; body := Some (JObj []) |} []
  = (respond 400 (message_only invalidMessage), []).
Proof. reflexivity. Qed.

Lemma handler_invalid_email_witness :
  handler Scenario.env Scenario.upstreamOk
    {| method := lit "POST";
       body := Some (JObj [(lit "email", JStr (lit "jane.doe"))]) |} []
  = (respond 400 (message_only invalidMessage), []).
Proof.
  apply (handler_invalid_email Scenario.env Scenario.upstreamOk _
           (JObj [(lit "email", JStr (lit "jane.doe"))])
           (Some (JStr (lit "jane.doe"))) []).
  - reflexivity.
  - reflexivity.
  - reflexivity.
  - right. exists (JStr (lit "jane.doe")). split; reflexivity.
Defined.

Lemma handler_uncaught_error_witness :
  handler Scenario.env Scenario.upstreamOk
    {| method := lit "POST"; body := Some (JObj [(lit "email", JNum 42)]) |} []
  = (respond 500 (message_only errorMessage),
     [] ++ [ConsoleError "Error in email capture:" (Some TypeError)]).
Proof.
  apply (handler_uncaught_error Scenario.env Scenario.upstreamOk _ []).
  - reflexivity.
  - right. right. exists (JObj [(lit "email", JNum 42)]), (JNum 42).
    repeat split.
Defined.

Lemma handler_success_iff_witness :
  statusCode (fst (handler Scenario.env Scenario.upstreamOk Scenario.post [])) = 200
  /\ (userMessage (fst (handler Scenario.env Scenario.upstreamOk Scenario.post []))
      = Some (JStr successMessage)
      <-> subscribes Scenario.env Scenario.upstreamOk
            (JStr (lit "jane.doe@schoolboard.org")))
  /\ (userMessage (fst (handler Scenario.env Scenario.upstreamOk Scenario.post []))
      = Some (JStr softMessage)
      <-> ~ subscribes Scenario.env Scenario.upstreamOk
              (JStr (lit "jane.doe@schoolboard.org"))).
Proof.
  apply (handler_success_iff Scenario.env Scenario.upstreamOk Scenario.post
           Scenario.fields (lit "jane.doe@schoolboard.org") []);
    reflexivity.
Defined.

Lemma subscribe_token_failure_witness :
  exists z l',
    subscribeToZohoCampaigns Scenario.env Scenario.upstreamNoToken
      (JStr (lit "jane.doe@schoolboard.org")) (JStr defaultSource) []
    = (Thrown z, l')
    /\ List.filter isBulk l' = List.filter isBulk [].
Proof.
  apply (subscribe_token_failure Scenario.env Scenario.upstreamNoToken
           (JStr (lit "jane.doe@schoolboard.org")) (JStr defaultSource) []).
  intros t. reflexivity.
Defined.

Lemma handler_soft_failure_witness :
  exists z l1,
    handler Scenario.env Scenario.upstream500 Scenario.post []
    = (respond 200 (acknowledgment softMessage (JStr (lit "jane.doe@schoolboard.org"))
                      (JStr defaultSource)),
       l1 ++ [ConsoleError "Zoho Campaigns error:" (Some z);
              ConsoleError "Full error:" (Some z);
              ConsoleLog "Email captured (Zoho failed):"])
    /\ response_ok (fst (handler Scenario.env Scenario.upstream500 Scenario.post [])) = true
    /\ statusCode (fst (handler Scenario.env Scenario.upstream500 Scenario.post [])) = 200
    /\ userMessage (fst (handler Scenario.env Scenario.upstream500 Scenario.post []))
       = Some (JStr softMessage)
    /\ softMessage <> [].
Proof.
  apply (handler_soft_failure Scenario.env Scenario.upstream500 Scenario.post
           Scenario.fields (lit "jane.doe@schoolboard.org") []).
  - reflexivity.
  - reflexivity.
  - reflexivity.
  - reflexivity.
  - intros r. reflexivity.
Defined.

Lemma handler_missing_credentials_witness :
  getZohoAccessToken Scenario.envNoSecret Scenario.upstreamOk []
  = (Thrown CredentialsNotConfigured, [])
  /\ exists z,
      (z = CredentialsNotConfigured \/ z = ListKeyNotConfigured)
      /\ handler Scenario.envNoSecret Scenario.upstreamOk Scenario.post []
         = (respond 200 (acknowledgment softMessage (JStr (lit "jane.doe@schoolboard.org"))
                           (JStr defaultSource)),
            [] ++ [ConsoleError "Zoho Campaigns error:" (Some z);
                   ConsoleError "Full error:" (Some z);
                   ConsoleLog "Email captured (Zoho failed):"])
      /\ fetches (snd (handler Scenario.envNoSecret Scenario.upstreamOk Scenario.post []))
         = fetches []
      /\ statusCode (fst (handler Scenario.envNoSecret Scenario.upstreamOk Scenario.post []))
         = 200
      /\ userMessage (fst (handler Scenario.envNoSecret Scenario.upstreamOk Scenario.post []))
         = Some (JStr softMessage).
Proof.
  apply (handler_missing_credentials Scenario.envNoSecret Scenario.upstreamOk
           Scenario.post Scenario.fields (lit "jane.doe@schoolboard.org") []).
  - right. left. vm_compute. reflexivity.
  - reflexivity.
  - reflexivity.
  - reflexivity.
  - reflexivity.
Defined.

Lemma handler_method_not_allowed_witness :
  handler Scenario.env Scenario.upstreamOk Scenario.get []
  = (respond 405 (message_only methodMessage), [])
  /\ statusCode (fst (handler Scenario.env Scenario.upstreamOk Scenario.get [])) = 405
  /\ userMessage (fst (handler Scenario.env Scenario.upstreamOk Scenario.get []))
     = Some (JStr methodMessage)
  /\ fetches (snd (handler Scenario.env Scenario.upstreamOk Scenario.get [])) = fetches [].
Proof.
  apply (handler_method_not_allowed Scenario.env Scenario.upstreamOk Scenario.get []).
  - discriminate.
  - discriminate.
Defined.

End EmailCaptureFacts.

(** ** The form handler *)

Module FormHandlerFacts.
Import FormHandler.

(** *** The error sentences *)

Lemma sentenceFor_in (em : jsstring) : In (sentenceFor em) sentences.
Proof.
  unfold sentenceFor, sentences.
  repeat match goal with
         | |- context [if ?b then _ else _] => destruct b
         end; simpl; tauto.
Qed.

Lemma sentences_nonempty (s : jsstring) : In s sentences -> s <> [].
Proof.
  unfold sentences. simpl. intros H.
  repeat (destruct H as [<- | H]; [discriminate|]). contradiction.
Qed.

Lemma sentenceFor_fallback (em : jsstring) :
  matchesSpecific em = false -> sentenceFor em = unknownSentence.
Proof.
  unfold matchesSpecific, sentenceFor. intros H.
  repeat (apply orb_false_elim in H as [H ?]).
  repeat match goal with
         | E : ?b = false |- context [?b] => rewrite E
         end.
  reflexivity.
Qed.

(** A sentence handed on to [handleError] falls to the unknown case. *)
Lemma sentenceFor_sentence (s : jsstring) :
  In s sentences -> sentenceFor s = unknownSentence.
Proof.
  unfold sentences. simpl. intros H.
  repeat (destruct H as [<- | H]; [vm_compute; reflexivity|]). contradiction.
Qed.

Section Facts.
Variable cfg : ApiConfig.
Variable browser : Browser.

(** *** makeApiCall *)

Lemma makeApiCall_unfold (payload : Payload) (retryCount : nat) (l : list Effect) :
  makeApiCall cfg browser payload retryCount l =
  match outcomeOf cfg browser (net browser (fetchCount l)) with
  | inl result => (Returned result, l ++ [Fetch payload])
  | inr (error, aborted) =>
      if (retryCount <? maxRetries cfg)%nat && negb aborted
      then makeApiCall cfg browser payload (S retryCount)
             (l ++ [Fetch payload;
                    Delay (retryDelay cfg * N.of_nat (retryCount + 1))])
      else (Thrown error, l ++ [Fetch payload])
  end.
Proof.
  rewrite makeApiCall_equation_1. unfold attempt.
  destruct (outcomeOf cfg browser (net browser (fetchCount l)))
    as [result | [error aborted]]; simp makeApiCall; [reflexivity|].
  destruct (decide (retryCount < maxRetries cfg)%nat) as [Hlt | Hge];
    simp makeApiCall.
  - rewrite (proj2 (Nat.ltb_lt _ _) Hlt).
    destruct aborted; simp makeApiCall; simpl; [reflexivity|].
    rewrite <- app_assoc. reflexivity.
  - rewrite (proj2 (Nat.ltb_nlt _ _) Hge). reflexivity.
Qed.

Lemma fetchCount_app (l1 l2 : list Effect) :
  fetchCount (l1 ++ l2) = (fetchCount l1 + fetchCount l2)%nat.
Proof. unfold fetchCount. rewrite List.filter_app. apply length_app. Qed.

Lemma fetchCount_retryTrace (payload : Payload) (n retryCount : nat) :
  fetchCount (retryTrace cfg payload retryCount n) = S n.
Proof.
  revert retryCount. induction n as [|n IH]; intros retryCount; [reflexivity|].
  cbn [retryTrace]. change (fetchCount (Fetch payload :: Delay ?d :: ?t))
    with (S (fetchCount t)). now rewrite IH.
Qed.

Lemma delays_retryTrace (payload : Payload) (n retryCount : nat) :
  List.filter isDelay (retryTrace cfg payload retryCount n)
  = map (fun k => Delay (retryDelay cfg * N.of_nat k)) (seq (retryCount + 1) n).
Proof.
  revert retryCount. induction n as [|n IH]; intros retryCount; [reflexivity|].
  cbn [retryTrace List.filter isDelay seq map]. rewrite IH.
  replace (S retryCount + 1)%nat with (S (retryCount + 1)) by lia. reflexivity.
Qed.

(** An attempt that ends aborted is the last one. *)
Lemma makeApiCall_aborted (payload : Payload) (retryCount : nat)
      (l : list Effect) (e : ErrorValue) :
  outcomeOf cfg browser (net browser (fetchCount l)) = inr (e, true) ->
  makeApiCall cfg browser payload retryCount l = (Thrown e, l ++ [Fetch payload]).
Proof.
  intros H. rewrite makeApiCall_unfold, H. now rewrite andb_false_r.
Qed.

(** While every attempt fails without being aborted, requests and backoff
    delays alternate until [maxRetries] retries have been made. *)
Lemma makeApiCall_retries (payload : Payload) (e : ErrorValue) (n retryCount : nat)
      (l : list Effect) :
  (forall k, outcomeOf cfg browser (net browser k) = inr (e, false)) ->
  (retryCount + n = maxRetries cfg)%nat ->
  makeApiCall cfg browser payload retryCount l
  = (Thrown e, l ++ retryTrace cfg payload retryCount n).
Proof.
  intros Hfail. revert retryCount l.
  induction n as [|n IH]; intros retryCount l Hn;
    rewrite makeApiCall_unfold, Hfail.
  - replace (retryCount <? maxRetries cfg)%nat with false
      by (symmetry; apply Nat.ltb_ge; lia).
    reflexivity.
  - replace (retryCount <? maxRetries cfg)%nat with true
      by (symmetry; apply Nat.ltb_lt; lia).
    cbn [andb negb]. rewrite IH by lia.
    cbn [retryTrace]. rewrite <- app_assoc. reflexivity.
Qed.

(** What [makeApiCall] throws carries a message when the engine's errors do. *)
Lemma outcomeOf_message (n : nat) (e : ErrorValue) (aborted : bool) :
  messagesPresent browser ->
  outcomeOf cfg browser (net browser n) = inr (e, aborted) ->
  exists m, e = EErr m /\ m <> [].
Proof.
  intros [Habort Hnet]. specialize (Hnet n). unfold outcomeOf.
  destruct (timeout cfg <=? latency (net browser n)).
  - intros [= <- _]. eauto.
  - destruct (settles (net browser n)) as [m | st stText [j | m]].
    + intros [= <- _]. eauto.
    + destruct (negb (okStatus st)); [|discriminate].
      intros [= <- _]. eexists. split; [reflexivity | discriminate].
    + destruct (negb (okStatus st)); intros [= <- _]; eexists;
        (split; [reflexivity|]); [discriminate | assumption].
Qed.

Lemma makeApiCall_thrown_message (payload : Payload) (retryCount : nat)
      (l l' : list Effect) (e : ErrorValue) :
  messagesPresent browser ->
  makeApiCall cfg browser payload retryCount l = (Thrown e, l') ->
  exists m, e = EErr m /\ m <> [].
Proof.
  intros Hmsg. remember (maxRetries cfg - retryCount)%nat as n eqn:Hn.
  revert retryCount l Hn.
  induction n as [|n IH]; intros retryCount l Hn; rewrite makeApiCall_unfold;
    destruct (outcomeOf cfg browser (net browser (fetchCount l)))
      as [result | [error aborted]] eqn:Ho; try discriminate.
  - replace (retryCount <? maxRetries cfg)%nat with false
      by (symmetry; apply Nat.ltb_ge; lia).
    intros [= <- _]. eapply outcomeOf_message; eassumption.
  - destruct ((retryCount <? maxRetries cfg)%nat && negb aborted).
    + apply IH. lia.
    + intros [= <- _]. eapply outcomeOf_message; eassumption.
Qed.

Lemma submitToZoho_thrown_message (payload : Payload) (l l' : list Effect)
      (e : ErrorValue) :
  messagesPresent browser ->
  submitToZoho cfg browser payload l = (Thrown e, l') ->
  exists m, e = EErr m /\ m <> [].
Proof.
  intros Hmsg. unfold submitToZoho, simulateApiCall.
  destruct (isDevelopment browser).
  - destruct (randomBelow09 browser _); [discriminate|].
    intros [= <- _]. eexists. split; [reflexivity | discriminate].
  - now apply makeApiCall_thrown_message.
Qed.

(** *** handleSubmit *)

Section WithTables.
Context `{U : Unicode}.

(** The [catch] clause maps the error twice, once itself and once inside
    [handleError]; what is shown is the unknown sentence. *)
Lemma handleSubmit_end_thrown (e : ErrorValue) (f : Form) (l : list Effect) :
  errorMessageOf e <> None ->
  exists l',
    handleSubmit_end (Thrown e) f l
    = (setLoadingState false
         (set_isSubmitting false
            (fst (announceToScreenReader
                    (lit "Form submission failed: " ++ unknownSentence)
                    (set_error (Some unknownSentence) f) l))), l', false).
Proof.
  intros He. unfold handleSubmit_end, handleError, getErrorMessage.
  destruct (errorMessageOf e) as [m|]; [|contradiction].
  cbn [errorMessageOf].
  rewrite (sentenceFor_sentence _ (sentenceFor_in m)).
  eexists. reflexivity.
Qed.

Lemma handleSubmit_end_releases (o : Outcome ErrorValue ApiResult) (f : Form)
      (l : list Effect) :
  isSubmitting (fst (fst (handleSubmit_end o f l))) = false.
Proof.
  unfold handleSubmit_end.
  repeat match goal with
         | |- context [let '(_, _) := ?x in _] => destruct x
         | |- context [match ?x with _ => _ end] => destruct x
         end; reflexivity.
Qed.

(** While the flag is set a submit event leaves the page as it is. *)
Lemma submit_in_flight (p : Page) :
  isSubmitting (form p) = true -> submit browser p = p.
Proof.
  intros H. unfold submit, handleSubmit_begin. rewrite H. now destruct p.
Qed.

Lemma step_in_flight (ev : Event) (p : Page) :
  isSubmitting (form p) = true ->
  ev = SubmitEvent \/ ev = EnterKey \/ ev = Click ->
  step cfg browser ev p = p.
Proof.
  intros H [-> | [-> | ->]]; cbn [step]; rewrite ?H;
    auto using submit_in_flight.
Qed.

Lemma run_in_flight (evs : list Event) (p : Page) :
  isSubmitting (form p) = true ->
  Forall (fun ev => ev = SubmitEvent \/ ev = EnterKey \/ ev = Click) evs ->
  run cfg browser evs p = p.
Proof.
  intros H Hevs. unfold run.
  induction Hevs as [|ev evs Hev _ IH]; simpl; [reflexivity|].
  now rewrite (step_in_flight ev p H Hev).
Qed.

(** A submit event on a page with nothing pending, followed by the
    settlement, is one run of [handleSubmit]. *)
Lemma run_submit_settled (p : Page) :
  awaiting p = [] ->
  form (run cfg browser [SubmitEvent; Settled] p)
  = fst (fst (handleSubmit cfg browser (form p) (log p)))
  /\ log (run cfg browser [SubmitEvent; Settled] p)
     = snd (fst (handleSubmit cfg browser (form p) (log p))).
Proof.
  intros Ha. unfold run, handleSubmit. cbn [fold_left step]. unfold submit.
  destruct (handleSubmit_begin browser (form p)) as [f1 [payload|]];
    cbn [step awaiting form log]; rewrite Ha; cbn [app].
  - destruct (submitToZoho cfg browser payload (log p)) as [o l1].
    destruct (handleSubmit_end o f1 l1) as [[f2 l2] esc]. split; reflexivity.
  - split; reflexivity.
Qed.

(** A response with a success status and a JSON body, arriving in time, is
    a success, and the form shows the acknowledgment. *)
Lemma makeApiCall_ok (payload : Payload) (retryCount : nat) (l : list Effect)
      (lat st : N) (stText : jsstring) (j : Json) :
  net browser (fetchCount l)
  = {| latency := lat; settles := Response st stText (inl j) |} ->
  lat < timeout cfg ->
  okStatus st = true ->
  makeApiCall cfg browser payload retryCount l
  = (Returned {| success := true; data := Some j; error := None |},
     l ++ [Fetch payload]).
Proof.
  intros Hnet Hlat Hok. rewrite makeApiCall_unfold, Hnet.
  unfold outcomeOf. cbn [latency settles].
  replace (timeout cfg <=? lat) with false by (symmetry; apply N.leb_gt; lia).
  now rewrite Hok.
Qed.

Lemma handleSubmit_end_success (result : ApiResult) (f : Form) (l : list Effect) :
  success result = true ->
  let f' := fst (fst (handleSubmit_end (Returned result) f l)) in
  successVisible f' = true
  /\ successText f'
     = lit "Thank you! We'll notify you as soon as the agenda is available."
  /\ errorShown f' = None
  /\ isSubmitting f' = false.
Proof.
  intros Hs. unfold handleSubmit_end. rewrite Hs. repeat split.
Qed.

(** *** Further properties of the form handler *)

Lemma fetchCount_snoc_fetch (l : list Effect) (p : Payload) :
  fetchCount (l ++ [Fetch p]) = S (fetchCount l).
Proof. rewrite fetchCount_app. cbn. lia. Qed.

Lemma fetchCount_fetch_delay (l : list Effect) (p : Payload) (d : N) :
  fetchCount (l ++ [Fetch p; Delay d]) = S (fetchCount l).
Proof. rewrite fetchCount_app. cbn. lia. Qed.


(** X8: when the first [k] attempts fail without being aborted and the next
    one is answered with a success, [makeApiCall] returns that result after
    [k + 1] requests and [k] backoff delays, provided [k] retries are
    allowed. *)
Theorem makeApiCall_recovers (payload : Payload) (result : ApiResult)
        (k retryCount : nat) (l : list Effect) :
  (retryCount + k <= maxRetries cfg)%nat ->
  (forall i, (i < k)%nat ->
             exists e, outcomeOf cfg browser (net browser (fetchCount l + i))
                       = inr (e, false)) ->
  outcomeOf cfg browser (net browser (fetchCount l + k)) = inl result ->
  makeApiCall cfg browser payload retryCount l
  = (Returned result, l ++ retryTrace cfg payload retryCount k).
Proof.
  revert retryCount l. induction k as [|k IH]; intros retryCount l Hk Hfail Hok;
    rewrite makeApiCall_unfold.
  - rewrite Nat.add_0_r in Hok. rewrite Hok. reflexivity.
  - destruct (Hfail 0%nat) as [e He]; [lia|]. rewrite Nat.add_0_r in He.
    rewrite He.
    replace (retryCount <? maxRetries cfg)%nat with true
      by (symmetry; apply Nat.ltb_lt; lia).
    cbn [andb negb]. rewrite IH.
    + cbn [retryTrace]. rewrite <- app_assoc. reflexivity.
    + lia.
    + intros i Hi. rewrite fetchCount_fetch_delay.
      destruct (Hfail (S i)) as [e' He']; [lia|].
      exists e'. rewrite <- He'. f_equal. f_equal. lia.
    + rewrite fetchCount_fetch_delay. rewrite <- Hok. f_equal. f_equal. lia.
Qed.

(** What [submitToZoho] returns is a success: the branch of [handleSubmit]
    for a result without success is never taken. *)
Lemma makeApiCall_returned_success (payload : Payload) (retryCount : nat)
      (l l' : list Effect) (result : ApiResult) :
  makeApiCall cfg browser payload retryCount l = (Returned result, l') ->
  success result = true.
Proof.
  remember (maxRetries cfg - retryCount)%nat as n eqn:Hn.
  revert retryCount l Hn.
  induction n as [|n IH]; intros retryCount l Hn; rewrite makeApiCall_unfold;
    destruct (outcomeOf cfg browser (net browser (fetchCount l)))
      as [r | [error aborted]] eqn:Ho.
  1,3: intros [= <- _]; unfold outcomeOf in Ho;
       destruct (timeout cfg <=? latency _); [discriminate|];
       destruct (settles _) as [m | st stText [j | m]]; try discriminate;
       destruct (negb (okStatus st)); try discriminate;
       injection Ho as <-; reflexivity.
  - replace (retryCount <? maxRetries cfg)%nat with false
      by (symmetry; apply Nat.ltb_ge; lia).
    discriminate.
  - destruct ((retryCount <? maxRetries cfg)%nat && negb aborted);
      [apply IH; lia | discriminate].
Qed.

Lemma submitToZoho_returned_success (payload : Payload) (l l' : list Effect)
      (result : ApiResult) :
  submitToZoho cfg browser payload l = (Returned result, l') ->
  success result = true.
Proof.
  unfold submitToZoho, simulateApiCall. destruct (isDevelopment browser).
  - destruct (randomBelow09 browser _); [|discriminate].
    intros [= <- _]. reflexivity.
  - apply makeApiCall_returned_success.
Qed.

(** X9: served from a development host, [submitToZoho] never touches the
    network: it waits 1500 ms, draws one random number and, on the draw,
    returns a simulated success or throws the simulated failure. *)
Theorem submitToZoho_development (payload : Payload) (l : list Effect) :
  isDevelopment browser = true ->
  exists added,
    snd (submitToZoho cfg browser payload l) = l ++ added
    /\ fetchCount added = 0%nat
    /\ List.filter isDelay added = [Delay 1500]
    /\ length (List.filter isRandom added) = 1%nat
    /\ ((exists result, fst (submitToZoho cfg browser payload l) = Returned result
                        /\ success result = true)
        \/ fst (submitToZoho cfg browser payload l)
           = Thrown (EErr (lit "Simulated API failure for testing"))).
Proof.
  intros Hdev. unfold submitToZoho, simulateApiCall. rewrite Hdev.
  exists [Console "Development mode: Simulating Zoho API call"; Delay 1500; Random].
  destruct (randomBelow09 browser _); cbn [fst snd];
    rewrite <- app_assoc; repeat split; eauto.
Qed.

(** X11: at most one submission is pending, and while one is, the email
    field is disabled: even after a [ResetForm] timer of an earlier success
    has cleared the flag, the form data has no email and nothing new
    starts. *)
Lemma pending_invariant (evs : list Event) (p : Page) :
  (awaiting p = [] \/ (exists x, awaiting p = [x])
                      /\ emailInput_disabled (form p) = true) ->
  awaiting (run cfg browser evs p) = []
  \/ (exists x, awaiting (run cfg browser evs p) = [x])
     /\ emailInput_disabled (form (run cfg browser evs p)) = true.
Proof.
  revert p. unfold run.
  induction evs as [|ev evs IH]; intros p Hp; [exact Hp|].
  cbn [fold_left]. apply IH. clear IH.
  assert (Hsubmit :
    awaiting (submit browser p) = []
    \/ (exists x, awaiting (submit browser p) = [x])
       /\ emailInput_disabled (form (submit browser p)) = true).
  { unfold submit, handleSubmit_begin.
    destruct (isSubmitting (form p)); [exact Hp|].
    destruct Hp as [Hp | [Hx Hd]].
    - rewrite Hp.
      destruct (emailInput_disabled (form p));
        destruct (negb (formIsValid _)); cbn [awaiting form]; auto;
        destruct (data_email _); cbn [awaiting form app]; eauto.
    - rewrite Hd. cbn [validateFormData validateEmail JsString.truthy negb
                       isValid formIsValid FormValidator.error errors_email].
      cbn [JsString.truthy errors.REQUIRED lit list_ascii_of_string map].
      cbn [awaiting form set_error emailInput_disabled]. auto. }
  destruct ev as [| | | |a]; cbn [step]; try exact Hsubmit.
  - destruct (isSubmitting (form p)); [exact Hp | exact Hsubmit].
  - destruct (awaiting p) as [|x rest] eqn:Ha; [rewrite Ha; exact Hp|].
    destruct (submitToZoho cfg browser x (log p)) as [o l1].
    destruct (handleSubmit_end o (form p) l1) as [[f l2] esc].
    cbn [awaiting]. left.
    destruct Hp as [Hp | [[y Hy] _]]; congruence.
  - destruct a; cbn [awaiting form resetForm emailInput_disabled]; exact Hp.
Qed.

Lemma validateEmail_valid_no_error (email : option jsstring) :
  isValid (validateEmail email) = true ->
  FormValidator.error (validateEmail email) = None.
Proof.
  unfold validateEmail.
  repeat match goal with
         | |- context [if ?b then _ else _] => destruct b
         end; cbn [isValid FormValidator.error]; congruence.
Qed.

Lemma makeApiCall_fetches (payload pl : Payload) (retryCount : nat)
      (l : list Effect) :
  In (Fetch pl) (snd (makeApiCall cfg browser payload retryCount l)) ->
  In (Fetch pl) l \/ pl = payload.
Proof.
  remember (maxRetries cfg - retryCount)%nat as n eqn:Hn.
  revert retryCount l Hn.
  assert (Hone : forall l, In (Fetch pl) (l ++ [Fetch payload]) ->
                           In (Fetch pl) l \/ pl = payload).
  { intros l H. apply in_app_or in H as [H | [H | []]]; [auto|].
    right. congruence. }
  induction n as [|n IH]; intros retryCount l Hn; rewrite makeApiCall_unfold;
    destruct (outcomeOf cfg browser (net browser (fetchCount l)))
      as [r | [error aborted]]; cbn [snd]; try apply Hone.
  - replace (retryCount <? maxRetries cfg)%nat with false
      by (symmetry; apply Nat.ltb_ge; lia).
    apply Hone.
  - destruct ((retryCount <? maxRetries cfg)%nat && negb aborted) eqn:E;
      [|apply Hone].
    apply andb_prop in E as [E _]. apply Nat.ltb_lt in E.
    intros H. apply IH in H; [|lia].
    destruct H as [H | H]; [|auto].
    apply in_app_or in H as [H | [H | [H | []]]]; [auto | | discriminate].
    right. congruence.
Qed.

Lemma submitToZoho_fetches (payload pl : Payload) (l : list Effect) :
  In (Fetch pl) (snd (submitToZoho cfg browser payload l)) ->
  In (Fetch pl) l \/ pl = payload.
Proof.
  unfold submitToZoho, simulateApiCall.
  destruct (isDevelopment browser); [|apply makeApiCall_fetches].
  destruct (randomBelow09 browser _); cbn [snd]; intros H;
    apply in_app_or in H as [H | [H | []]]; try discriminate;
    apply in_app_or in H as [H | [H | [H | []]]]; try discriminate; auto.
Qed.

Lemma handleSubmit_end_fetches (o : Outcome ErrorValue ApiResult) (f : Form)
      (l : list Effect) (pl : Payload) :
  In (Fetch pl) (snd (fst (handleSubmit_end o f l))) -> In (Fetch pl) l.
Proof.
  assert (Hstrip : forall (l0 : list Effect) (x : Effect),
             isFetch x = false -> In (Fetch pl) (l0 ++ [x]) -> In (Fetch pl) l0).
  { intros l0 x Hx H. apply in_app_or in H as [H | [H | []]]; [exact H|].
    subst x. discriminate. }
  unfold handleSubmit_end, handleError, handleSuccess, announceToScreenReader.
  destruct o as [result | e]; [destruct (success result)|];
    repeat match goal with
           | |- context [getErrorMessage ?x] => destruct (getErrorMessage x)
           end; cbn [fst snd]; intros H;
    repeat (first [ apply Hstrip in H; [|reflexivity]
                  | apply in_app_or in H as [H | H];
                    [| cbn [In] in H; intuition discriminate] ]);
    exact H.
Qed.

(** X10: every request the page sends carries an email that the validator
    accepted, in its normalized form: whatever events occur, a request in
    the log that was not there before has as email the value of a successful
    [validateEmail]. *)
Theorem requests_carry_valid_email (evs : list Event) (p : Page) (pl : Payload) :
  awaiting p = [] ->
  In (Fetch pl) (log (run cfg browser evs p)) ->
  In (Fetch pl) (log p)
  \/ exists raw, validateEmail (Some raw)
                 = {| isValid := true; FormValidator.error := None; value := email pl |}.
Proof.
  set (Q := fun q : Payload =>
              exists raw, validateEmail (Some raw)
                          = {| isValid := true; FormValidator.error := None;
                             value := email q |}).
  set (l0 := log p).
  assert (Hinv : forall evs p',
             Forall Q (awaiting p') ->
             (forall q, In (Fetch q) (log p') -> In (Fetch q) l0 \/ Q q) ->
             forall q, In (Fetch q) (log (run cfg browser evs p')) ->
                       In (Fetch q) l0 \/ Q q).
  { clear evs pl. unfold run.
    induction evs as [|ev evs IH]; intros p' Ha Hl; [exact Hl|].
    cbn [fold_left].
    assert (Hsub : Forall Q (awaiting (submit browser p'))
                   /\ log (submit browser p') = log p').
    { unfold submit, handleSubmit_begin.
      destruct (isSubmitting (form p')); [auto|].
      destruct (emailInput_disabled (form p')).
      - unfold validateFormData, validateEmail. cbn. auto.
      - unfold validateFormData.
        destruct (isValid (validateEmail (Some (emailInput_value (form p')))))
          eqn:Ev; cbn [negb formIsValid data_email errors_email];
          [|destruct (FormValidator.error _) as [m|];
            [destruct (JsString.truthy m)|]; auto].
        cbn [awaiting log]. split; [|reflexivity].
        apply Forall_app. split; [exact Ha|]. constructor; [|constructor].
        exists (emailInput_value (form p')). cbn [payloadOf email].
        pose proof (validateEmail_valid_no_error _ Ev) as Hs.
        destruct (validateEmail (Some (emailInput_value (form p'))))
          as [v e s]. cbn [isValid FormValidator.error value] in *.
        subst v e. reflexivity. }
    apply IH; destruct ev as [| | | |a]; cbn [step];
      try (destruct Hsub as [H1 H2]; first [exact H1 | rewrite H2; exact Hl]).
    - destruct (isSubmitting (form p')); [exact Ha | apply Hsub].
    - destruct (awaiting p') as [|x rest] eqn:Hx; [rewrite Hx; exact Ha|].
      destruct (submitToZoho cfg browser x (log p')) as [o l1].
      destruct (handleSubmit_end o (form p') l1) as [[f l2] esc].
      cbn [awaiting]. now inversion Ha.
    - destruct a; exact Ha.
    - destruct (isSubmitting (form p')); [exact Hl|].
      rewrite (proj2 Hsub). exact Hl.
    - destruct (awaiting p') as [|x rest] eqn:Hx; [exact Hl|].
      destruct (submitToZoho cfg browser x (log p')) as [o l1] eqn:Hz.
      destruct (handleSubmit_end o (form p') l1) as [[f l2] esc] eqn:He.
      cbn [log]. intros q Hq.
      assert (Hq1 : In (Fetch q) l1).
      { apply (handleSubmit_end_fetches o (form p') l1). rewrite He. exact Hq. }
      assert (Hq2 : In (Fetch q) (log p') \/ q = x).
      { apply submitToZoho_fetches. rewrite Hz. exact Hq1. }
      destruct Hq2 as [Hq2 | ->]; [auto|]. right. now inversion Ha.
    - destruct a; exact Hl. }
  intros Hp Hin. apply (Hinv evs p); [rewrite Hp; constructor | auto | exact Hin].
Qed.

(** X12: when the pending submission settles, the page leaves the loading
    state and the pending list; it then shows either the success message
    (the call returned, and what it returns is always a success) or, for
    every error the call can throw, the sentence for unknown errors, with
    the typed address kept for another try. *)
Theorem settled_display (p : Page) (payload : Payload) (rest : list Payload) :
  messagesPresent browser ->
  awaiting p = payload :: rest ->
  let p' := step cfg browser Settled p in
  awaiting p' = rest
  /\ isSubmitting (form p') = false
  /\ button_loading (form p') = false
  /\ emailInput_disabled (form p') = false
  /\ emailInput_value (form p') = emailInput_value (form p)
  /\ ((exists result,
          fst (submitToZoho cfg browser payload (log p)) = Returned result
          /\ successVisible (form p') = true
          /\ button_success (form p') = true
          /\ errorShown (form p') = None)
      \/ (exists e,
             fst (submitToZoho cfg browser payload (log p)) = Thrown e
             /\ errorShown (form p') = Some unknownSentence
             /\ successVisible (form p') = successVisible (form p)
             /\ button_success (form p') = button_success (form p))).
Proof.
  intros Hmsg Ha. cbn [step]. rewrite Ha.
  destruct (submitToZoho cfg browser payload (log p)) as [[result | e] l1] eqn:Hz.
  - pose proof (submitToZoho_returned_success _ _ _ _ Hz) as Hs.
    unfold handleSubmit_end. rewrite Hs. cbn.
    repeat (split; [reflexivity|]). left. exists result. auto.
  - destruct (submitToZoho_thrown_message payload _ _ e Hmsg Hz)
      as (m & -> & Hm).
    destruct (handleSubmit_end_thrown (EErr m) (form p) l1) as [l' He].
    { cbn [errorMessageOf]. apply truthy_nonempty in Hm. rewrite Hm. discriminate. }
    rewrite He. cbn.
    repeat (split; [reflexivity|]). right. exists (EErr m). auto.
Qed.

End WithTables.
End Facts.

Example submit_accepted :
  let p := run (U := BasicLatinOnly) apiConfig (Scenario.browserWith Scenario.accepted)
             [SubmitEvent; Settled] Scenario.start in
  successVisible (form p) = true
  /\ errorShown (form p) = None
  /\ isSubmitting (form p) = false
  /\ fetchCount (log p) = 1%nat.
Proof. vm_compute. repeat split. Qed.

Example submit_invalid :
  let p := run (U := BasicLatinOnly) apiConfig (Scenario.browserWith Scenario.accepted)
             [SubmitEvent; Settled]
             {| form := initialForm (lit "user@example.com");
                awaiting := []; log := [] |} in
  errorShown (form p) = Some errors.INVALID_EMAIL
  /\ successVisible (form p) = false
  /\ fetchCount (log p) = 0%nat.
Proof. vm_compute. repeat split. Qed.

(** C2, as stated, fails: with the reference configuration and a network
    that never answers within the timeout, one request is made, not
    [maxRetries + 1 = 4], and the page ends showing an error sentence, not an
    acknowledgment. *)
Lemma makeApiCall_timeout_single_attempt :
  (timeout apiConfig <= latency Scenario.neverInTime)
  /\ (maxRetries apiConfig + 1 = 4)%nat
  /\ makeApiCall apiConfig (Scenario.browserWith Scenario.neverInTime)
       Scenario.payload 0 []
     = (Thrown (EErr (lit "The user aborted a request.")), [Fetch Scenario.payload])
  /\ fetchCount (log (run (U := BasicLatinOnly) apiConfig
                         (Scenario.browserWith Scenario.neverInTime)
                         [SubmitEvent; Settled] Scenario.start)) = 1%nat
  /\ successVisible (form (run (U := BasicLatinOnly) apiConfig
                              (Scenario.browserWith Scenario.neverInTime)
                              [SubmitEvent; Settled] Scenario.start)) = false
  /\ errorShown (form (run (U := BasicLatinOnly) apiConfig
                          (Scenario.browserWith Scenario.neverInTime)
                          [SubmitEvent; Settled] Scenario.start))
     = Some unknownSentence.
Proof.
  split; [vm_compute; discriminate|].
  repeat split; vm_compute; reflexivity.
Qed.

(** C2 (amended): when every attempt fails the same way, an aborted attempt
    (a timeout) is the only one, and a failure that is not a timeout (a
    network error, a non-success response) is retried until [maxRetries + 1]
    requests have been made, with a delay of [retryDelay] times the attempt
    number before the next one.  The error is then thrown to [handleSubmit],
    which shows an error sentence, shows no success, and releases the
    in-flight flag. *)
Theorem makeApiCall_persistent_failure (cfg : ApiConfig) (browser : Browser)
        (payload : Payload) (e : ErrorValue) (aborted : bool)
        (l : list Effect) (f : Form) :
  (forall k, outcomeOf cfg browser (net browser k) = inr (e, aborted)) ->
  let trace :=
    if aborted then [Fetch payload]
    else retryTrace cfg payload 0 (maxRetries cfg) in
  (aborted = true <-> timeout cfg <= latency (net browser 0))
  /\ makeApiCall cfg browser payload 0 l = (Thrown e, l ++ trace)
  /\ fetchCount trace = (if aborted then 1 else maxRetries cfg + 1)%nat
  /\ List.filter isDelay trace
     = (if aborted then []
        else map (fun k => Delay (retryDelay cfg * N.of_nat k))
                 (seq 1 (maxRetries cfg)))
  /\ isSubmitting (fst (fst (handleSubmit_end (Thrown e) f (l ++ trace)))) = false
  /\ (errorMessageOf e <> None ->
      errorShown (fst (fst (handleSubmit_end (Thrown e) f (l ++ trace))))
      = Some unknownSentence
      /\ successVisible (fst (fst (handleSubmit_end (Thrown e) f (l ++ trace))))
         = successVisible f).
Proof.
  intros Hfail trace. split; [|split; [|split; [|split; [|split]]]].
  - specialize (Hfail 0%nat). unfold outcomeOf in Hfail.
    destruct (N.leb_spec (timeout cfg) (latency (net browser 0))) as [Hle | Hgt].
    + injection Hfail as _ <-. tauto.
    + split; [|lia]. intros ->.
      destruct (settles (net browser 0)) as [m | st stText [j | m]];
        try destruct (negb (okStatus st)); discriminate.
  - subst trace. destruct aborted.
    + apply makeApiCall_aborted. apply Hfail.
    + now apply makeApiCall_retries.
  - subst trace. destruct aborted; [reflexivity|].
    rewrite fetchCount_retryTrace. lia.
  - subst trace. destruct aborted; [reflexivity|]. apply delays_retryTrace.
  - apply handleSubmit_end_releases.
  - intros He. destruct (handleSubmit_end_thrown e f (l ++ trace) He) as [l' ->].
    split; reflexivity.
Qed.

Lemma makeApiCall_persistent_failure_witness :
  (makeApiCall apiConfig (Scenario.browserWith Scenario.offline) Scenario.payload 0 []
   = (Thrown (EErr (lit "Failed to fetch")),
      [] ++ retryTrace apiConfig Scenario.payload 0 (maxRetries apiConfig))
   /\ fetchCount (retryTrace apiConfig Scenario.payload 0 (maxRetries apiConfig))
      = (maxRetries apiConfig + 1)%nat)
  /\ makeApiCall apiConfig (Scenario.browserWith Scenario.neverInTime)
       Scenario.payload 0 []
     = (Thrown (EErr (lit "The user aborted a request.")),
        [] ++ [Fetch Scenario.payload]).
Proof.
  pose proof (makeApiCall_persistent_failure apiConfig
                (Scenario.browserWith Scenario.offline) Scenario.payload
                (EErr (lit "Failed to fetch")) false []
                (initialForm (lit "jane.doe@schoolboard.org"))
                (fun k => eq_refl)) as H.
  pose proof (makeApiCall_persistent_failure apiConfig
                (Scenario.browserWith Scenario.neverInTime) Scenario.payload
                (EErr (lit "The user aborted a request.")) true []
                (initialForm (lit "jane.doe@schoolboard.org"))
                (fun k => eq_refl)) as H'.
  split; [split; apply H | apply H'].
Defined.

(** C3, as stated, fails: with the reference configuration an endpoint that
    keeps answering 400 is asked four times, with the backoff delays in
    between, before the error is thrown. *)
Lemma makeApiCall_400_four_attempts :
  makeApiCall apiConfig (Scenario.browserWith Scenario.badRequest)
    Scenario.payload 0 []
  = (Thrown (EErr (lit "API Error: 400 Bad Request")),
     [ Fetch Scenario.payload; Delay 1000;
       Fetch Scenario.payload; Delay 2000;
       Fetch Scenario.payload; Delay 3000;
       Fetch Scenario.payload ])
  /\ fetchCount (snd (makeApiCall apiConfig (Scenario.browserWith Scenario.badRequest)
                        Scenario.payload 0 [])) = 4%nat.
Proof. split; vm_compute; reflexivity. Qed.

(** C3 (amended): a call that fails with a 4xx status is retried like any
    failure that is not a timeout: while fewer than [maxRetries] retries have
    been made the request is issued again after the backoff delay, and only
    then is the error thrown. *)
Theorem makeApiCall_client_error (cfg : ApiConfig) (browser : Browser)
        (payload : Payload) (retryCount : nat) (l : list Effect)
        (lat st : N) (stText : jsstring) (body : Json + jsstring) :
  net browser (fetchCount l)
  = {| latency := lat; settles := Response st stText body |} ->
  lat < timeout cfg ->
  400 <= st <= 499 ->
  makeApiCall cfg browser payload retryCount l
  = if (retryCount <? maxRetries cfg)%nat
    then makeApiCall cfg browser payload (S retryCount)
           (l ++ [Fetch payload; Delay (retryDelay cfg * N.of_nat (retryCount + 1))])
    else (Thrown (EErr (lit "API Error: " ++ decimal st ++ lit " " ++ stText)),
          l ++ [Fetch payload]).
Proof.
  intros Hnet Hlat Hst. rewrite makeApiCall_unfold, Hnet.
  unfold outcomeOf. cbn [latency settles].
  replace (timeout cfg <=? lat) with false by (symmetry; apply N.leb_gt; lia).
  replace (okStatus st) with false
    by (symmetry; unfold okStatus; apply andb_false_iff; right; apply N.leb_gt; lia).
  cbn [negb]. now rewrite andb_true_r.
Qed.

Lemma makeApiCall_client_error_witness :
  makeApiCall apiConfig (Scenario.browserWith Scenario.badRequest) Scenario.payload 0 []
  = if (0 <? maxRetries apiConfig)%nat
    then makeApiCall apiConfig (Scenario.browserWith Scenario.badRequest)
           Scenario.payload 1
           ([] ++ [Fetch Scenario.payload;
                   Delay (retryDelay apiConfig * N.of_nat (0 + 1))])
    else (Thrown (EErr (lit "API Error: " ++ decimal 400 ++ lit " " ++ lit "Bad Request")),
          [] ++ [Fetch Scenario.payload]).
Proof.
  apply (makeApiCall_client_error apiConfig (Scenario.browserWith Scenario.badRequest)
           Scenario.payload 0 [] 120 400 (lit "Bad Request") (inl JNull)).
  - reflexivity.
  - reflexivity.
  - split; discriminate.
Defined.

(** Outside the values that reach it the function is not defined: for
    [null] and for an error whose message is empty, [errorMessage.includes]
    is not a function. *)
Example getErrorMessage_throws :
  getErrorMessage ENullish = None /\ getErrorMessage (EErr []) = None
  /\ getErrorMessage (EStr []) = Some unknownSentence.
Proof. repeat split. Qed.

(** C8: [getErrorMessage] is a function that, on every error value that
    reaches it, returns one sentence, which is not empty and is one of the
    six sentences of the catalogue; it is the unknown sentence when none of
    the specific cases applies. *)
Theorem getErrorMessage_total (e : ErrorValue) :
  reachable e ->
  exists! s,
    getErrorMessage e = Some s
    /\ s <> []
    /\ In s sentences
    /\ (forall em, errorMessageOf e = Some em ->
                   matchesSpecific em = false -> s = unknownSentence).
Proof.
  intros Hr.
  assert (Hm : exists em, errorMessageOf e = Some em).
  { destruct Hr as [cfg browser payload l l' e Hmsg Hs | e m _ _ | result _].
    - destruct (submitToZoho_thrown_message cfg browser payload l l' e Hmsg Hs)
        as (m & -> & Hne).
      exists m. cbn [errorMessageOf].
      now rewrite (proj2 (truthy_nonempty m) Hne).
    - now exists m.
    - now eexists. }
  destruct Hm as [em Hem].
  exists (sentenceFor em). split.
  - unfold getErrorMessage. rewrite Hem. split; [reflexivity|].
    split; [apply sentences_nonempty, sentenceFor_in|].
    split; [apply sentenceFor_in|].
    intros em' [= <-]. apply sentenceFor_fallback.
  - intros s [Hs _]. unfold getErrorMessage in Hs. rewrite Hem in Hs.
    congruence.
Qed.

Lemma getErrorMessage_total_witness :
  exists! s,
    getErrorMessage (EErr (lit "API Error: 400 Bad Request")) = Some s
    /\ s <> []
    /\ In s sentences
    /\ (forall em, errorMessageOf (EErr (lit "API Error: 400 Bad Request")) = Some em ->
                   matchesSpecific em = false -> s = unknownSentence).
Proof.
  apply (getErrorMessage_total (EErr (lit "API Error: 400 Bad Request"))).
  apply (thrown_by_submit apiConfig (Scenario.browserWith Scenario.badRequest)
           Scenario.payload []
           [ Fetch Scenario.payload; Delay 1000;
             Fetch Scenario.payload; Delay 2000;
             Fetch Scenario.payload; Delay 3000;
             Fetch Scenario.payload ]).
  - split; [discriminate | intros n; exact I].
  - vm_compute. reflexivity.
Defined.

(** C9: while the in-flight flag of a form is set, a submit event, the Enter
    key and a click on the button leave the page exactly as it is: no
    submission is added to the pending ones, no error is shown, the log
    gains no request, and when the pending submission settles the page is
    the one it would have been without them. *)
Theorem handleSubmit_single_flight `{U : Unicode} (cfg : ApiConfig)
        (browser : Browser) (p : Page) (evs : list Event) :
  isSubmitting (form p) = true ->
  Forall (fun ev => ev = SubmitEvent \/ ev = EnterKey \/ ev = Click) evs ->
  handleSubmit_begin browser (form p) = (form p, None)
  /\ run cfg browser evs p = p
  /\ awaiting (run cfg browser evs p) = awaiting p
  /\ fetchCount (log (run cfg browser evs p)) = fetchCount (log p)
  /\ errorShown (form (run cfg browser evs p)) = errorShown (form p)
  /\ run cfg browser (evs ++ [Settled]) p = run cfg browser [Settled] p.
Proof.
  intros H Hevs.
  pose proof (run_in_flight cfg browser evs p H Hevs) as Hrun.
  split; [unfold handleSubmit_begin; now rewrite H|].
  rewrite Hrun. repeat split.
  unfold run in *. now rewrite fold_left_app, Hrun.
Qed.

Lemma handleSubmit_single_flight_witness :
  isSubmitting (form (step (U := BasicLatinOnly) apiConfig
                        (Scenario.browserWith Scenario.accepted)
                        SubmitEvent Scenario.start)) = true
  /\ run (U := BasicLatinOnly) apiConfig (Scenario.browserWith Scenario.accepted)
       ([SubmitEvent; Click; EnterKey] ++ [Settled])
       (step (U := BasicLatinOnly) apiConfig (Scenario.browserWith Scenario.accepted)
          SubmitEvent Scenario.start)
     = run (U := BasicLatinOnly) apiConfig (Scenario.browserWith Scenario.accepted)
         [Settled]
         (step (U := BasicLatinOnly) apiConfig (Scenario.browserWith Scenario.accepted)
            SubmitEvent Scenario.start).
Proof.
  split.
  - vm_compute. reflexivity.
  - apply (handleSubmit_single_flight (U := BasicLatinOnly) apiConfig
             (Scenario.browserWith Scenario.accepted)
             (step (U := BasicLatinOnly) apiConfig
                (Scenario.browserWith Scenario.accepted) SubmitEvent Scenario.start)
             [SubmitEvent; Click; EnterKey]).
    + vm_compute. reflexivity.
    + repeat (constructor; [auto|]). constructor.
Defined.

Lemma makeApiCall_recovers_witness :
  makeApiCall apiConfig Scenario.flaky Scenario.payload 0 []
  = (Returned {| success := true; data := Some (JObj []); error := None |},
     [] ++ retryTrace apiConfig Scenario.payload 0 2).
Proof.
  apply (makeApiCall_recovers apiConfig Scenario.flaky Scenario.payload
           {| success := true; data := Some (JObj []); error := None |} 2 0 []).
  - vm_compute. lia.
  - intros i Hi. exists (EErr (lit "Failed to fetch")).
    destruct i as [|[|i]]; [reflexivity | reflexivity | lia].
  - reflexivity.
Defined.

Lemma submitToZoho_development_witness :
  isDevelopment Scenario.localhost = true
  /\ exists added,
       snd (submitToZoho apiConfig Scenario.localhost Scenario.payload []) = [] ++ added
       /\ fetchCount added = 0%nat
       /\ List.filter isDelay added = [Delay 1500]
       /\ length (List.filter isRandom added) = 1%nat
       /\ ((exists result,
               fst (submitToZoho apiConfig Scenario.localhost Scenario.payload [])
               = Returned result
               /\ success result = true)
           \/ fst (submitToZoho apiConfig Scenario.localhost Scenario.payload [])
              = Thrown (EErr (lit "Simulated API failure for testing"))).
Proof.
  split; [vm_compute; reflexivity|].
  apply (submitToZoho_development apiConfig Scenario.localhost Scenario.payload []).
  vm_compute. reflexivity.
Defined.

Lemma requests_carry_valid_email_witness :
  In (Fetch Scenario.payload)
     (log (run (U := BasicLatinOnly) apiConfig (Scenario.browserWith Scenario.accepted)
             [SubmitEvent; Settled] Scenario.start))
  /\ (In (Fetch Scenario.payload) (log Scenario.start)
      \/ exists raw,
           validateEmail (U := BasicLatinOnly) (Some raw)
           = {| isValid := true; FormValidator.error := None;
                value := email Scenario.payload |}).
Proof.
  assert (H : In (Fetch Scenario.payload)
                (log (run (U := BasicLatinOnly) apiConfig
                        (Scenario.browserWith Scenario.accepted)
                        [SubmitEvent; Settled] Scenario.start))).
  { vm_compute. left. reflexivity. }
  split; [exact H|].
  apply (requests_carry_valid_email (U := BasicLatinOnly) apiConfig
           (Scenario.browserWith Scenario.accepted)
           [SubmitEvent; Settled] Scenario.start Scenario.payload);
    [reflexivity | exact H].
Defined.

Lemma pending_invariant_witness :
  awaiting (run (U := BasicLatinOnly) apiConfig (Scenario.browserWith Scenario.accepted)
              [SubmitEvent; Fire ResetForm; SubmitEvent; EnterKey] Scenario.start) = []
  \/ (exists x,
         awaiting (run (U := BasicLatinOnly) apiConfig
                     (Scenario.browserWith Scenario.accepted)
                     [SubmitEvent; Fire ResetForm; SubmitEvent; EnterKey]
                     Scenario.start) = [x])
     /\ emailInput_disabled
          (form (run (U := BasicLatinOnly) apiConfig
                   (Scenario.browserWith Scenario.accepted)
                   [SubmitEvent; Fire ResetForm; SubmitEvent; EnterKey]
                   Scenario.start)) = true.
Proof.
  apply (pending_invariant (U := BasicLatinOnly) apiConfig
           (Scenario.browserWith Scenario.accepted)
           [SubmitEvent; Fire ResetForm; SubmitEvent; EnterKey] Scenario.start).
  left. reflexivity.
Defined.

Lemma settled_display_witness :
  let p := step (U := BasicLatinOnly) apiConfig (Scenario.browserWith Scenario.offline)
             SubmitEvent Scenario.start in
  let p' := step (U := BasicLatinOnly) apiConfig (Scenario.browserWith Scenario.offline)
              Settled p in
  awaiting p = [Scenario.payload]
  /\ awaiting p' = []
  /\ emailInput_disabled (form p') = false
  /\ errorShown (form p') = Some unknownSentence.
Proof.
  intros p p'.
  assert (Ha : awaiting p = [Scenario.payload]) by (vm_compute; reflexivity).
  assert (Hm : messagesPresent (Scenario.browserWith Scenario.offline)).
  { split; [intros H; vm_compute in H; discriminate|].
    intros n. cbn. intros H. vm_compute in H. discriminate. }
  pose proof (settled_display (U := BasicLatinOnly) apiConfig
                (Scenario.browserWith Scenario.offline) p Scenario.payload [] Hm Ha)
    as (H1 & _ & _ & H4 & _ & [(r & Hr & _) | (e & _ & He & _)]).
  - vm_compute in Hr. discriminate.
  - repeat split; assumption.
Defined.

End FormHandlerFacts.

(** ** The image rotator *)

Module ImageRotatorFacts.
Import ImageRotator.

Lemma run_app (evs1 evs2 : list Event) (r : Rotator) :
  run (evs1 ++ evs2) r = run evs2 (run evs1 r).
Proof. unfold run. apply fold_left_app. Qed.

(** X18: once the tab has been hidden, the rotation stays paused when the
    tab is shown again: until the pointer leaves the container or [resume]
    or [restart] is called, no interval tick rotates, and index and image
    stay as they were. *)
Theorem hidden_tab_stays_paused (r : Rotator) (evs : list Event) :
  pauseOnVisibilityChange (options r) = true ->
  transitions r = [] ->
  forallb (fun ev => negb (resumes ev)) evs = true ->
  let r' := run (VisibilityChange true :: VisibilityChange false :: evs) r in
  isPaused r' = true
  /\ currentIndex r' = currentIndex r
  /\ currentImageElement r' = currentImageElement r
  /\ transitions r' = [].
Proof.
  intros Hopt Htr Hevs.
  assert (Hinv : forall evs q,
             forallb (fun ev => negb (resumes ev)) evs = true ->
             isPaused q = true -> transitions q = [] ->
             isPaused (run evs q) = true
             /\ currentIndex (run evs q) = currentIndex q
             /\ currentImageElement (run evs q) = currentImageElement q
             /\ transitions (run evs q) = []).
  { clear. induction evs as [|ev evs IH]; intros q Hevs Hp Ht; [auto|].
    cbn [forallb] in Hevs. apply andb_prop in Hevs as [Hev Hevs].
    change (run (ev :: evs) q) with (run evs (step ev q)).
    assert (Hstep : isPaused (step ev q) = true
                    /\ transitions (step ev q) = []
                    /\ currentIndex (step ev q) = currentIndex q
                    /\ currentImageElement (step ev q) = currentImageElement q).
    { destruct ev as [id|k| | |h| | | |]; try discriminate; cbn [step].
      - rewrite Hp. cbn [negb andb]. destruct (existsb _ _); auto.
      - rewrite Ht. destruct k; cbn [nth_error]; auto.
      - destruct (pauseOnHover (options q)); cbn; auto.
      - destruct (pauseOnVisibilityChange (options q)); [|auto].
        destruct h; cbn; [auto|]. rewrite Hp. cbn. auto.
      - cbn. auto.
      - unfold stop. destruct (intervalId q); cbn; auto. }
    destruct Hstep as (H1 & H2 & H3 & H4).
    destruct (IH (step ev q) Hevs H1 H2) as (I1 & I2 & I3 & I4).
    rewrite I2, I3, H3, H4. auto. }
  cbn zeta. change (run (?a :: ?b :: evs) r) with (run evs (step b (step a r))).
  cbn [step]. rewrite Hopt. cbn [pause set_isPaused set_isVisible options isPaused negb].
  rewrite Hopt.
  match goal with |- context [run evs ?q] => destruct (Hinv evs q Hevs) as (I1 & I2 & I3 & I4) end;
    [reflexivity | exact Htr |].
  rewrite I1, I2, I3, I4. auto.
Qed.

Lemma one_rotation (r : Rotator) (id : nat) :
  In id (timers r) -> isPaused r = false -> isVisible r = true ->
  transitions r = [] -> (1 < length (images r))%nat ->
  let i := ((currentIndex r + 1) mod length (images r))%nat in
  let r' := run (rotation id) r in
  currentIndex r' = i
  /\ currentImageElement r'
     = {| src := nth i (images r) []; alt := generateAltText i;
          opacity := 1; zIndex := 2 |}
  /\ opacity (nextImageElement r') = 0
  /\ transitions r' = []
  /\ images r' = images r /\ timers r' = timers r
  /\ isPaused r' = false /\ isVisible r' = true.
Proof.
  intros Hid Hp Hv Ht Hlen. unfold rotation, run. cbn [fold_left step].
  assert (Hex : existsb (Nat.eqb id) (timers r) = true).
  { apply List.existsb_exists. exists id. split; [exact Hid | apply Nat.eqb_refl]. }
  rewrite Hex, Hp, Hv. cbn [negb andb]. unfold rotateToNext_begin.
  destruct (Nat.leb_spec (length (images r)) 1) as [|_]; [lia|].
  cbn [transitions]. rewrite Ht. cbn [app nth_error]. cbn. auto 10.
Qed.

(** X19: while the rotator runs undisturbed, [n] rotations move the index
    [n] places round the image list: it is [(currentIndex + n) mod length],
    so every image is shown in turn and the first one follows the last; the
    visible element then shows that image with its alt text. *)
Theorem rotation_cycles (r : Rotator) (id n : nat) :
  In id (timers r) -> isPaused r = false -> isVisible r = true ->
  transitions r = [] -> (1 < length (images r))%nat ->
  (currentIndex r < length (images r))%nat ->
  let r' := run (concat (repeat (rotation id) n)) r in
  let i := ((currentIndex r + n) mod length (images r))%nat in
  currentIndex r' = i
  /\ transitions r' = []
  /\ ((0 < n)%nat ->
      currentImageElement r'
      = {| src := nth i (images r) []; alt := generateAltText i;
           opacity := 1; zIndex := 2 |}).
Proof.
  revert r. induction n as [|n IH]; intros r Hid Hp Hv Ht Hlen Hi; cbn zeta.
  - cbn [repeat concat run fold_left]. rewrite Nat.add_0_r, Nat.mod_small by lia.
    repeat split; [exact Ht | lia].
  - assert (E : concat (repeat (rotation id) (S n))
                = concat (repeat (rotation id) n) ++ rotation id).
    { replace (S n) with (n + 1)%nat by lia.
      rewrite repeat_app, concat_app. cbn [repeat concat].
      now rewrite app_nil_r. }
    rewrite E, run_app. clear E.
    destruct (IH r Hid Hp Hv Ht Hlen Hi) as (I1 & I2 & _).
    assert (Hkeep : forall m q,
               In id (timers q) -> isPaused q = false -> isVisible q = true ->
               transitions q = [] -> (1 < length (images q))%nat ->
               let q' := run (concat (repeat (rotation id) m)) q in
               images q' = images q /\ In id (timers q')
               /\ isPaused q' = false /\ isVisible q' = true).
    { clear. induction m as [|m IHm]; intros q Hid Hp Hv Ht Hlen; [cbn; auto|].
      cbn zeta. cbn [repeat concat]. rewrite run_app.
      destruct (one_rotation q id Hid Hp Hv Ht Hlen)
        as (_ & _ & _ & H4 & H5 & H6 & H7 & H8).
      destruct (IHm (run (rotation id) q)) as (J1 & J2 & J3 & J4);
        [now rewrite H6 | assumption | assumption | assumption | now rewrite H5|].
      rewrite J1, H5. auto. }
    destruct (Hkeep n r Hid Hp Hv Ht Hlen) as (K1 & K2 & K3 & K4).
    set (q := run (concat (repeat (rotation id) n)) r) in *.
    destruct (one_rotation q id K2 K3 K4 I2) as (H1 & H2 & _ & H4 & _);
      [now rewrite K1|].
    rewrite H1, H2, H4, K1, I1.
    replace (((currentIndex r + n) mod length (images r) + 1)
               mod length (images r))%nat
      with ((currentIndex r + S n) mod length (images r))%nat
      by (rewrite Nat.Div0.add_mod_idemp_l; f_equal; lia).
    auto.
Qed.

(** X20: the rotator keeps at most one interval alive: the table of live
    intervals holds the interval [intervalId] names and nothing else,
    whatever is called and in whatever order, so [restart] never doubles the
    rotation and after [stop] no tick is left. *)
Theorem one_live_interval (evs : list Event) (r : Rotator) :
  timers r = match intervalId r with Some id => [id] | None => [] end ->
  let r' := run evs r in
  timers r' = match intervalId r' with Some id => [id] | None => [] end.
Proof.
  revert r. induction evs as [|ev evs IH]; intros r Hr; [exact Hr|].
  change (run (ev :: evs) r) with (run evs (step ev r)). apply IH. clear IH.
  assert (Hstop : timers (stop r) = [] /\ intervalId (stop r) = None).
  { unfold stop. destruct (intervalId r) as [id|] eqn:E; cbn; rewrite ?E, Hr; [|auto].
    cbn. rewrite Nat.eqb_refl. auto. }
  destruct ev as [id|k| | |h| | | |]; cbn [step].
  - destruct (existsb _ _); [|exact Hr].
    destruct (negb (isPaused r) && isVisible r); [|exact Hr].
    unfold rotateToNext_begin. destruct (length (images r) <=? 1)%nat; exact Hr.
  - destruct (nth_error (transitions r) k); exact Hr.
  - destruct (pauseOnHover (options r)); exact Hr.
  - destruct (pauseOnHover (options r)); exact Hr.
  - destruct (pauseOnVisibilityChange (options r)); [|exact Hr].
    destruct h; [exact Hr|]. cbn. destruct (negb (isPaused r)); exact Hr.
  - exact Hr.
  - exact Hr.
  - destruct Hstop as [H1 H2]. rewrite H1, H2. reflexivity.
  - destruct Hstop as [H1 H2]. unfold restart.
    assert (Q1 : timers (set_isPaused false (stop r)) = []) by exact H1.
    assert (Q2 : intervalId (set_isPaused false (stop r)) = None) by exact H2.
    revert Q1 Q2. generalize (set_isPaused false (stop r)). intros q Q1 Q2.
    unfold startRotation. destruct (length (images q) <=? 1)%nat.
    + now rewrite Q1, Q2.
    + cbn [timers intervalId]. now rewrite Q1.
Qed.


Lemma hidden_tab_stays_paused_witness :
  let r := init defaultOptions defaultImages heroImage in
  let r' := run (VisibilityChange true :: VisibilityChange false
                 :: [IntervalFires 1; MouseEnter; IntervalFires 1]) r in
  isPaused r' = true
  /\ currentIndex r' = currentIndex r
  /\ currentImageElement r' = currentImageElement r
  /\ transitions r' = [].
Proof.
  apply (hidden_tab_stays_paused (init defaultOptions defaultImages heroImage)
           [IntervalFires 1; MouseEnter; IntervalFires 1]); reflexivity.
Defined.

Lemma rotation_cycles_witness :
  let r := init defaultOptions defaultImages heroImage in
  let r' := run (concat (repeat (rotation 1) 10)) r in
  let i := ((currentIndex r + 10) mod length (images r))%nat in
  currentIndex r' = i
  /\ transitions r' = []
  /\ ((0 < 10)%nat ->
      currentImageElement r'
      = {| src := nth i (images r) []; alt := generateAltText i;
           opacity := 1; zIndex := 2 |}).
Proof.
  apply (rotation_cycles (init defaultOptions defaultImages heroImage) 1 10).
  - left. reflexivity.
  - reflexivity.
  - reflexivity.
  - reflexivity.
  - vm_compute. lia.
  - vm_compute. lia.
Defined.

Lemma one_live_interval_witness :
  let r' := run [CallRestart; CallStop; CallRestart; CallRestart]
              (init defaultOptions defaultImages heroImage) in
  timers r' = match intervalId r' with Some id => [id] | None => [] end.
Proof.
  apply (one_live_interval [CallRestart; CallStop; CallRestart; CallRestart]
           (init defaultOptions defaultImages heroImage)).
  reflexivity.
Defined.


End ImageRotatorFacts.

(** ** Arrow-key navigation *)

Module BentoNavigationFacts.
Import BentoNavigation.

Lemma press_down (boxes focus : nat) :
  (focus < boxes)%nat ->
  press boxes focus ArrowDown = Nat.min (boxes - 1) (focus + 1).
Proof.
  intros H. unfold press, handleBentoNavigation.
  rewrite (proj2 (Nat.ltb_lt _ _) H).
  destruct (Z.leb_spec 0 (Z.min (Z.of_nat boxes - 1) (Z.of_nat focus + 1)));
    [|lia].
  destruct (Z.ltb_spec (Z.min (Z.of_nat boxes - 1) (Z.of_nat focus + 1))
              (Z.of_nat boxes)); [|lia].
  cbn [andb]. lia.
Qed.

Lemma press_up (boxes focus : nat) :
  (focus < boxes)%nat -> press boxes focus ArrowUp = (focus - 1)%nat.
Proof.
  intros H. unfold press, handleBentoNavigation.
  rewrite (proj2 (Nat.ltb_lt _ _) H).
  destruct (Z.ltb_spec (Z.max 0 (Z.of_nat focus - 1)) (Z.of_nat boxes)); lia.
Qed.

(** X22: arrow keys move the focus through the bento boxes one at a time
    and stop at the ends: [k] presses of ArrowDown from box [focus] lead to
    box [min (boxes - 1) (focus + k)], [k] presses of ArrowUp to box
    [focus - k] or the first box; the focus never wraps round and never
    leaves the grid. *)
Theorem bento_arrows_clamp (boxes focus k : nat) :
  (focus < boxes)%nat ->
  fold_left (press boxes) (repeat ArrowDown k) focus
  = Nat.min (boxes - 1) (focus + k)
  /\ fold_left (press boxes) (repeat ArrowUp k) focus = (focus - k)%nat.
Proof.
  revert focus. induction k as [|k IH]; intros focus H; cbn [repeat fold_left].
  - split; lia.
  - rewrite (press_down _ _ H), (press_up _ _ H).
    destruct (IH (Nat.min (boxes - 1) (focus + 1))) as [I1 _]; [lia|].
    destruct (IH (focus - 1)%nat) as [_ I2]; [lia|].
    rewrite I1, I2. split; lia.
Qed.

Lemma bento_arrows_clamp_witness :
  fold_left (press 4) (repeat ArrowDown 5) 2%nat = Nat.min (4 - 1) (2 + 5)
  /\ fold_left (press 4) (repeat ArrowUp 5) 2%nat = (2 - 5)%nat.
Proof. apply (bento_arrows_clamp 4 2 5). lia. Defined.

End BentoNavigationFacts.

(** ** Validation while typing *)

Module RealTimeValidationFacts.
Import FormHandler RealTimeValidation.

Section Facts.
Context `{U : Unicode}.

Lemma clearTimeout_known (s : Field) :
  (liveTimeouts s = []
   \/ exists id, timeoutId s = Some id /\ liveTimeouts s = [id]) ->
  clearTimeout (timeoutId s) (liveTimeouts s) = [].
Proof.
  intros [H | (id & H1 & H2)].
  - rewrite H. destruct (timeoutId s); reflexivity.
  - rewrite H1, H2. cbn. now rewrite Nat.eqb_refl.
Qed.

Lemma last_cons_default {A : Type} (l : list A) (a d : A) :
  List.last (a :: l) d = List.last l a.
Proof.
  revert a d. induction l as [|b l IH]; intros a d; [reflexivity|].
  change (List.last (a :: b :: l) d) with (List.last (b :: l) d).
  rewrite IH. symmetry. apply IH.
Qed.

Lemma typing_burst (vs : list jsstring) (v : jsstring) (s : Field) :
  (liveTimeouts s = []
   \/ exists id, timeoutId s = Some id /\ liveTimeouts s = [id]) ->
  successVisible (fieldForm s) = false ->
  let s1 := run (map InputEvent (v :: vs)) s in
  (exists id, timeoutId s1 = Some id /\ liveTimeouts s1 = [id])
  /\ validated s1 = validated s
  /\ fieldForm s1 = set_value (List.last vs v) (fieldForm s).
Proof.
  revert v s. induction vs as [|w vs IH]; intros v s Hinv Hsv; cbn zeta.
  - cbn [map run fold_left step]. rewrite (clearTimeout_known s Hinv).
    cbn [successVisible set_value]. rewrite Hsv. cbn. eauto.
  - change (run (map InputEvent (v :: w :: vs)) s)
      with (run (map InputEvent (w :: vs)) (step (InputEvent v) s)).
    destruct (IH w (step (InputEvent v) s)) as (I1 & I2 & I3).
    + right. cbn [step]. rewrite (clearTimeout_known s Hinv). cbn. eauto.
    + cbn [step]. cbn [successVisible set_value]. rewrite Hsv. exact Hsv.
    + split; [exact I1|]. split; [rewrite I2; reflexivity|].
      rewrite I3. cbn [step]. cbn [successVisible set_value]. rewrite Hsv.
      cbn [fieldForm]. rewrite (last_cons_default vs w v). reflexivity.
Qed.

(** X23: validation while typing is debounced: a burst of input events
    followed by the timeout runs the validator once, on the last value
    typed; no earlier value is validated, no timeout is left, and the
    field then shows what [handleValidation] makes of that one result. *)
Theorem typing_validates_once (vs : list jsstring) (v : jsstring) (s : Field) :
  (liveTimeouts s = []
   \/ exists id, timeoutId s = Some id /\ liveTimeouts s = [id]) ->
  successVisible (fieldForm s) = false ->
  let s' := run (map InputEvent (v :: vs) ++ [TimeoutFires]) s in
  validated s' = validated s ++ [List.last vs v]
  /\ liveTimeouts s' = []
  /\ fieldForm s'
     = handleValidation (validateEmail (Some (List.last vs v)))
                        (set_value (List.last vs v) (fieldForm s)).
Proof.
  intros Hinv Hsv. cbn zeta. unfold run. rewrite fold_left_app.
  fold (run (map InputEvent (v :: vs)) s).
  destruct (typing_burst vs v s Hinv Hsv) as ((id & _ & Hlive) & Hval & Hform).
  cbn [fold_left step]. rewrite Hlive. unfold validate.
  cbn [fieldForm validated liveTimeouts]. rewrite Hform, Hval.
  cbn [set_value emailInput_value]. auto.
Qed.

Lemma validateEmail_invalid_error (email : option jsstring) :
  isValid (validateEmail email) = false ->
  exists e, FormValidator.error (validateEmail email) = Some e
            /\ JsString.truthy e = true.
Proof.
  unfold validateEmail.
  repeat match goal with
         | |- context [if ?b then _ else _] => destruct b
         end; cbn [isValid FormValidator.error]; intros H;
    try discriminate; eexists; split; reflexivity.
Qed.

(** X24: what the field shows after a validation while typing: nothing
    changes for an empty field, so an error shown earlier stays; a valid
    value removes the error; any other value shows the validator's error,
    REQUIRED for white space. *)
Theorem handleValidation_display (f : Form) :
  let f' := handleValidation (validateEmail (Some (emailInput_value f))) f in
  (emailInput_value f = [] -> f' = f)
  /\ (isValid (validateEmail (Some (emailInput_value f))) = true ->
      errorShown f' = None)
  /\ (emailInput_value f <> [] ->
      isValid (validateEmail (Some (emailInput_value f))) = false ->
      errorShown f' = FormValidator.error (validateEmail (Some (emailInput_value f)))
      /\ errorShown f' <> None).
Proof.
  cbn zeta. unfold handleValidation. split; [|split].
  - intros ->. reflexivity.
  - intros ->. reflexivity.
  - intros Hne Hinv. rewrite Hinv.
    destruct (validateEmail_invalid_error _ Hinv) as (e & He & Hte).
    rewrite He, Hte.
    destruct (emailInput_value f) as [|c w]; [congruence|].
    cbn. split; [reflexivity | discriminate].
Qed.

End Facts.

Lemma typing_validates_once_witness :
  let s' := run (U := BasicLatinOnly)
              (map InputEvent [lit "j"; lit "ja"; lit "jane@"] ++ [TimeoutFires])
              fresh in
  validated s' = validated fresh ++ [List.last [lit "ja"; lit "jane@"] (lit "j")]
  /\ liveTimeouts s' = []
  /\ fieldForm s'
     = handleValidation
         (validateEmail (U := BasicLatinOnly)
            (Some (List.last [lit "ja"; lit "jane@"] (lit "j"))))
         (set_value (List.last [lit "ja"; lit "jane@"] (lit "j")) (fieldForm fresh)).
Proof.
  apply (typing_validates_once (U := BasicLatinOnly)
           [lit "ja"; lit "jane@"] (lit "j") fresh).
  - left. reflexivity.
  - reflexivity.
Defined.

End RealTimeValidationFacts.

(** ** [sanitizeInput] *)

Module SanitizerFacts.
Import Sanitizer.

Lemma trimStart_in (s : jsstring) (c : N) : In c (trimStart s) -> In c s.
Proof.
  induction s as [|a s IH]; cbn [trimStart]; [auto|].
  destruct (isWhiteSpace a); [right; auto | auto].
Qed.

Lemma trim_in (s : jsstring) (c : N) : In c (trim s) -> In c s.
Proof.
  unfold trim, trimEnd. intros H.
  apply List.in_rev, trimStart_in in H. apply List.in_rev in H.
  now apply trimStart_in.
Qed.

Lemma trimStart_length (s : jsstring) : (length (trimStart s) <= length s)%nat.
Proof.
  induction s as [|a s IH]; cbn [trimStart]; [lia|].
  destruct (isWhiteSpace a); cbn [length]; lia.
Qed.

Lemma trim_length (s : jsstring) : (length (trim s) <= length s)%nat.
Proof.
  unfold trim, trimEnd. rewrite length_rev.
  etransitivity; [apply trimStart_length|]. rewrite length_rev.
  apply trimStart_length.
Qed.

Lemma sublist_Forall {A : Type} (P : A -> Prop) (l1 l2 : list A) :
  sublist l1 l2 -> Forall P l2 -> Forall P l1.
Proof.
  induction 1 as [|x l1 l2 _ IH|x l1 l2 _ IH]; intros H; [constructor| |].
  - inversion H; subst. constructor; auto.
  - inversion H; subst. auto.
Qed.

Section Facts.
Context `{U : Unicode}.

Lemma removeFrom_sublist (ic : bool) (atoms : list Atom) (skip : nat)
      (s : jsstring) :
  sublist (removeFrom ic atoms skip s) s.
Proof.
  revert skip. induction s as [|c s IH]; intros skip; cbn [removeFrom].
  - constructor.
  - destruct skip as [|k]; [|apply sublist_cons, IH].
    destruct (matchAtoms ic atoms (c :: s)) as [[|k]|];
      first [apply sublist_skip, IH | apply sublist_cons, IH].
Qed.

Lemma removeFrom_angleBrackets (skip : nat) (s : jsstring) :
  Forall (fun c => c <> ch "<" /\ c <> ch ">")
         (removeFrom false angleBrackets skip s).
Proof.
  revert skip. induction s as [|c s IH]; intros skip; cbn [removeFrom].
  - constructor.
  - destruct skip as [|k]; [|apply IH].
    cbn [matchAtoms angleBrackets].
    destruct (unitMatches false [one "<"%char; one ">"%char] c) eqn:E.
    + cbn [option_map]. apply IH.
    + constructor; [|apply IH].
      unfold unitMatches in E. cbn [classMatches inRanges existsb one] in E.
      apply orb_false_elim in E as [E1 E2].
      apply orb_false_elim in E2 as [E2 _].
      split; intros ->; [rewrite N.leb_refl in E1 | rewrite N.leb_refl in E2];
        discriminate.
Qed.

(** X25: [sanitizeInput] only removes: its result is the trimmed input
    with some units left out, so it is never longer than the input; it
    contains neither [<] nor [>]; and an argument that is not a string
    gives the empty string. *)
Theorem sanitizeInput_strips (input : option jsstring) :
  match input with
  | None => sanitizeInput input = []
  | Some s =>
      sublist (sanitizeInput input) (trim s)
      /\ (length (sanitizeInput input) <= length s)%nat
      /\ Forall (fun c => c <> ch "<" /\ c <> ch ">") (sanitizeInput input)
  end.
Proof.
  destruct input as [s|]; [|reflexivity]. unfold sanitizeInput, removeAll.
  set (a := removeFrom false angleBrackets 0 (trim s)).
  set (b := removeFrom true javascriptScheme 0 a).
  set (c := removeFrom true onHandler 0 b).
  assert (Hcb : sublist c b) by apply removeFrom_sublist.
  assert (Hba : sublist b a) by apply removeFrom_sublist.
  assert (Hat : sublist a (trim s)) by apply removeFrom_sublist.
  assert (Hct : sublist c (trim s)).
  { etransitivity; [exact Hcb|]. etransitivity; [exact Hba | exact Hat]. }
  split; [exact Hct|]. split.
  - etransitivity; [apply sublist_length, Hct | apply trim_length].
  - apply (sublist_Forall _ c a); [transitivity b; assumption|].
    apply removeFrom_angleBrackets.
Qed.

Lemma Canonicalize_symbol (a c : N) :
  a < 65 \/ (90 < a /\ a < 97) \/ (122 < a /\ a < 128) ->
  Canonicalize a = Canonicalize c -> c = a.
Proof.
  intros Ha. rewrite (Canonicalize_latin a) by lia.
  assert (Hua : upperLatin a = a).
  { unfold upperLatin.
    destruct (N.leb_spec 97 a), (N.leb_spec a 122); cbn [andb]; lia. }
  rewrite Hua. destruct (N.lt_ge_cases c 128) as [Hc | Hc].
  - rewrite (Canonicalize_latin c Hc). unfold upperLatin.
    destruct (N.leb_spec 97 c), (N.leb_spec c 122); cbn [andb]; lia.
  - unfold Canonicalize. destruct (toUpperCase [c]) as [|cu [|]]; try lia.
    destruct (N.leb_spec 128 c); [|lia]. cbn [andb].
    destruct (N.ltb_spec cu 128); lia.
Qed.

Lemma unitMatches_symbol (ic : bool) (x : ascii) (c : N) :
  ch x < 65 \/ (90 < ch x /\ ch x < 97) \/ (122 < ch x /\ ch x < 128) ->
  unitMatches ic [one x] c = true -> c = ch x.
Proof.
  intros Hx. unfold unitMatches, classMatches. destruct ic.
  - intros H. apply List.existsb_exists in H as (a & Ha & E).
    apply N.eqb_eq in E.
    assert (a = ch x).
    { unfold members, one in Ha. cbn [flat_map] in Ha. rewrite app_nil_r in Ha.
      apply List.in_map_iff in Ha as (k & <- & Hk). apply List.in_seq in Hk.
      unfold ch in *. lia. }
    subst a. now apply Canonicalize_symbol.
  - cbn [inRanges existsb one]. rewrite orb_false_r. intros H.
    apply andb_prop in H as [H1 H2]. apply N.leb_le in H1, H2. lia.
Qed.

Lemma backtrack_some (rest : jsstring -> option nat) (s : jsstring) (k n : nat) :
  backtrack rest s k = Some n -> exists j m, rest (skipn j s) = Some m.
Proof.
  induction k as [|k IH]; cbn [backtrack]; [discriminate|].
  destruct (rest (skipn (S k) s)) as [m|] eqn:E; [eauto | exact IH].
Qed.

Lemma matchAtoms_unit (ic : bool) (atoms : list Atom) (cs : list (N * N))
      (s : jsstring) (n : nat) :
  matchAtoms ic atoms s = Some n -> In (One cs) atoms ->
  exists c, In c s /\ unitMatches ic cs c = true.
Proof.
  revert s n. induction atoms as [|a atoms IH]; intros s n Hm Hin; [destruct Hin|].
  destruct a as [cs0 | cs0]; cbn [matchAtoms] in Hm.
  - destruct s as [|c s]; [discriminate|].
    destruct (unitMatches ic cs0 c) eqn:E; [|discriminate].
    destruct (matchAtoms ic atoms s) as [m|] eqn:Em; [|discriminate].
    destruct Hin as [Hin | Hin].
    + injection Hin as ->. exists c. split; [now left | exact E].
    + destruct (IH s m Em Hin) as (d & Hd & Hu). exists d. split; [now right | exact Hu].
  - destruct Hin as [Hin | Hin]; [discriminate|].
    apply backtrack_some in Hm as (j & m & Hm).
    destruct (IH _ m Hm Hin) as (d & Hd & Hu).
    exists d. split; [eapply in_skipn; exact Hd | exact Hu].
Qed.

Lemma removeFrom_no_match (ic : bool) (atoms : list Atom) (Q : N -> Prop)
      (s : jsstring) :
  (forall t, Forall Q t -> matchAtoms ic atoms t = None) ->
  Forall Q s -> removeFrom ic atoms 0 s = s.
Proof.
  intros Hnone. induction 1 as [|c s Hc Hs IH]; [reflexivity|].
  cbn [removeFrom]. rewrite (Hnone (c :: s)) by (constructor; assumption).
  now rewrite IH.
Qed.

Lemma no_match_without (ic : bool) (atoms : list Atom) (x : ascii) (t : jsstring) :
  ch x < 65 \/ (90 < ch x /\ ch x < 97) \/ (122 < ch x /\ ch x < 128) ->
  In (One [one x]) atoms ->
  Forall (fun c => c <> ch x) t ->
  matchAtoms ic atoms t = None.
Proof.
  intros Hx Hin Ht. destruct (matchAtoms ic atoms t) as [n|] eqn:E; [|reflexivity].
  destruct (matchAtoms_unit ic atoms _ t n E Hin) as (c & Hc & Hu).
  apply unitMatches_symbol in Hu; [|exact Hx].
  rewrite List.Forall_forall in Ht. now destruct (Ht c Hc).
Qed.

(** X26: a string without [<], [>], [:] and [=] is only trimmed:
    [sanitizeInput] removes nothing else from it. *)
Theorem sanitizeInput_plain (s : jsstring) :
  Forall (fun c => c <> ch "<" /\ c <> ch ">" /\ c <> ch ":" /\ c <> ch "=") s ->
  sanitizeInput (Some s) = trim s.
Proof.
  intros Hs.
  assert (Ht : Forall (fun c => c <> ch "<" /\ c <> ch ">"
                                /\ c <> ch ":" /\ c <> ch "=") (trim s)).
  { rewrite List.Forall_forall in *. intros c Hc. apply Hs. now apply trim_in. }
  unfold sanitizeInput, removeAll.
  revert Ht. generalize (trim s). clear Hs s. intros s Hs.
  rewrite (removeFrom_no_match false angleBrackets
             (fun c => c <> ch "<" /\ c <> ch ">")).
  - rewrite (removeFrom_no_match true javascriptScheme (fun c => c <> ch ":")).
    + apply (removeFrom_no_match true onHandler (fun c => c <> ch "=")).
      * intros t Ht. apply (no_match_without true onHandler "=" t);
          [left; reflexivity | do 3 right; left; reflexivity | exact Ht].
      * eapply Forall_impl; [exact Hs|]. cbn beta. tauto.
    + intros t Ht. apply (no_match_without true javascriptScheme ":" t);
        [left; reflexivity | do 10 right; left; reflexivity | exact Ht].
    + eapply Forall_impl; [exact Hs|]. cbn beta. tauto.
  - intros t Ht. destruct t as [|c t]; [reflexivity|].
    cbn [matchAtoms angleBrackets].
    destruct (unitMatches false [one "<"%char; one ">"%char] c) eqn:E;
      [|reflexivity].
    exfalso. inversion Ht as [|? ? [H1 H2] _]; subst.
    unfold unitMatches in E. cbn [classMatches inRanges existsb one] in E.
    rewrite orb_false_r in E. apply orb_prop in E as [E | E];
      apply andb_prop in E as [E1 E2]; apply N.leb_le in E1, E2; lia.
  - eapply Forall_impl; [exact Hs|]. cbn beta. tauto.
Qed.

End Facts.

Lemma sanitizeInput_plain_witness :
  sanitizeInput (U := BasicLatinOnly) (Some (lit "  Jane Doe  "))
  = trim (lit "  Jane Doe  ").
Proof.
  apply (sanitizeInput_plain (U := BasicLatinOnly) (lit "  Jane Doe  ")).
  apply List.Forall_forall. intros c Hc.
  vm_compute in Hc. repeat split; intros ->;
    repeat (destruct Hc as [Hc | Hc]; [discriminate|]); exact Hc.
Defined.

End SanitizerFacts.
